(** * Codeforces-Stats-Analyzer: the fetch / reduce / aggregate core

    A shallow embedding of [Codeforces-Stats-Analyzer.py]: the date
    window resolution of [CF.start_fetch], the paged generator
    [fetch_submissions_in_period], the reducer
    [collect_first_ac_per_problem] and the tag aggregation of
    [CF._fetch_thread].

    Conventions.
    - Python [int] is [Z]; a Python [str] is a [string], read as its
      sequence of characters with code points below 256 (the inputs of
      this program are ASCII); [String.compare] orders them by code
      point, as Python does.
    - A JSON object read with [.get] is a record of [option] fields:
      [None] is "key absent" (or JSON null, which [.get] cannot tell
      apart from absence when the default is [None]).
    - A Python [dict] is an insertion-ordered association list with
      unique keys ([PyDict]): iteration order feeds the order of the
      rating lists, so it is kept.
    - A raised exception is the [Raise] branch of [result].
    - Python [float] is IEEE 754 binary64, [SpecFloat.spec_float] with
      [prec = 53] and [emax = 1024]. *)

From Stdlib Require Import ZArith List String Ascii Bool Lia.
From Stdlib Require Import DecimalString Permutation Sorted.
From Stdlib Require Import Floats.SpecFloat.
Import ListNotations.

Local Open Scope string_scope.
Local Open Scope list_scope.
Local Open Scope Z_scope.

(* ================================================================== *)
(** * Part I: definitions                                              *)
(* ================================================================== *)

(** ** Exceptions and fallible computations *)

(** The exceptions the program meets; [RequestException] stands for
    whatever [requests] raises (connection errors, timeouts, HTTP
    errors, a body that is not JSON). *)
Inductive exn : Type :=
| ValueError (msg : string)
| RuntimeError (msg : string)
| NameError (name : string)
| OverflowError (msg : string)
| RequestException (detail : string).

Inductive result (A : Type) : Type :=
| Return (a : A)
| Raise (e : exn).

Arguments Return {A} a.
Arguments Raise {A} e.

Definition bind {A B : Type} (r : result A) (k : A -> result B) : result B :=
  match r with
  | Return a => k a
  | Raise e => Raise e
  end.

Notation "x <- r ;; k" := (bind r (fun x => k))
  (at level 61, r at next level, right associativity).

(** [try: r except Exception: h] *)
Definition try_except {A : Type} (r : result A) (h : A) : A :=
  match r with
  | Return a => a
  | Raise _ => h
  end.

(** [str(n)] for an [int]. *)
Definition str_of_int (z : Z) : string :=
  NilZero.string_of_int (Z.to_int z).

(** ** Python dictionaries with string keys *)

Module PyDict.

Definition t (V : Type) : Type := list (string * V).

Definition empty {V : Type} : t V := [].

(** [d.get(k)] *)
Fixpoint get {V : Type} (k : string) (d : t V) : option V :=
  match d with
  | [] => None
  | (k', v) :: d' => if String.eqb k' k then Some v else get k d'
  end.

(** [k in d] *)
Definition contains {V : Type} (k : string) (d : t V) : bool :=
  match get k d with
  | Some _ => true
  | None => false
  end.

(** [d[k] = v]: an existing key keeps its position, a new key goes
    last. *)
Fixpoint set {V : Type} (k : string) (v : V) (d : t V) : t V :=
  match d with
  | [] => [(k, v)]
  | (k', v') :: d' =>
      if String.eqb k' k then (k', v) :: d' else (k', v') :: set k v d'
  end.

Definition keys {V : Type} (d : t V) : list string := map fst d.
Definition values {V : Type} (d : t V) : list V := map snd d.
Definition items {V : Type} (d : t V) : list (string * V) := d.
Definition len {V : Type} (d : t V) : Z := Z.of_nat (List.length d).


End PyDict.

(** ** Data model: what [api_user_status] returns *)

(** The [problem] object of a submission.  The Codeforces API sends
    [contestId] and [rating] as integers, [index] and [name] as strings
    and [tags] as a list of strings; each may be absent. *)
Record Problem : Type := mkProblem {
  contestId : option Z;
  index : option string;
  name : option string;
  tags : option (list string);
  rating : option Z
}.

Record Submission : Type := mkSubmission {
  creationTimeSeconds : option Z;
  verdict : option string;
  problem : option Problem
}.

(** [{}], the default of [s.get("problem", {})]. *)
Definition empty_problem : Problem :=
  mkProblem None None None None None.

(** The tuple stored per problem:
    [(ts, p.get("tags", []), p.get("name", ""), p.get("rating"))]. *)
Definition SolvedRecord : Type :=
  (Z * list string * string * option Z)%type.

Definition rec_ts (r : SolvedRecord) : Z :=
  let '(ts, _, _, _) := r in ts.
Definition rec_tags (r : SolvedRecord) : list string :=
  let '(_, tg, _, _) := r in tg.
Definition rec_name (r : SolvedRecord) : string :=
  let '(_, _, nm, _) := r in nm.
Definition rec_rating (r : SolvedRecord) : option Z :=
  let '(_, _, _, rt) := r in rt.

(** ** First-acceptance reducer (source lines 101-114) *)

(** [x.get(k, dflt)] on an optional field. *)
Definition get_default {A : Type} (o : option A) (dflt : A) : A :=
  match o with
  | Some a => a
  | None => dflt
  end.

(** [s.get("verdict") != "OK"] is false. *)
Definition verdict_ok (s : Submission) : bool :=
  match verdict s with
  | Some v => String.eqb v "OK"
  | None => false
  end.

(** [int(s.get("creationTimeSeconds", 0))] *)
Definition submission_ts (s : Submission) : Z :=
  get_default (creationTimeSeconds s) 0.

(** [s.get("problem", {})] *)
Definition submission_problem (s : Submission) : Problem :=
  get_default (problem s) empty_problem.

(** Truth value of [p.get("index")]: present and not the empty string. *)
Definition truthy_str (o : option string) : bool :=
  match o with
  | Some s => negb (String.eqb s "")
  | None => false
  end.

(** Lines 108-111. *)
Definition problem_key (p : Problem) : string :=
  match contestId p with
  | Some c =>
      if truthy_str (index p)
      then (str_of_int c ++ "-" ++ get_default (index p) "")%string
      else ("nopid-" ++ get_default (name p) "unknown")%string
  | None => ("nopid-" ++ get_default (name p) "unknown")%string
  end.

Definition submission_key (s : Submission) : string :=
  problem_key (submission_problem s).

(** The tuple written at line 113. *)
Definition submission_record (s : Submission) : SolvedRecord :=
  let p := submission_problem s in
  (submission_ts s, get_default (tags p) [], get_default (name p) "",
   rating p).

(** One iteration of the [for] loop of lines 103-113. *)
Definition collect_step (solved : PyDict.t SolvedRecord) (s : Submission)
  : PyDict.t SolvedRecord :=
  if negb (verdict_ok s) then solved
  else
    let ts := submission_ts s in
    let key := submission_key s in
    match PyDict.get key solved with
    | None => PyDict.set key (submission_record s) solved
    | Some r =>
        if ts <? rec_ts r
        then PyDict.set key (submission_record s) solved
        else solved
    end.

Definition collect_first_ac_per_problem (submissions_iter : list Submission)
  : PyDict.t SolvedRecord :=
  fold_left collect_step submissions_iter PyDict.empty.

(** [t] is the least timestamp of the accepted submissions of [l] that
    derive the key [k]. *)
Definition min_accepted_ts (l : list Submission) (k : string) (t : Z) : Prop :=
  (exists s, In s l /\ verdict_ok s = true /\ submission_key s = k
             /\ submission_ts s = t)
  /\ (forall s, In s l -> verdict_ok s = true -> submission_key s = k ->
                t <= submission_ts s).


(** Sample streams.  [scenario_stream] is the three-submission history
    of the specification's scenario; [tie_stream] holds two accepted
    submissions of problems without a contest id that share a name and
    a second, with different tags. *)
Definition scenario_stream : list Submission :=
  [ mkSubmission (Some 100) (Some "OK")
      (Some (mkProblem (Some 1) (Some "A") None (Some ["dp"]) (Some 800)));
    mkSubmission (Some 50) (Some "OK")
      (Some (mkProblem (Some 1) (Some "A") None (Some ["dp"]) (Some 800)));
    mkSubmission (Some 200) (Some "WRONG")
      (Some (mkProblem (Some 2) (Some "B") None (Some ["greedy"]) None)) ].

Definition tie_first : Submission :=
  mkSubmission (Some 50) (Some "OK")
    (Some (mkProblem None None (Some "Sum") (Some ["math"]) (Some 800))).

Definition tie_second : Submission :=
  mkSubmission (Some 50) (Some "OK")
    (Some (mkProblem None None (Some "Sum") (Some ["dp"]) (Some 1500))).

Definition tie_stream : list Submission := [tie_first; tie_second].

(** ** Strings: the [str] methods the date code uses *)

Definition ascii_code (c : ascii) : Z := Z.of_nat (nat_of_ascii c).

(** [c.isspace()] on the characters below 256. *)
Definition is_space (c : ascii) : bool :=
  let n := ascii_code c in
  ((9 <=? n) && (n <=? 13)) || ((28 <=? n) && (n <=? 32))
  || (n =? 133) || (n =? 160).

Fixpoint lstrip (s : string) : string :=
  match s with
  | String c s' => if is_space c then lstrip s' else s
  | EmptyString => EmptyString
  end.

Fixpoint rstrip (s : string) : string :=
  match s with
  | String c s' =>
      match rstrip s' with
      | EmptyString => if is_space c then EmptyString else String c EmptyString
      | r => String c r
      end
  | EmptyString => EmptyString
  end.

(** [s.strip()] *)
Definition strip (s : string) : string := rstrip (lstrip s).

(** [len(s)] *)
Definition len (s : string) : Z := Z.of_nat (String.length s).

(** [s.count(c)] for a one-character needle. *)
Fixpoint count_char (c : ascii) (s : string) : Z :=
  match s with
  | String c' s' => (if Ascii.eqb c' c then 1 else 0) + count_char c s'
  | EmptyString => 0
  end.

(** ** Floating point: the [float] operations the aggregation uses *)

Definition float : Type := spec_float.

Definition prec : Z := 53.
Definition emax : Z := 1024.

Definition float_zero : float := S754_zero false.

(** The binary64 value nearest to [n / d] for integers [n] and [d > 0]
    (ties to even). *)
Definition float_of_ratio (n d : Z) : float :=
  let exact (z : Z) : float :=
    match z with
    | Z0 => S754_zero false
    | Zpos p => S754_finite false p 0
    | Zneg p => S754_finite true p 0
    end in
  match d with
  | 1 => binary_normalize prec emax n 0 false
  | _ => SFdiv prec emax (exact n) (exact d)
  end.

(** [float(z)] for an [int]: the nearest binary64 value, or
    [OverflowError] when that is out of range. *)
Definition py_float (z : Z) : result float :=
  match binary_normalize prec emax z 0 false with
  | S754_zero s => Return (S754_zero s)
  | S754_finite s m e => Return (S754_finite s m e)
  | S754_infinity _ | S754_nan =>
      Raise (OverflowError "int too large to convert to float")
  end.

Definition is_finite (x : float) : bool :=
  match x with
  | S754_zero _ | S754_finite _ _ _ => true
  | S754_infinity _ | S754_nan => false
  end.

(** [int(x)]: truncation toward zero. *)
Definition py_int (x : float) : result Z :=
  match x with
  | S754_zero _ => Return 0
  | S754_finite s m e =>
      Return (cond_Zopp s (if 0 <=? e then Zpos m * 2 ^ e
                           else Zpos m / 2 ^ (- e)))
  | S754_infinity _ =>
      Raise (OverflowError "cannot convert float infinity to integer")
  | S754_nan => Raise (ValueError "cannot convert float NaN to integer")
  end.

(** [min(x :: rest)]: the first of the least items. *)
Definition py_min (x : float) (rest : list float) : float :=
  fold_left (fun best item => if SFltb item best then item else best) rest x.

(** [max(x :: rest)]: the first of the greatest items. *)
Definition py_max (x : float) (rest : list float) : float :=
  fold_left (fun best item => if SFltb best item then item else best) rest x.

(** [sum(l)]: additions from the left, starting at zero.  (CPython 3.12
    and later compensate the rounding errors of these additions; the two
    agree whenever the partial sums are exact.) *)
Definition py_sum (l : list float) : float :=
  fold_left (SFadd prec emax) l float_zero.

(** The integer nearest to [n / d], ties to even ([d > 0]). *)
Definition round_half_even (n d : Z) : Z :=
  let q := n / d in
  match 2 * (n mod d) ?= d with
  | Lt => q
  | Gt => q + 1
  | Eq => if Z.even q then q else q + 1
  end.

(** [round(x, 1)]: the decimal with one digit after the point nearest
    to the exact value of [x], converted back to binary64. *)
Definition py_round1 (x : float) : float :=
  match x with
  | S754_finite s m e =>
      let n := 10 * cond_Zopp s (Zpos m) in
      let tenths := if 0 <=? e then n * 2 ^ e
                    else round_half_even n (2 ^ (- e)) in
      if tenths =? 0 then S754_zero s else float_of_ratio tenths 10
  | _ => x
  end.

(** [sum(l) / len(l)] *)
Definition py_mean (l : list float) : float :=
  SFdiv prec emax (py_sum l) (float_of_ratio (Z.of_nat (List.length l)) 1).

(** ** Dates and times: the part of [datetime] the program uses *)

(** A [datetime] value; [tzinfo] is the UTC offset in microseconds of an
    aware value and [None] for a naive one.  [timezone.utc] is offset
    zero. *)
Record datetime : Type := mkDatetime {
  year : Z;
  month : Z;
  day : Z;
  hour : Z;
  minute : Z;
  second : Z;
  microsecond : Z;
  tzinfo : option Z
}.

Definition utc : option Z := Some 0.

(** [dt.replace(tzinfo=tz)] *)
Definition replace_tzinfo (dt : datetime) (tz : option Z) : datetime :=
  mkDatetime (year dt) (month dt) (day dt) (hour dt) (minute dt) (second dt)
             (microsecond dt) tz.

(** [dt.replace(hour=h, minute=m, second=s)] *)
Definition replace_hms (dt : datetime) (h m s : Z) : datetime :=
  mkDatetime (year dt) (month dt) (day dt) h m s (microsecond dt) (tzinfo dt).

Definition is_leap (y : Z) : bool :=
  (y mod 4 =? 0) && (negb (y mod 100 =? 0) || (y mod 400 =? 0)).

Definition days_in_month (y m : Z) : Z :=
  if (m =? 2) && is_leap y then 29
  else nth (Z.to_nat m) [0; 31; 28; 31; 30; 31; 30; 31; 31; 30; 31; 30; 31] 0.

Definition days_before_month_table : list Z :=
  [0; 0; 31; 59; 90; 120; 151; 181; 212; 243; 273; 304; 334].

Definition days_before_year (y : Z) : Z :=
  let y1 := y - 1 in
  y1 * 365 + y1 / 4 - y1 / 100 + y1 / 400.

Definition days_before_month (y m : Z) : Z :=
  nth (Z.to_nat m) days_before_month_table 0
  + (if (2 <? m) && is_leap y then 1 else 0).

(** Proleptic Gregorian ordinal: 0001-01-01 is day 1. *)
Definition ymd2ord (y m d : Z) : Z :=
  days_before_year y + days_before_month y m + d.

Definition MAXORDINAL : Z := 3652059.
Definition EPOCH_ORDINAL : Z := ymd2ord 1970 1 1.

(** The inverse, as [datetime._ord2ymd] computes it. *)
Definition ord2ymd (n0 : Z) : Z * Z * Z :=
  let n := n0 - 1 in
  let n400 := n / 146097 in
  let n := n mod 146097 in
  let y := n400 * 400 + 1 in
  let n100 := n / 36524 in
  let n := n mod 36524 in
  let n4 := n / 1461 in
  let n := n mod 1461 in
  let n1 := n / 365 in
  let n := n mod 365 in
  let y := y + n100 * 100 + n4 * 4 + n1 in
  if (n1 =? 4) || (n100 =? 4) then (y - 1, 12, 31)
  else
    let leapyear := (n1 =? 3) && (negb (n4 =? 24) || (n100 =? 3)) in
    let m := Z.shiftr (n + 50) 5 in
    let preceding :=
      nth (Z.to_nat m) days_before_month_table 0
      + (if (2 <? m) && leapyear then 1 else 0) in
    if n <? preceding
    then
      let m' := m - 1 in
      let preceding' :=
        preceding
        - (nth (Z.to_nat m') [0; 31; 28; 31; 30; 31; 30; 31; 31; 30; 31; 30; 31] 0
           + (if (m' =? 2) && leapyear then 1 else 0)) in
      (y, m', n - preceding' + 1)
    else (y, m, n - preceding + 1).

(** Microseconds from 0001-01-01T00:00:00 to the fields of [dt], read
    on its own clock. *)
Definition local_us (dt : datetime) : Z :=
  (((ymd2ord (year dt) (month dt) (day dt) * 24 + hour dt) * 60 + minute dt)
     * 60 + second dt) * 1000000 + microsecond dt.

(** Microseconds since the epoch of the instant [dt] denotes.  Every
    [datetime] that reaches the fetcher is aware ([parse_date_maybe] and
    [datetime.now(timezone.utc)] build nothing else); a naive value is
    read as UTC here. *)
Definition utc_us (dt : datetime) : Z :=
  local_us dt - get_default (tzinfo dt) 0 - EPOCH_ORDINAL * 86400000000.

(** [int(dt.timestamp())].  For an aware value [timestamp()] is
    [(dt - epoch).total_seconds()], the microseconds since the epoch
    over [10**6] as a binary64 quotient ([int / int], correctly
    rounded); [int] cuts it toward zero.  The quotient of a [datetime]
    is far from overflow, so the conversion cannot fail. *)
Definition int_timestamp (dt : datetime) : Z :=
  match py_int (float_of_ratio (utc_us dt) 1000000) with
  | Return z => z
  | Raise _ => 0
  end.

(** [a > b] on aware values. *)
Definition datetime_gtb (a b : datetime) : bool := utc_us b <? utc_us a.

(** [dt + timedelta(microseconds=delta)], keeping [tzinfo]. *)
Definition datetime_add_us (dt : datetime) (delta : Z) : result datetime :=
  let total := local_us dt + delta in
  let days := total / 86400000000 in
  let rest := total mod 86400000000 in
  if (0 <? days) && (days <=? MAXORDINAL)
  then
    let '(y, m, d) := ord2ymd days in
    let secs := rest / 1000000 in
    Return (mkDatetime y m d (secs / 3600) ((secs mod 3600) / 60) (secs mod 60)
                       (rest mod 1000000) (tzinfo dt))
  else Raise (OverflowError "date value out of range").

(** [dt.astimezone(timezone.utc)] on an aware value. *)
Definition astimezone_utc (dt : datetime) : result datetime :=
  r <- datetime_add_us dt (- get_default (tzinfo dt) 0) ;;
  Return (replace_tzinfo r utc).

(** *** [datetime.strptime(s, "%Y-%m-%d")] *)

Definition is_digit (c : ascii) : bool :=
  let n := ascii_code c in (48 <=? n) && (n <=? 57).

Definition digit_val (c : ascii) : Z := ascii_code c - 48.

Definition in_range (c : ascii) (lo hi : Z) : bool :=
  is_digit c && (lo <=? digit_val c) && (digit_val c <=? hi).

Fixpoint first_some {A : Type} (l : list (option A)) : option A :=
  match l with
  | [] => None
  | Some a :: _ => Some a
  | None :: l' => first_some l'
  end.

(** The alternatives of the directive [%d], in the order the pattern
    lists them: [3[0-1]], [[1-2]\d], [0[1-9]], [[1-9]], [ [1-9]]. *)
Definition match_day (s : string) : option (Z * string) :=
  first_some
    [ match s with
      | String c1 (String c2 r) =>
          if Ascii.eqb c1 "3" && in_range c2 0 1
          then Some (30 + digit_val c2, r) else None
      | _ => None
      end;
      match s with
      | String c1 (String c2 r) =>
          if in_range c1 1 2 && is_digit c2
          then Some (10 * digit_val c1 + digit_val c2, r) else None
      | _ => None
      end;
      match s with
      | String c1 (String c2 r) =>
          if Ascii.eqb c1 "0" && in_range c2 1 9
          then Some (digit_val c2, r) else None
      | _ => None
      end;
      match s with
      | String c1 r => if in_range c1 1 9 then Some (digit_val c1, r) else None
      | _ => None
      end;
      match s with
      | String c1 (String c2 r) =>
          if Ascii.eqb c1 " " && in_range c2 1 9
          then Some (digit_val c2, r) else None
      | _ => None
      end ].

(** What follows the month in the pattern: the literal [-] and a day. *)
Definition match_dash_day (m : Z) (s : string) : option (Z * Z * string) :=
  match s with
  | String c r =>
      if Ascii.eqb c "-"
      then match match_day r with
           | Some (d, rest) => Some (m, d, rest)
           | None => None
           end
      else None
  | EmptyString => None
  end.

(** The alternatives of [%m], in order: [1[0-2]], [0[1-9]], [[1-9]];
    the matcher falls back to the next one when the rest of the pattern
    does not match. *)
Definition match_month_day (s : string) : option (Z * Z * string) :=
  first_some
    [ match s with
      | String c1 (String c2 r) =>
          if Ascii.eqb c1 "1" && in_range c2 0 2
          then match_dash_day (10 + digit_val c2) r else None
      | _ => None
      end;
      match s with
      | String c1 (String c2 r) =>
          if Ascii.eqb c1 "0" && in_range c2 1 9
          then match_dash_day (digit_val c2) r else None
      | _ => None
      end;
      match s with
      | String c1 r =>
          if in_range c1 1 9 then match_dash_day (digit_val c1) r else None
      | _ => None
      end ].

(** The whole pattern [(\d\d\d\d)-(%m)-(%d)], matched at the start of
    [s]; the result carries what is left over. *)
Definition match_ymd (s : string) : option (Z * Z * Z * string) :=
  match s with
  | String y1 (String y2 (String y3 (String y4 (String c r)))) =>
      if is_digit y1 && is_digit y2 && is_digit y3 && is_digit y4
         && Ascii.eqb c "-"
      then match match_month_day r with
           | Some (m, d, rest) =>
               Some (((digit_val y1 * 10 + digit_val y2) * 10 + digit_val y3)
                       * 10 + digit_val y4, m, d, rest)
           | None => None
           end
      else None
  | _ => None
  end.

Definition strptime_ymd (s : string) : result datetime :=
  match match_ymd s with
  | None => Raise (ValueError "time data does not match format")
  | Some (y, m, d, rest) =>
      if negb (String.eqb rest "")
      then Raise (ValueError "unconverted data remains")
      else if (1 <=? y) && (1 <=? d) && (d <=? days_in_month y m)
      then Return (mkDatetime y m d 0 0 0 0 None)
      else Raise (ValueError "day is out of range for month")
  end.

(** [s] is a bare calendar date: the text [parse_date_maybe] hands to
    [strptime], which reads it as the day [d]. *)
Definition bare_date (s : string) (d : datetime) : Prop :=
  len s = 10 /\ count_char "-" s = 2 /\ strptime_ymd s = Return d.

(** ** DateWindow resolver (source lines 21-38 and 214-227) *)

Section DateWindow.

(** [datetime.fromisoformat]: the standard library's ISO 8601 reader,
    whose result may be naive or aware. *)
Variable fromisoformat : string -> result datetime.

Definition parse_date_maybe (s : option string) : result (option datetime) :=
  match s with
  | None => Return None
  | Some s0 =>
      let s := strip s0 in
      if String.eqb s "" then Return None
      else
        let body : result datetime :=
          if (len s =? 10) && (count_char "-" s =? 2)
          then
            dt <- strptime_ymd s ;;
            Return (replace_tzinfo dt utc)
          else
            dt <- fromisoformat s ;;
            match tzinfo dt with
            | None => Return (replace_tzinfo dt utc)
            | Some _ => astimezone_utc dt
            end
        in
        match body with
        | Return dt => Return (Some dt)
        | Raise _ => Raise (ValueError "Date must be YYYY-MM-DD or ISO datetime")
        end
  end.

Definition THIRTY_DAYS_US : Z := 30 * 86400000000.

(** Lines 223-224: the lower bound, from what [parse_date_maybe] gave
    for the From field; [now] is the clock read at line 224. *)
Definition default_from (parsed : option datetime) (now : datetime)
  : result datetime :=
  match parsed with
  | Some dt => Return dt
  | None => datetime_add_us now (- THIRTY_DAYS_US)
  end.

(** Lines 221-222. *)
Definition default_to (parsed : option datetime) (now : datetime) : datetime :=
  get_default parsed now.

(** Lines 226-227. *)
Definition widen_to (dt_to : datetime) (to_var : string) : datetime :=
  if (hour dt_to =? 0) && (minute dt_to =? 0) && (second dt_to =? 0)
     && (len (strip to_var) =? 10)
  then replace_hms dt_to 23 59 59
  else dt_to.

(** The lower bound alone: lines 215 and 223-224. *)
Definition window_from (from_var : string) (now_from : datetime)
  : result datetime :=
  parsed_from <- parse_date_maybe (Some from_var) ;;
  default_from parsed_from now_from.

(** The window [CF.start_fetch] hands to the fetch thread, from the two
    entry fields; [now_to] and [now_from] are the clock as read at
    lines 222 and 224.  A [Raise] is the path on which the fetch thread
    is not started. *)
Definition start_fetch_window (from_var to_var : string)
    (now_to now_from : datetime) : result (datetime * datetime) :=
  parsed_from <- parse_date_maybe (Some from_var) ;;
  parsed_to <- parse_date_maybe (Some to_var) ;;
  let dt_to := default_to parsed_to now_to in
  dt_from <- default_from parsed_from now_from ;;
  let dt_to := widen_to dt_to to_var in
  Return (dt_from, dt_to).

End DateWindow.

(** A reader that knows one date-time, for examples: the naive
    [2024-01-01T12:30:00]. *)
Definition sample_fromisoformat (s : string) : result datetime :=
  if String.eqb s "2024-01-01T12:30:00"
  then Return (mkDatetime 2024 1 1 12 30 0 0 None)
  else Raise (ValueError "Invalid isoformat string").

Definition sample_now : datetime := mkDatetime 2026 11 3 9 15 42 250000 utc.

(** ** Paged submission fetcher (source lines 43-99) *)

(** The JSON envelope of a Codeforces answer. *)
Record envelope : Type := mkEnvelope {
  env_status : option string;
  env_comment : option string;
  env_result : option (list Submission)
}.

(** One call of [api_user_status], with what it returned or raised. *)
Record api_call : Type := mkCall {
  call_from : Z;
  call_count : Z;
  call_response : result (list Submission)
}.

(** The messages handed to the [progress] callback. *)
Inductive progress_msg : Type :=
| MsgReachedMax (max_requests : Z)
| MsgApiRequest (requests_made start_idx page_size : Z)
| MsgNoMore
| MsgStoppingEarly
| MsgFinished (yielded : Z).

(** How the consumption of the generator ends: it is exhausted, or an
    exception leaves it.  [OutOfFuel] is the recursion bound of the
    model, which [fetch_submissions_in_period] never meets. *)
Inductive fetch_outcome : Type :=
| Exhausted
| Raised (e : exn)
| OutOfFuel.

(** A complete consumption of the generator: the calls made, the
    progress messages, the submissions yielded, and the end. *)
Record fetch_run : Type := mkRun {
  requests : list api_call;
  progress_log : list progress_msg;
  yielded : list Submission;
  outcome : fetch_outcome
}.

Definition run_end (o : fetch_outcome) (msgs : list progress_msg) : fetch_run :=
  mkRun [] msgs [] o.

(** [r] preceded by one call, its messages and its yields. *)
Definition run_prepend (calls : list api_call) (msgs : list progress_msg)
    (ys : list Submission) (r : fetch_run) : fetch_run :=
  mkRun (calls ++ requests r) (msgs ++ progress_log r) (ys ++ yielded r)
        (outcome r).

(** [x is not None and ts < x] *)
Definition below_bound (bound : option Z) (ts : Z) : bool :=
  match bound with
  | Some b => ts <? b
  | None => false
  end.

(** [x is not None and ts > x] *)
Definition above_bound (bound : option Z) (ts : Z) : bool :=
  match bound with
  | Some b => b <? ts
  | None => false
  end.

(** One iteration of the [for s in page] loop (lines 80-89): the state
    is [oldest_ts_in_page] and the submissions yielded so far. *)
Definition scan_step (from_ts to_ts : option Z)
    (st : option Z * list Submission) (s : Submission)
  : option Z * list Submission :=
  let '(oldest_ts_in_page, out) := st in
  let ts := submission_ts s in
  let oldest_ts_in_page :=
    match oldest_ts_in_page with
    | None => Some ts
    | Some o => if ts <? o then Some ts else Some o
    end in
  if below_bound from_ts ts then (oldest_ts_in_page, out)
  else if above_bound to_ts ts then (oldest_ts_in_page, out)
  else (oldest_ts_in_page, out ++ [s]).

Definition scan_page (from_ts to_ts : option Z) (page : list Submission)
  : option Z * list Submission :=
  fold_left (scan_step from_ts to_ts) page (None, []).

(** Line 91. *)
Definition stop_early (oldest_ts_in_page from_ts : option Z) : bool :=
  match oldest_ts_in_page, from_ts with
  | Some o, Some f => o <? f
  | _, _ => false
  end.

(** [ts] lies in the window. *)
Definition in_window (from_ts to_ts : option Z) (s : Submission) : bool :=
  negb (below_bound from_ts (submission_ts s))
  && negb (above_bound to_ts (submission_ts s)).

(** The least timestamp of a page. *)
Definition page_oldest (page : list Submission) : option Z :=
  match page with
  | [] => None
  | s :: page' =>
      Some (fold_left (fun o s' => Z.min o (submission_ts s')) page'
                      (submission_ts s))
  end.

(** The defaults of the signature (line 54).  The one caller,
    [CF._fetch_thread], passes both arguments itself. *)
Definition default_page_size : Z := 1000.
Definition default_max_requests : Z := 100.

Section Fetcher.

(** [requests.get(url, params, timeout)], [raise_for_status] and
    [r.json()]: the remote service.  Its answer may depend on how many
    requests came before (first argument), on the handle, and on the
    [from] and [count] parameters; a network error, a bad HTTP status or
    a body that is not JSON is a [Raise]. *)
Variable http_user_status : nat -> string -> Z -> Z -> result envelope.

(** [str(j)] in the error message of line 50. *)
Variable repr_envelope : envelope -> string.

(** Lines 43-51; [n] counts the earlier requests. *)
Definition api_user_status (n : nat) (handle : string) (_from count : Z)
  : result (list Submission) :=
  j <- http_user_status n handle _from count ;;
  if negb (match env_status j with
           | Some st => String.eqb st "OK"
           | None => false
           end)
  then Raise (RuntimeError
                ("Codeforces API error: "
                 ++ get_default (env_comment j) (repr_envelope j))%string)
  else Return (get_default (env_result j) []).

Section Loop.

Variable handle : string.
Variable from_ts to_ts : option Z.
Variable page_size max_requests : Z.
Variable progress : bool.

Definition notify (m : progress_msg) : list progress_msg :=
  if progress then [m] else [].

(** The [while True] loop of lines 65-96.  [n] is the number of requests
    already issued to the service; [yielded_so_far] is the counter
    [yielded]. *)
Fixpoint fetch_loop (fuel : nat) (n : nat) (start_idx requests_made : Z)
    (yielded_so_far : Z) : fetch_run :=
  match fuel with
  | O => run_end OutOfFuel []
  | S fuel' =>
      if max_requests <=? requests_made
      then run_end Exhausted
             (notify (MsgReachedMax max_requests)
              ++ notify (MsgFinished yielded_so_far))
      else
        let requests_made := requests_made + 1 in
        let msg := notify (MsgApiRequest requests_made start_idx page_size) in
        let response := api_user_status n handle start_idx page_size in
        let call := mkCall start_idx page_size response in
        match response with
        | Raise e => run_prepend [call] msg [] (run_end (Raised e) [])
        | Return page =>
            match page with
            | [] =>
                run_prepend [call] msg []
                  (run_end Exhausted
                     (notify MsgNoMore ++ notify (MsgFinished yielded_so_far)))
            | _ :: _ =>
                let '(oldest_ts_in_page, out) := scan_page from_ts to_ts page in
                let yielded_now := yielded_so_far + Z.of_nat (List.length out) in
                if stop_early oldest_ts_in_page from_ts
                then
                  run_prepend [call] msg out
                    (run_end Exhausted
                       (notify MsgStoppingEarly
                        ++ notify (MsgFinished yielded_now)))
                else
                  run_prepend [call] msg out
                    (fetch_loop fuel' (S n)
                       (start_idx + Z.of_nat (List.length page))
                       requests_made yielded_now)
            end
        end
  end.

End Loop.

(** Consuming [fetch_submissions_in_period(handle, dt_from, dt_to,
    page_size, max_requests, progress)] to its end.  The body of a
    generator runs when it is iterated, so the [ValueError] of line 56
    is the first thing the consumer meets. *)
Definition fetch_submissions_in_period (handle : string)
    (dt_from dt_to : option datetime) (page_size max_requests : Z)
    (progress : bool) : fetch_run :=
  if match dt_from, dt_to with
     | Some f, Some t => datetime_gtb f t
     | _, _ => false
     end
  then run_end (Raised (ValueError "From date must be <= To date")) []
  else
    let from_ts := option_map int_timestamp dt_from in
    let to_ts := option_map int_timestamp dt_to in
    fetch_loop handle from_ts to_ts page_size max_requests progress
               (S (Z.to_nat max_requests)) 0%nat 1 0 0.

End Fetcher.

(** A call that leaves [page_size], [max_requests] and [progress] to
    the defaults of the signature: [1000], [100] and [None]. *)
Definition fetch_with_defaults
    (http_user_status : nat -> string -> Z -> Z -> result envelope)
    (repr_envelope : envelope -> string) (handle : string)
    (dt_from dt_to : option datetime) : fetch_run :=
  fetch_submissions_in_period http_user_status repr_envelope handle
    dt_from dt_to default_page_size default_max_requests false.

(** ** Tag aggregator (source lines 244-261 and 272-291) *)

Record agg_state : Type := mkAgg {
  tag_counts : PyDict.t Z;
  tag_ratings : PyDict.t (list float);
  all_ratings : list float
}.

Definition agg_init : agg_state := mkAgg PyDict.empty PyDict.empty [].

(** Lines 258-261, one tag of one record. *)
Definition aggregate_tag (rating_val : option float) (st : agg_state)
    (tag : string) : agg_state :=
  let counts :=
    PyDict.set tag (get_default (PyDict.get tag (tag_counts st)) 0 + 1)
               (tag_counts st) in
  match rating_val with
  | Some f =>
      let lst := get_default (PyDict.get tag (tag_ratings st)) [] in
      mkAgg counts (PyDict.set tag (lst ++ [f]) (tag_ratings st))
            (all_ratings st)
  | None => mkAgg counts (tag_ratings st) (all_ratings st)
  end.

(** Lines 249-255: [rating_val], and whether [all_ratings] grows. *)
Definition rating_value (rating : option Z) : option float :=
  match rating with
  | None => None
  | Some z => try_except (f <- py_float z ;; Return (Some f)) None
  end.

(** Lines 248-261, one solved record. *)
Definition aggregate_record (st : agg_state) (r : SolvedRecord) : agg_state :=
  let '(ts, tags, nm, rating) := r in
  let rating_val := rating_value rating in
  let all := match rating_val with
             | Some f => all_ratings st ++ [f]
             | None => all_ratings st
             end in
  fold_left (aggregate_tag rating_val) tags
            (mkAgg (tag_counts st) (tag_ratings st) all).

Definition aggregate (solved_map : PyDict.t SolvedRecord) : agg_state :=
  fold_left aggregate_record (PyDict.values solved_map) agg_init.

(** A line of the tag report: [Min], [Max] and [Avg], or [N/A] three
    times when [stats] is [None]; [NoTagsLine] is the line ["(none)"]. *)
Inductive tag_line : Type :=
| TagLine (tag : string) (cnt : Z) (stats : option (Z * Z * float))
| NoTagsLine.

(** [(-x[1], x[0]) < (-y[1], y[0])] *)
Definition tag_key_ltb (x y : string * Z) : bool :=
  (- snd x <? - snd y)
  || ((- snd x =? - snd y) && String.ltb (fst x) (fst y)).

(** [sorted]: a stable sort; each item goes behind the items that are
    not greater. *)
Fixpoint insert_sorted {A : Type} (ltb : A -> A -> bool) (x : A) (l : list A)
  : list A :=
  match l with
  | [] => [x]
  | y :: l' => if ltb x y then x :: y :: l' else y :: insert_sorted ltb x l'
  end.

Definition sorted {A : Type} (ltb : A -> A -> bool) (l : list A) : list A :=
  fold_left (fun acc x => insert_sorted ltb x acc) l [].

(** Lines 275-282, one tag. *)
Definition tag_line_of (ratings : PyDict.t (list float)) (item : string * Z)
  : result tag_line :=
  let '(tag, cnt) := item in
  let rlist := get_default (PyDict.get tag ratings) [] in
  match rlist with
  | [] => Return (TagLine tag cnt None)
  | x :: rest =>
      min_r <- py_int (py_min x rest) ;;
      max_r <- py_int (py_max x rest) ;;
      let avg_r := py_round1 (py_mean rlist) in
      Return (TagLine tag cnt (Some (min_r, max_r, avg_r)))
  end.

Fixpoint map_result {A B : Type} (f : A -> result B) (l : list A)
  : result (list B) :=
  match l with
  | [] => Return []
  | a :: l' => b <- f a ;; bs <- map_result f l' ;; Return (b :: bs)
  end.

(** Lines 272-284. *)
Definition tag_report (st : agg_state) : result (list tag_line) :=
  match tag_counts st with
  | [] => Return [NoTagsLine]
  | _ :: _ =>
      map_result (tag_line_of (tag_ratings st))
                 (sorted tag_key_ltb (PyDict.items (tag_counts st)))
  end.

(** Lines 290-291. *)
Definition avg_problem_rating (all : list float) : option float :=
  match all with
  | [] => None
  | _ :: _ => Some (py_round1 (py_mean all))
  end.



(** How often the tag [t] occurs in the tags of a record. *)
Definition tag_occurrences (t : string) (r : SolvedRecord) : nat :=
  count_occ string_dec (rec_tags r) t.

(** The count the aggregation owes to the tag [t]: one per occurrence
    in the tags of each solved record. *)
Definition expected_count (t : string) (records : list SolvedRecord) : Z :=
  fold_right (fun r acc => Z.of_nat (tag_occurrences t r) + acc) 0 records.

(** The rating list the aggregation owes to the tag [t]: the rating of
    each rated record, once per occurrence of [t], in iteration order. *)
Definition expected_ratings (t : string) (records : list SolvedRecord)
  : list float :=
  flat_map (fun r => match rating_value (rec_rating r) with
                     | Some f => repeat f (tag_occurrences t r)
                     | None => []
                     end) records.

Definition expected_all_ratings (records : list SolvedRecord) : list float :=
  flat_map (fun r => match rating_value (rec_rating r) with
                     | Some f => [f]
                     | None => []
                     end) records.

(** [m] is an item of [l] below which no item lies. *)
Definition is_least (l : list float) (m : float) : Prop :=
  In m l /\ forall y, In y l -> SFltb y m = false.

Definition is_greatest (l : list float) (m : float) : Prop :=
  In m l /\ forall y, In y l -> SFltb m y = false.

(** The order [sorted] leaves between neighbours: not greater. *)
Definition tag_key_le (x y : string * Z) : Prop := tag_key_ltb y x = false.

(** The statistics a line must show for the rating list [rlist]: nothing
    for an empty list, else the least and the greatest rating cut to
    integers and the mean rounded to one decimal. *)
Definition stats_of (rlist : list float) (stats : option (Z * Z * float))
  : Prop :=
  match rlist with
  | [] => stats = None
  | _ :: _ =>
      exists mn mx zmn zmx,
        is_least rlist mn /\ is_greatest rlist mx
        /\ py_int mn = Return zmn /\ py_int mx = Return zmx
        /\ stats = Some (zmn, zmx, py_round1 (py_mean rlist))
  end.

(** ** The fetch thread (source lines 237-291) *)

Record user_info : Type := mkUserInfo {
  ui_rating : option Z;
  ui_maxRating : option Z
}.

(** Line 264 calls [api_user_info], a name the module never binds (no
    [def], no import): evaluating the call raises [NameError] before any
    request could be sent. *)
Definition api_user_info (handle : string) : result user_info :=
  Raise (NameError "api_user_info").

(** What the thread has computed when it schedules [finish]; the
    formatted period and solve-rate strings are display only and are
    left out. *)
Record thread_result : Type := mkThreadResult {
  res_solved_map : PyDict.t SolvedRecord;
  res_tag_lines : list tag_line;
  res_problems_count : Z;
  res_avg_problem_rating : option float;
  res_user_rating : option Z;
  res_user_max_rating : option Z
}.

(** Lines 244-291 on a solved map. *)
Definition summarize (handle : string) (solved_map : PyDict.t SolvedRecord)
  : result thread_result :=
  let st := aggregate solved_map in
  let '(user_rating, user_max_rating) :=
    try_except
      (ui <- api_user_info handle ;;
       Return (ui_rating ui, ui_maxRating ui))
      (None, None) in
  tag_lines <- tag_report st ;;
  Return (mkThreadResult solved_map tag_lines (PyDict.len solved_map)
            (avg_problem_rating (all_ratings st))
            user_rating user_max_rating).

Section FetchThread.

Variable http_user_status : nat -> string -> Z -> Z -> result envelope.
Variable repr_envelope : envelope -> string.

(** [CF._fetch_thread]: the run of the generator as
    [collect_first_ac_per_problem] consumes it, and what the [try] block
    ends with ([Raise e] is the [except] branch, which reports [e]). *)
Definition _fetch_thread (handle : string) (dt_from dt_to : datetime)
  : fetch_run * result thread_result :=
  let run :=
    fetch_submissions_in_period http_user_status repr_envelope handle
      (Some dt_from) (Some dt_to) 1000 200 true in
  (run,
   match outcome run with
   | Raised e => Raise e
   | Exhausted | OutOfFuel =>
       summarize handle (collect_first_ac_per_problem (yielded run))
   end).

End FetchThread.

(** ** Notions the properties are stated with *)

(** [m] is the least [creationTimeSeconds] of the page. *)
Definition page_min (page : list Submission) (m : Z) : Prop :=
  (exists s, In s page /\ submission_ts s = m)
  /\ (forall s, In s page -> m <= submission_ts s).

(** [tag_counts.get(t, 0)] and [tag_ratings.get(t, [])] *)
Definition counts_at (t : string) (st : agg_state) : Z :=
  get_default (PyDict.get t (tag_counts st)) 0.

Definition ratings_at (t : string) (st : agg_state) : list float :=
  get_default (PyDict.get t (tag_ratings st)) [].

(** What the aggregation loop keeps true of its three accumulators:
    every stored count is positive, no tag is counted under two
    entries, and every stored rating is finite. *)
Record agg_invariant (st : agg_state) : Prop := mkAggInv {
  inv_counts_pos :
    forall t c, PyDict.get t (tag_counts st) = Some c -> 1 <= c;
  inv_counts_nodup : NoDup (PyDict.keys (tag_counts st));
  inv_ratings_finite :
    forall t l, PyDict.get t (tag_ratings st) = Some l ->
                Forall (fun f => is_finite f = true) l;
  inv_all_finite : Forall (fun f => is_finite f = true) (all_ratings st)
}.

(** 1 when the two tags are the same, else 0. *)
Definition eq_indicator (tag t : string) : nat :=
  if string_dec tag t then 1%nat else 0%nat.

(** What a report line owes to the item of [tag_counts] it was built
    from and to the rating lists. *)
Definition line_for (ratings : PyDict.t (list float)) (item : string * Z)
    (line : tag_line) : Prop :=
  exists stats,
    line = TagLine (fst item) (snd item) stats
    /\ stats_of (get_default (PyDict.get (fst item) ratings) []) stats.

(** The binary64 form of the integer [m] (or [-m] when [s] is set) when
    it has at most 53 binary digits: the mantissa shifted up to 53
    digits, with the exponent that pays for the shift. *)
Definition canon (s : bool) (m : positive) : float :=
  let d := digits2_pos m in
  match (Zpos d - 53)%Z with
  | Zneg k => S754_finite s (Pos.iter xO m k) (Zpos d - 53)
  | _ => S754_finite s m 0
  end.

Definition float_of_small (z : Z) : float :=
  match z with
  | Z0 => S754_zero false
  | Zpos m => canon false m
  | Zneg m => canon true m
  end.

(** Every rating of the records lies where binary64 holds integers
    exactly. *)
Definition ratings_in_range (records : list SolvedRecord) : Prop :=
  forall r z, In r records -> rec_rating r = Some z -> Z.abs z < 2 ^ 53.

(** The integer ratings the tag [t] collects: the rating of each rated
    record, once per occurrence of [t], in iteration order. *)
Definition expected_int_ratings (t : string) (records : list SolvedRecord)
  : list Z :=
  flat_map (fun r => match rec_rating r with
                     | Some z => repeat z (tag_occurrences t r)
                     | None => []
                     end) records.

(** The statistics of a line, read on the integer ratings: the least
    one, the greatest one, and the rounded mean. *)
Definition int_stats_of (zs : list Z) (stats : option (Z * Z * float))
  : Prop :=
  match zs with
  | [] => stats = None
  | _ :: _ =>
      exists zmn zmx,
        stats = Some (zmn, zmx, py_round1 (py_mean (map float_of_small zs)))
        /\ In zmn zs /\ (forall z, In z zs -> zmn <= z)
        /\ In zmx zs /\ (forall z, In z zs -> z <= zmx)
  end.

(** ** Sample sources *)

Definition ok_envelope (page : list Submission) : envelope :=
  mkEnvelope (Some "OK") None (Some page).

(** A history of two pages: [scenario_stream], then one older accepted
    submission. *)
Definition two_page_http (n : nat) (handle : string) (_from count : Z)
  : result envelope :=
  match n with
  | O => Return (ok_envelope scenario_stream)
  | S O =>
      Return (ok_envelope
                [ mkSubmission (Some 10) (Some "OK")
                    (Some (mkProblem (Some 3) (Some "C") None None None)) ])
  | _ => Return (ok_envelope [])
  end.

(** A history that never ends: every page holds one submission. *)
Definition endless_http (n : nat) (handle : string) (_from count : Z)
  : result envelope :=
  Return (ok_envelope
            [ mkSubmission (Some 100) (Some "WRONG_ANSWER")
                (Some (mkProblem (Some 1) (Some "A") None None None)) ]).

(** An accepted submission without [creationTimeSeconds], alone on the
    first page of its history. *)
Definition untimed : Submission :=
  mkSubmission None (Some "OK")
    (Some (mkProblem (Some 7) (Some "B") (Some "Old") (Some ["dp"]) (Some 900))).

Definition untimed_http (n : nat) (handle : string) (_from count : Z)
  : result envelope :=
  match n with
  | O => Return (ok_envelope [untimed])
  | _ => Return (ok_envelope [])
  end.

Definition sample_repr (j : envelope) : string := "{...}".

Definition at_second (sec : Z) : datetime :=
  mkDatetime 1970 1 1 0 (sec / 60) (sec mod 60) 0 utc.

(** A solved map with a rating no [float] can hold. *)
Definition huge_rating_map : PyDict.t SolvedRecord :=
  [ ("1-A", (50, ["dp"; "math"], "Big", Some (2 ^ 1024)));
    ("2-B", (70, ["dp"], "Plain", Some 1200)) ].

(** ** Further notions for the fetcher *)

(** The page a call returned; nothing when it raised. *)
Definition call_page (c : api_call) : list Submission :=
  match call_response c with
  | Return page => page
  | Raise _ => []
  end.

(** The submissions of the page of a call that lie in the window. *)
Definition call_yield (from_ts to_ts : option Z) (c : api_call)
  : list Submission :=
  filter (in_window from_ts to_ts) (call_page c).

(** [ts] respects the two optional bounds. *)
Definition within_bounds (from_ts to_ts : option Z) (ts : Z) : Prop :=
  (forall f, from_ts = Some f -> f <= ts)
  /\ (forall t, to_ts = Some t -> ts <= t).

(** The two bounds the generator computes at lines 58-59. *)
Definition window_ts (dt_from dt_to : option datetime)
  : option Z * option Z :=
  (option_map int_timestamp dt_from, option_map int_timestamp dt_to).

(** The check of line 55. *)
Definition invalid_range (dt_from dt_to : option datetime) : bool :=
  match dt_from, dt_to with
  | Some f, Some t => datetime_gtb f t
  | _, _ => false
  end.

(** A history whose second request times out. *)
Definition flaky_http (n : nat) (handle : string) (_from count : Z)
  : result envelope :=
  match n with
  | O => Return (ok_envelope scenario_stream)
  | _ => Raise (RequestException "Read timed out.")
  end.

(** The service refuses the handle. *)
Definition failed_http (n : nat) (handle : string) (_from count : Z)
  : result envelope :=
  Return (mkEnvelope (Some "FAILED")
                     (Some "handle: User with handle x not found") None).

(** ** Further notions for the reducer *)

(** The entry two partial results leave for a key: the earlier one, and
    the left one when both carry the same timestamp. *)
Definition merge_entry (a b : option SolvedRecord) : option SolvedRecord :=
  match a, b with
  | Some r1, Some r2 => if rec_ts r2 <? rec_ts r1 then Some r2 else Some r1
  | Some r1, None => Some r1
  | None, o => o
  end.

(** The items of [l] in the order of their first occurrence. *)
Definition first_occurrences (l : list string) : list string :=
  rev (nodup string_dec (rev l)).

(** The keys of the accepted submissions of a stream, in stream order. *)
Definition accepted_keys (l : list Submission) : list string :=
  map submission_key (filter verdict_ok l).

(** ** Further notions for the aggregator *)

(** [sum(d.values())] *)
Definition dict_sum (d : PyDict.t Z) : Z :=
  fold_right (fun kv acc => snd kv + acc) 0 d.

(** [sum(len(tags) for each record)] *)
Definition total_tags (records : list SolvedRecord) : Z :=
  fold_right (fun r acc => Z.of_nat (List.length (rec_tags r)) + acc) 0
             records.

(** The records whose rating [float] accepts. *)
Definition rated (r : SolvedRecord) : bool :=
  match rating_value (rec_rating r) with
  | Some _ => true
  | None => false
  end.

(** ** The calendar, for the properties of dates *)

(** A date of the proleptic Gregorian calendar that [datetime] accepts. *)
Definition valid_date (y m d : Z) : Prop :=
  1 <= y <= 9999 /\ 1 <= m <= 12 /\ 1 <= d <= days_in_month y m.

(** The month and day of day number [n] (from 0) of a year: the second
    half of [ord2ymd]. *)
Definition month_day (leapyear : bool) (n : Z) : Z * Z :=
  let m := Z.shiftr (n + 50) 5 in
  let preceding :=
    nth (Z.to_nat m) days_before_month_table 0
    + (if (2 <? m) && leapyear then 1 else 0) in
  if n <? preceding
  then
    let m' := m - 1 in
    let preceding' :=
      preceding
      - (nth (Z.to_nat m') [0; 31; 28; 31; 30; 31; 30; 31; 31; 30; 31; 30; 31] 0
         + (if (m' =? 2) && leapyear then 1 else 0)) in
    (m', n - preceding' + 1)
  else (m, n - preceding + 1).

(** [month_day] lands on a day of a month, the one that is day [n] of
    the year. *)
Definition month_day_ok (leapyear : bool) (n : nat) : bool :=
  let '(m, d) := month_day leapyear (Z.of_nat n) in
  (1 <=? m) && (m <=? 12) && (1 <=? d)
  && (d <=? (if (m =? 2) && leapyear then 29
             else nth (Z.to_nat m)
                      [0; 31; 28; 31; 30; 31; 30; 31; 31; 30; 31; 30; 31] 0))
  && (nth (Z.to_nat m) days_before_month_table 0
      + (if (2 <? m) && leapyear then 1 else 0) + d =? Z.of_nat n + 1).

(** Day [d] of month [m] lies within the year, and [month_day] finds it
    again. *)
Definition year_day_ok (leapyear : bool) (md : nat * nat) : bool :=
  let m := Z.of_nat (fst md) in
  let d := Z.of_nat (snd md) in
  let dim :=
    if (m =? 2) && leapyear then 29
    else nth (Z.to_nat m) [0; 31; 28; 31; 30; 31; 30; 31; 31; 30; 31; 30; 31] 0
  in
  let yd :=
    nth (Z.to_nat m) days_before_month_table 0
    + (if (2 <? m) && leapyear then 1 else 0) + d in
  negb (d <=? dim)
  || ((yd <=? 365 + (if leapyear then 1 else 0))
      && (let '(m', d') := month_day leapyear (yd - 1) in
          (m' =? m) && (d' =? d))).

Definition month_days : list (nat * nat) :=
  list_prod (seq 1 12) (seq 1 31).
(** ** Dates as text, [date] arithmetic and [fromtimestamp] *)

Definition digit_char (d : Z) : ascii := ascii_of_nat (Z.to_nat (48 + d)).

(** [%m] and [%d]: two digits. *)
Definition pad2 (n : Z) : string :=
  String (digit_char (n / 10 mod 10)) (String (digit_char (n mod 10)) "").

(** [%Y] for the years 1000 to 9999: four digits (earlier years print
    with fewer digits on some platforms). *)
Definition pad4 (n : Z) : string :=
  String (digit_char (n / 1000 mod 10))
    (String (digit_char (n / 100 mod 10)) (pad2 n)).

(** [strftime("%m-%d")] *)
Definition strftime_md (m d : Z) : string :=
  (pad2 m ++ "-" ++ pad2 d)%string.

(** [strftime("%Y-%m-%d")] *)
Definition strftime_ymd (y m d : Z) : string :=
  (pad4 y ++ "-" ++ strftime_md m d)%string.

(** [date(y, m, d) - timedelta(days=n)] *)
Definition date_sub_days (y m d n : Z) : result (Z * Z * Z) :=
  let o := ymd2ord y m d - n in
  if (0 <? o) && (o <=? MAXORDINAL)
  then Return (ord2ymd o)
  else Raise (OverflowError "date value out of range").

(** [CF.set_last_30] (source lines 198-202): the texts it puts into the
    From and the To field; [now] is the clock read at line 199, a UTC
    value whose [date()] is its year, month and day. *)
Definition set_last_30 (now : datetime) : result (string * string) :=
  last30 <- date_sub_days (year now) (month now) (day now) 30 ;;
  let '(y30, m30, d30) := last30 in
  Return (strftime_ymd y30 m30 d30,
          strftime_ymd (year now) (month now) (day now)).

(** [datetime.fromtimestamp(t, tz=timezone.utc)] for an integer [t], as
    on POSIX platforms:
    the days and seconds are split with floor division, and a day
    outside the years 1 to 9999 is refused (the kind of exception
    differs between platforms; every caller catches [Exception]). *)
Definition fromtimestamp_utc (t : Z) : result datetime :=
  let days := t / 86400 in
  let secs := t mod 86400 in
  let o := EPOCH_ORDINAL + days in
  if (1 <=? o) && (o <=? MAXORDINAL)
  then
    let '(y, m, d) := ord2ymd o in
    Return (mkDatetime y m d (secs / 3600) ((secs mod 3600) / 60)
                       (secs mod 60) 0 utc)
  else Raise (ValueError "year is out of range").

(** Source lines 40-41; [ts] is the integer the reducer stored. *)
Definition friendly_md (ts : Z) : result string :=
  dt <- fromtimestamp_utc ts ;;
  Return (strftime_md (month dt) (day dt)).

(** The text of a month and a day reads back as that month and day. *)
Definition month_day_text_ok (md : nat * nat) : bool :=
  let m := Z.of_nat (fst md) in
  let d := Z.of_nat (snd md) in
  let t := strftime_md m d in
  match match_month_day t with
  | Some (m', d', rest) => (m' =? m) && (d' =? d) && String.eqb rest ""
  | None => false
  end
  && (len t =? 5) && (count_char "-" t =? 1)
  && String.eqb (rstrip t) t && negb (String.eqb t "").

(** The timestamps [fromtimestamp] accepts: the seconds of the years 1
    to 9999. *)
Definition MIN_TIMESTAMP : Z := (1 - EPOCH_ORDINAL) * 86400.
Definition MAX_TIMESTAMP : Z := (MAXORDINAL + 1 - EPOCH_ORDINAL) * 86400 - 1.

(** The moment [d] at [secs] seconds after midnight UTC of the date. *)
Definition timestamp_of (y m d secs : Z) : Z :=
  (ymd2ord y m d - EPOCH_ORDINAL) * 86400 + secs.
(** ** Handles (source lines 13-19) *)

(** [s.startswith(c)] and [s.endswith(c)] for a one-character [c]. *)
Definition startswith (c : ascii) (s : string) : bool :=
  match s with
  | String c' _ => Ascii.eqb c' c
  | EmptyString => false
  end.

Fixpoint endswith (c : ascii) (s : string) : bool :=
  match s with
  | EmptyString => false
  | String c' EmptyString => Ascii.eqb c' c
  | String _ s' => endswith c s'
  end.

(** [s[:-1]] *)
Fixpoint drop_last (s : string) : string :=
  match s with
  | EmptyString => EmptyString
  | String _ EmptyString => EmptyString
  | String c s' => String c (drop_last s')
  end.

(** [s[1:-1]] *)
Definition slice_inner (s : string) : string :=
  match s with
  | String _ s' => drop_last s'
  | EmptyString => EmptyString
  end.

(** [raw] is [None] or a string; [raw or ""] reads both [None] and the
    empty string as the empty string. *)
Definition normalize_handle (raw : option string) : string :=
  let h := strip (get_default raw "") in
  if String.eqb h "" then ""
  else if startswith "<" h && endswith ">" h then strip (slice_inner h)
  else h.
(** ** [CF.start_fetch] (source lines 204-235) *)

(** [str(e)] *)
Definition exn_str (e : exn) : string :=
  match e with
  | ValueError msg => msg
  | RuntimeError msg => msg
  | NameError name => ("name '" ++ name ++ "' is not defined")%string
  | OverflowError msg => msg
  | RequestException detail => detail
  end.

(** What pressing the Fetch button leads to.  The module binds
    [requests] by a plain [import], so the test at line 205 is never
    met. *)
Inductive start_outcome : Type :=
| NoHandle
| DateParseError (msg : string)
| Uncaught (e : exn)
| Started (handle : string) (dt_from dt_to : datetime).

Section StartFetch.

Variable fromisoformat : string -> result datetime.

(** [handle_var], [from_var] and [to_var] are the texts of the entry
    fields; [now_to] and [now_from] the clock as read at lines 222 and
    224.  [NoHandle] is the warning of line 211, [DateParseError] the
    error box of line 218 with [str(e)], [Started] the thread of line
    234 with its arguments; the subtraction of line 224 stands outside
    the [try], so what it raises leaves the method. *)
Definition start_fetch (handle_var from_var to_var : string)
    (now_to now_from : datetime) : start_outcome :=
  let handle := normalize_handle (Some handle_var) in
  if String.eqb handle "" then NoHandle
  else
    match (dt_from <- parse_date_maybe fromisoformat (Some from_var) ;;
           dt_to <- parse_date_maybe fromisoformat (Some to_var) ;;
           Return (dt_from, dt_to)) with
    | Raise e => DateParseError (exn_str e)
    | Return (parsed_from, parsed_to) =>
        let dt_to := default_to parsed_to now_to in
        match default_from parsed_from now_from with
        | Raise e => Uncaught e
        | Return dt_from => Started handle dt_from (widen_to dt_to to_var)
        end
    end.

End StartFetch.

(** The fields of [dt] are a date and a time of day. *)
Definition well_formed (dt : datetime) : Prop :=
  valid_date (year dt) (month dt) (day dt)
  /\ 0 <= hour dt < 24 /\ 0 <= minute dt < 60 /\ 0 <= second dt < 60
  /\ 0 <= microsecond dt < 1000000.

Definition DATE_ERROR : string := "Date must be YYYY-MM-DD or ISO datetime".

(** A reader that knows one date-time with an offset:
    [2024-03-10T01:30:00+02:00]. *)
Definition offset_fromisoformat (s : string) : result datetime :=
  if String.eqb s "2024-03-10T01:30:00+02:00"
  then Return (mkDatetime 2024 3 10 1 30 0 0 (Some 7200000000))
  else Raise (ValueError "Invalid isoformat string").
(** ** The solved problems, newest first (source lines 293-298 and
       355-375) *)

(** The key function [lambda x: -x[1][0]] of lines 295 and 370,
    compared. *)
Definition newest_first_ltb (x y : string * SolvedRecord) : bool :=
  - rec_ts (snd x) <? - rec_ts (snd y).

(** [sorted(solved_map.items(), key=lambda x: -x[1][0])] *)
Definition newest_first (solved_map : PyDict.t SolvedRecord)
  : list (string * SolvedRecord) :=
  sorted newest_first_ltb (PyDict.items solved_map).

(** [sep.join(l)] *)
Fixpoint join (sep : string) (l : list string) : string :=
  match l with
  | [] => ""
  | [x] => x
  | x :: rest => (x ++ sep ++ join sep rest)%string
  end.

(** [rating if rating is not None else ""], as text. *)
Definition rating_text (rating : option Z) : string :=
  match rating with
  | Some r => str_of_int r
  | None => ""
  end.

Definition TAB : string := String (ascii_of_nat 9) "".

(** Lines 296-298: the line of the problem list and the line of the
    detail list for one solved problem. *)
Definition listing_lines (item : string * SolvedRecord)
  : result (string * string) :=
  let '(key, (ts, tags, name, rating)) := item in
  md <- friendly_md ts ;;
  Return ((key ++ " | " ++ md ++ " | " ++ name ++ " | tags: "
               ++ join "," tags)%string,
          (key ++ TAB ++ md ++ TAB ++ rating_text rating ++ TAB
               ++ join "," tags)%string).

(** Lines 293-298 of [CF._fetch_thread]; a [Raise] ends the [try] block
    of the thread in its [except] branch. *)
Definition problem_listing (solved_map : PyDict.t SolvedRecord)
  : result (list (string * string)) :=
  map_result listing_lines (newest_first solved_map).

Definition csv_header : list string :=
  ["key"; "first_ac_mmdd"; "name"; "rating"; "tags"].

(** Lines 371-372: the fields of one row. *)
Definition csv_row (item : string * SolvedRecord) : result (list string) :=
  let '(key, (ts, tags, name, rating)) := item in
  md <- friendly_md ts ;;
  Return [key; md; name; rating_text rating; join ";" tags].

(** The loop of lines 370-372: the rows handed to the writer, in order,
    and the exception that ended the loop, if any. *)
Fixpoint write_rows (items : list (string * SolvedRecord))
  : list (list string) * option exn :=
  match items with
  | [] => ([], None)
  | item :: rest =>
      match csv_row item with
      | Raise e => ([], Some e)
      | Return row =>
          let '(rows, e) := write_rows rest in (row :: rows, e)
      end
  end.

(** What [save_csv] does with the solved map of the last fetch and the
    name the file dialog returned (empty when it was cancelled): the
    rows written to the file, header first.  Opening and writing the
    file are taken to succeed. *)
Inductive save_outcome : Type :=
| NothingToSave
| SaveCancelled
| Saved (fname : string) (rows : list (list string))
| SaveError (fname : string) (rows : list (list string)) (e : exn).

Definition save_csv (solved_map : PyDict.t SolvedRecord) (fname : string)
  : save_outcome :=
  match solved_map with
  | [] => NothingToSave
  | _ :: _ =>
      if String.eqb fname "" then SaveCancelled
      else
        let '(rows, e) := write_rows (newest_first solved_map) in
        match e with
        | None => Saved fname (csv_header :: rows)
        | Some e => SaveError fname (csv_header :: rows) e
        end
  end.

Definition in_timestamp_range (ts : Z) : bool :=
  (MIN_TIMESTAMP <=? ts) && (ts <=? MAX_TIMESTAMP).

(** [a] is not older than [b]. *)
Definition newer_or_same (a b : string * SolvedRecord) : Prop :=
  rec_ts (snd b) <= rec_ts (snd a).

Definition at_ts (t : Z) (item : string * SolvedRecord) : bool :=
  rec_ts (snd item) =? t.

(** The row of an item: its key, the day [friendly_md] shows, its name,
    its rating and its tags. *)
Definition row_of (item : string * SolvedRecord) (row : list string) : Prop :=
  exists md,
    friendly_md (rec_ts (snd item)) = Return md
    /\ row = [fst item; md; rec_name (snd item);
              rating_text (rec_rating (snd item));
              join ";" (rec_tags (snd item))].

(** A solved map with two problems first accepted in the same second
    and a later one. *)
Definition export_map : PyDict.t SolvedRecord :=
  [ ("1-A", (1709251199, ["dp"; "math"], "First", Some 1200));
    ("2-B", (1709251200, [], "Second", None));
    ("3-C", (1709251199, ["greedy"], "Third", Some 800)) ].

(** A solved map with a timestamp beyond the year 9999. *)
Definition far_future_map : PyDict.t SolvedRecord :=
  [ ("1-A", (1709251199, ["dp"], "First", Some 1200));
    ("2-B", (253402300800, [], "Late", None)) ].

(** ** The fetch thread with its problem list (source lines 241-298) *)

Section FetchThreadReport.

Variable http_user_status : nat -> string -> Z -> Z -> result envelope.
Variable repr_envelope : envelope -> string.

(** [_fetch_thread] up to line 298: what [summarize] computes, and then
    the problem list over the solved map. *)
Definition fetch_thread_report (handle : string) (dt_from dt_to : datetime)
  : fetch_run * result (thread_result * list (string * string)) :=
  let '(run, res) :=
    _fetch_thread http_user_status repr_envelope handle dt_from dt_to in
  (run,
   r <- res ;;
   lines <- problem_listing (res_solved_map r) ;;
   Return (r, lines)).

End FetchThreadReport.

(** ** The value of a float, and rounding *)

(** The exact value of a finite float as a fraction [float_num / float_den]
    with a positive denominator, and the weight of the last place of its
    mantissa over the same denominator. *)
Definition float_num (x : float) : Z :=
  match x with
  | S754_finite s m e => cond_Zopp s (Zpos m) * 2 ^ Z.max 0 e
  | _ => 0
  end.

Definition float_den (x : float) : Z :=
  match x with
  | S754_finite _ _ e => 2 ^ Z.max 0 (- e)
  | _ => 1
  end.

Definition float_ulp (x : float) : Z :=
  match x with
  | S754_finite _ _ e => 2 ^ Z.max 0 e
  | _ => 0
  end.

(** [x] is a binary64 number in canonical form that lies within half a
    unit in its last place of the fraction [n / d] ([d > 0]); a zero
    stands for the fraction zero only. *)
Definition rounds_to (n d : Z) (x : float) : Prop :=
  is_finite x = true
  /\ valid_binary prec emax x = true
  /\ 2 * Z.abs (float_num x * d - n * float_den x) <= float_ulp x * d.

(** The record [mrs] of a shifted mantissa places the fraction [N / D]:
    its mantissa is the integer part, the round bit tells whether the
    rest reaches one half, the sticky bit whether anything lies beside
    zero and one half. *)
Definition locates (N D : Z) (mrs : shr_record) : Prop :=
  0 < D /\ 0 <= N
  /\ shr_m mrs = N / D
  /\ shr_r mrs = (D <=? 2 * (N mod D))
  /\ shr_s mrs = negb ((N mod D =? 0) || (2 * (N mod D) =? D)).

(** The finite float [x] holds the integer [z]: its mantissa is
    [|z| * 2^(-e)] for its exponent [e <= 0]. *)
Definition holds_int (z : Z) (x : float) : Prop :=
  match z with
  | Z0 => x = S754_zero false
  | Zpos p =>
      exists m e, x = S754_finite false m e /\ e <= 0
                  /\ Zpos m = Zpos p * 2 ^ (- e)
  | Zneg p =>
      exists m e, x = S754_finite true m e /\ e <= 0
                  /\ Zpos m = Zpos p * 2 ^ (- e)
  end.

(** The last microsecond of the year 9999, and a history with one
    accepted submission in the first second of the year 10000. *)
Definition last_moment : datetime :=
  mkDatetime 9999 12 31 23 59 59 999999 utc.

Definition year_10000_http (n : nat) (handle : string) (_from count : Z)
  : result envelope :=
  match n with
  | O =>
      Return (ok_envelope
                [ mkSubmission (Some 253402300800) (Some "OK")
                    (Some (mkProblem (Some 1) (Some "A") None None None)) ])
  | _ => Return (ok_envelope [])
  end.

(** ** The mean of integer ratings *)

Definition int_sum (zs : list Z) : Z := fold_right Z.add 0 zs.

Definition abs_sum (zs : list Z) : Z :=
  fold_right (fun z acc => Z.abs z + acc) 0 zs.

(** The ratings are few and small enough for binary64 to add them
    without rounding, in any order: their magnitudes sum to less than
    [2^53], and so does their number. *)
Definition sum_fits (zs : list Z) : Prop :=
  abs_sum zs < 2 ^ 53 /\ Z.of_nat (List.length zs) < 2 ^ 53.


(** A solved map whose ratings binary64 cannot add exactly: the sum in
    map order is [2^53], the sum in the reverse order [2^53 + 2]. *)
Definition inexact_sum_map : PyDict.t SolvedRecord :=
  [ ("1-A", (10, ["dp"], "A", Some (2 ^ 53 - 1)));
    ("2-B", (20, ["dp"], "B", Some 1));
    ("3-C", (30, ["dp"], "C", Some 1));
    ("4-D", (40, ["dp"], "D", Some 1)) ].

(* ================================================================== *)
(** * Part II: lemmas and theorems                                     *)
(* ================================================================== *)

(** ** Dictionaries *)

Module PyDictFacts.
Import PyDict.

Lemma get_set_same {V : Type} (k : string) (v : V) (d : t V) :
  get k (set k v d) = Some v.
Proof.
  induction d as [|[k' v'] d IH]; simpl.
  - now rewrite String.eqb_refl.
  - destruct (String.eqb k' k) eqn:E; simpl; rewrite E; auto.
Qed.

Lemma get_set_other {V : Type} (k k0 : string) (v : V) (d : t V) :
  k <> k0 -> get k0 (set k v d) = get k0 d.
Proof.
  intros Hne. induction d as [|[k' v'] d IH]; simpl.
  - destruct (String.eqb_spec k k0); congruence.
  - destruct (String.eqb_spec k' k) as [->|Hk]; simpl.
    + destruct (String.eqb_spec k k0); congruence.
    + now rewrite IH.
Qed.

Lemma contains_get {V : Type} (k : string) (d : t V) :
  contains k d = true <-> exists v, get k d = Some v.
Proof.
  unfold contains. destruct (get k d) as [v|].
  - split; eauto.
  - split; [discriminate | intros [v Hv]; discriminate].
Qed.

End PyDictFacts.

(** ** The reducer *)

Section Reducer.

Import PyDict PyDictFacts.

Lemma collect_snoc (l : list Submission) (s : Submission) :
  collect_first_ac_per_problem (l ++ [s])
  = collect_step (collect_first_ac_per_problem l) s.
Proof.
  unfold collect_first_ac_per_problem. now rewrite fold_left_app.
Qed.

(** What one step does to the entry of a key. *)
Lemma collect_step_get (d : PyDict.t SolvedRecord) (s : Submission) (k : string) :
  get k (collect_step d s) =
    if verdict_ok s && String.eqb (submission_key s) k
    then match get k d with
         | None => Some (submission_record s)
         | Some r => if submission_ts s <? rec_ts r
                     then Some (submission_record s) else Some r
         end
    else get k d.
Proof.
  unfold collect_step.
  destruct (verdict_ok s); simpl; [|reflexivity].
  destruct (String.eqb_spec (submission_key s) k) as [->|Hne].
  - destruct (get k d) as [r|] eqn:E.
    + destruct (submission_ts s <? rec_ts r).
      * apply get_set_same.
      * exact E.
    + apply get_set_same.
  - destruct (get (submission_key s) d) as [r|].
    + destruct (submission_ts s <? rec_ts r); [|reflexivity].
      now apply get_set_other.
    + now apply get_set_other.
Qed.

Lemma rec_ts_submission_record (s : Submission) :
  rec_ts (submission_record s) = submission_ts s.
Proof. reflexivity. Qed.

(** A key is absent exactly when no accepted submission derives it. *)
Lemma collect_get_none (l : list Submission) (k : string) :
  get k (collect_first_ac_per_problem l) = None <->
  (forall s, In s l -> verdict_ok s = true -> submission_key s <> k).
Proof.
  induction l as [|s l IH] using rev_ind.
  - split; [intros _ s []|reflexivity].
  - rewrite collect_snoc, collect_step_get. split.
    + intros Hget s' Hin' Hok' Hk'.
      rewrite in_app_iff in Hin'. destruct Hin' as [Hin'|[<-|[]]].
      * destruct (verdict_ok s && String.eqb (submission_key s) k).
        -- destruct (get k (collect_first_ac_per_problem l)) as [r|];
             [destruct (_ <? _)|]; discriminate.
        -- now apply (proj1 IH Hget s').
      * rewrite Hok', Hk', String.eqb_refl in Hget. simpl in Hget.
        destruct (get k (collect_first_ac_per_problem l)) as [r|];
          [destruct (_ <? _)|]; discriminate.
    + intros Hall.
      destruct (verdict_ok s) eqn:Hok; simpl.
      * destruct (String.eqb_spec (submission_key s) k) as [Hk|Hk].
        -- exfalso. apply (Hall s); auto. rewrite in_app_iff. simpl. auto.
        -- apply IH. intros s' Hin'. apply Hall. rewrite in_app_iff. auto.
      * apply IH. intros s' Hin'. apply Hall. rewrite in_app_iff. auto.
Qed.

(** The stored record is the record of an accepted submission of the
    stream with that key, and no accepted submission with that key is
    earlier. *)
Lemma collect_get_some (l : list Submission) (k : string) (r : SolvedRecord) :
  get k (collect_first_ac_per_problem l) = Some r ->
  (exists s, In s l /\ verdict_ok s = true /\ submission_key s = k
             /\ submission_record s = r)
  /\ (forall s, In s l -> verdict_ok s = true -> submission_key s = k ->
                rec_ts r <= submission_ts s).
Proof.
  revert r. induction l as [|s l IH] using rev_ind; intros r.
  - discriminate.
  - rewrite collect_snoc, collect_step_get.
    assert (Hkeep : get k (collect_first_ac_per_problem l) = Some r ->
                    (verdict_ok s = true -> submission_key s = k ->
                     rec_ts r <= submission_ts s) ->
      (exists s0, In s0 (l ++ [s]) /\ verdict_ok s0 = true /\
                  submission_key s0 = k /\ submission_record s0 = r)
      /\ (forall s0, In s0 (l ++ [s]) -> verdict_ok s0 = true ->
                     submission_key s0 = k -> rec_ts r <= submission_ts s0)).
    { intros Hget Hs.
      destruct (IH r Hget) as [[s0 (Hin & Hok0 & Hk0 & Hr0)] Hmin]. split.
      - exists s0. rewrite in_app_iff. auto.
      - intros s' Hin'. rewrite in_app_iff in Hin'.
        destruct Hin' as [Hin'|[<-|[]]]; auto. }
    assert (Hnew : (forall s0, In s0 l -> verdict_ok s0 = true ->
                      submission_key s0 = k ->
                      submission_ts s <= submission_ts s0) ->
                   verdict_ok s = true -> submission_key s = k ->
      (exists s0, In s0 (l ++ [s]) /\ verdict_ok s0 = true /\
                  submission_key s0 = k /\
                  submission_record s0 = submission_record s)
      /\ (forall s0, In s0 (l ++ [s]) -> verdict_ok s0 = true ->
                     submission_key s0 = k ->
                     rec_ts (submission_record s) <= submission_ts s0)).
    { intros Hmin Hok Hk. split.
      - exists s. rewrite in_app_iff. simpl. auto.
      - intros s' Hin'. rewrite in_app_iff in Hin'.
        rewrite rec_ts_submission_record.
        destruct Hin' as [Hin'|[<-|[]]]; intros; [auto|lia]. }
    destruct (verdict_ok s) eqn:Hok; simpl.
    + destruct (String.eqb_spec (submission_key s) k) as [Hk|Hk].
      * destruct (get k (collect_first_ac_per_problem l)) as [r0|] eqn:E.
        -- destruct (IH r0 eq_refl) as [_ Hmin].
           destruct (Z.ltb_spec (submission_ts s) (rec_ts r0)) as [Hlt|Hge];
             intros [= <-].
           ++ apply Hnew; auto. intros s0 H1 H2 H3.
              specialize (Hmin s0 H1 H2 H3). lia.
           ++ apply Hkeep; auto.
        -- intros [= <-]. apply Hnew; auto. intros s0 H1 H2 H3.
           exfalso. now apply (proj1 (collect_get_none l k) E s0).
      * intros Hget. apply Hkeep; auto. congruence.
    + intros Hget. apply Hkeep; auto. congruence.
Qed.

End Reducer.

(** C1.  For every finite stream, the returned mapping has a key exactly
    when some submission with verdict OK derives that key; the timestamp
    stored under the key is the minimum [creationTimeSeconds] over the
    OK submissions deriving it; and the submissions whose verdict is not
    OK contribute nothing (dropping them leaves the result unchanged). *)
Theorem collect_first_ac_per_problem_spec (l : list Submission) (k : string) :
  (PyDict.contains k (collect_first_ac_per_problem l) = true <->
   exists s, In s l /\ verdict_ok s = true /\ submission_key s = k)
  /\ (forall r, PyDict.get k (collect_first_ac_per_problem l) = Some r ->
                min_accepted_ts l k (rec_ts r))
  /\ collect_first_ac_per_problem l
     = collect_first_ac_per_problem (filter verdict_ok l).
Proof.
  split; [|split].
  - rewrite PyDictFacts.contains_get. split.
    + intros [r Hr]. apply collect_get_some in Hr.
      destruct Hr as [[s (Hin & Hok & Hk & _)] _]. eauto.
    + intros (s & Hin & Hok & Hk).
      destruct (PyDict.get k (collect_first_ac_per_problem l)) as [r|] eqn:E;
        [eauto|].
      exfalso. now apply (proj1 (collect_get_none l k) E s).
  - intros r Hr. apply collect_get_some in Hr.
    destruct Hr as [[s (Hin & Hok & Hk & Hrec)] Hmin]. split; [|exact Hmin].
    exists s. repeat split; auto. now rewrite <- Hrec.
  - unfold collect_first_ac_per_problem. generalize (@PyDict.empty SolvedRecord).
    induction l as [|s l IH]; intros d; simpl; [reflexivity|].
    destruct (verdict_ok s) eqn:Hok; simpl.
    + apply IH.
    + unfold collect_step at 2. rewrite Hok. simpl. apply IH.
Qed.


(** The solved map of the specification's scenario: one entry, [1-A],
    with the earlier of the two accepted timestamps. *)
Lemma scenario_solved_map :
  collect_first_ac_per_problem scenario_stream
  = [("1-A", (50, ["dp"], "", Some 800))].
Proof. reflexivity. Qed.





(** ** The date window *)

Section DateWindowFacts.

Variable fromisoformat : string -> result datetime.

(** What [strptime] returns is a naive midnight. *)
Lemma strptime_ymd_midnight (s : string) (d : datetime) :
  strptime_ymd s = Return d ->
  hour d = 0 /\ minute d = 0 /\ second d = 0 /\ microsecond d = 0
  /\ tzinfo d = None.
Proof.
  unfold strptime_ymd.
  destruct (match_ymd s) as [[[[y m] dd] rest]|]; [|discriminate].
  destruct (negb (String.eqb rest "")); [discriminate|].
  destruct ((1 <=? y) && (1 <=? dd) && (dd <=? days_in_month y m));
    [|discriminate].
  intros [= <-]. simpl. auto.
Qed.

Lemma len_empty_string : len "" = 0.
Proof. reflexivity. Qed.

(** A bare date parses to its day at midnight UTC. *)
Lemma parse_date_maybe_bare (raw : string) (d : datetime) :
  bare_date (strip raw) d ->
  parse_date_maybe fromisoformat (Some raw)
  = Return (Some (replace_tzinfo d utc)).
Proof.
  intros (Hlen & Hcnt & Hparse). unfold parse_date_maybe.
  destruct (String.eqb_spec (strip raw) "") as [E|E].
  - rewrite E in Hlen. discriminate Hlen.
  - rewrite Hlen, Hcnt, Hparse. reflexivity.
Qed.

Lemma widen_to_bare (raw : string) (d : datetime) :
  bare_date (strip raw) d ->
  widen_to (replace_tzinfo d utc) raw
  = mkDatetime (year d) (month d) (day d) 23 59 59 0 utc.
Proof.
  intros (Hlen & _ & Hparse).
  apply strptime_ymd_midnight in Hparse.
  destruct Hparse as (Hh & Hm & Hs & Hus & _).
  unfold widen_to, replace_tzinfo, replace_hms. simpl.
  rewrite Hh, Hm, Hs, Hus, Hlen. reflexivity.
Qed.

Lemma widen_to_unadjusted (raw : string) (p : datetime) :
  len (strip raw) <> 10 \/ hour p <> 0 \/ minute p <> 0 \/ second p <> 0 ->
  widen_to p raw = p.
Proof.
  intros H. unfold widen_to.
  destruct (Z.eqb_spec (hour p) 0); simpl; auto.
  destruct (Z.eqb_spec (minute p) 0); simpl; auto.
  destruct (Z.eqb_spec (second p) 0); simpl; auto.
  destruct (Z.eqb_spec (len (strip raw)) 10); simpl; auto.
  exfalso. destruct H as [H|[H|[H|H]]]; auto.
Qed.

Lemma start_fetch_window_to (from_var to_var : string)
    (now_to now_from p : datetime) :
  parse_date_maybe fromisoformat (Some to_var) = Return (Some p) ->
  start_fetch_window fromisoformat from_var to_var now_to now_from
  = (dt_from <- window_from fromisoformat from_var now_from ;;
     Return (dt_from, widen_to p to_var)).
Proof.
  intros Hto. unfold start_fetch_window, window_from.
  rewrite Hto.
  destruct (parse_date_maybe fromisoformat (Some from_var)) as [pf|e];
    [|reflexivity].
  cbn [bind default_to get_default].
  destruct (default_from pf now_from); reflexivity.
Qed.

End DateWindowFacts.



(** ** Scanning a page *)

Section PageScan.

Variable from_ts to_ts : option Z.

Lemma scan_step_out (o : option Z) (out : list Submission) (s : Submission) :
  snd (scan_step from_ts to_ts (o, out) s)
  = out ++ (if in_window from_ts to_ts s then [s] else []).
Proof.
  unfold scan_step, in_window.
  destruct (below_bound from_ts (submission_ts s)); simpl.
  - now rewrite app_nil_r.
  - destruct (above_bound to_ts (submission_ts s)); simpl; auto.
    now rewrite app_nil_r.
Qed.

Lemma scan_step_oldest (o : option Z) (out : list Submission) (s : Submission) :
  fst (scan_step from_ts to_ts (o, out) s)
  = Some (match o with
          | None => submission_ts s
          | Some x => Z.min x (submission_ts s)
          end).
Proof.
  unfold scan_step.
  assert (H : match o with
              | None => Some (submission_ts s)
              | Some x => if submission_ts s <? x then Some (submission_ts s)
                          else Some x
              end
              = Some (match o with
                      | None => submission_ts s
                      | Some x => Z.min x (submission_ts s)
                      end)).
  { destruct o as [x|]; auto.
    destruct (Z.ltb_spec (submission_ts s) x); f_equal; lia. }
  rewrite H.
  destruct (below_bound from_ts (submission_ts s)); auto.
  destruct (above_bound to_ts (submission_ts s)); auto.
Qed.

Lemma scan_fold (page : list Submission) (x : Z) (out : list Submission) :
  fold_left (scan_step from_ts to_ts) page (Some x, out)
  = (Some (fold_left (fun o s => Z.min o (submission_ts s)) page x),
     out ++ filter (in_window from_ts to_ts) page).
Proof.
  revert x out. induction page as [|s page IH]; intros x out;
    cbn [fold_left filter].
  - now rewrite app_nil_r.
  - pose proof (scan_step_out (Some x) out s) as Ho.
    pose proof (scan_step_oldest (Some x) out s) as Hm.
    destruct (scan_step from_ts to_ts (Some x, out) s) as [o' out'].
    simpl in Ho, Hm. subst o' out'. rewrite IH. f_equal.
    rewrite <- app_assoc. f_equal.
    destruct (in_window from_ts to_ts s); reflexivity.
Qed.

(** The page loop yields the submissions inside the window, in page
    order, and tracks the least timestamp of the page. *)
Lemma scan_page_spec (page : list Submission) :
  scan_page from_ts to_ts page
  = (page_oldest page, filter (in_window from_ts to_ts) page).
Proof.
  unfold scan_page, page_oldest. destruct page as [|s page]; [reflexivity|].
  cbn [fold_left].
  pose proof (scan_step_out None [] s) as Ho.
  pose proof (scan_step_oldest None [] s) as Hm.
  destruct (scan_step from_ts to_ts (None, []) s) as [o' out'].
  simpl in Ho, Hm. subst o' out'. rewrite scan_fold.
  cbn [filter]. destruct (in_window from_ts to_ts s); reflexivity.
Qed.

End PageScan.

Lemma fold_min_le (page : list Submission) (x : Z) :
  fold_left (fun o s => Z.min o (submission_ts s)) page x <= x
  /\ (forall s, In s page ->
        fold_left (fun o s => Z.min o (submission_ts s)) page x
        <= submission_ts s).
Proof.
  revert x. induction page as [|a page IH]; intros x; simpl.
  - split; [lia|intros s []].
  - destruct (IH (Z.min x (submission_ts a))) as [H1 H2]. split; [lia|].
    intros s [<-|Hin]; [lia|auto].
Qed.

Lemma fold_min_attained (page : list Submission) (x : Z) :
  fold_left (fun o s => Z.min o (submission_ts s)) page x = x
  \/ exists s, In s page /\
       fold_left (fun o s => Z.min o (submission_ts s)) page x
       = submission_ts s.
Proof.
  revert x. induction page as [|a page IH]; intros x; simpl; [auto|].
  destruct (IH (Z.min x (submission_ts a))) as [H|(s & Hin & H)].
  - rewrite H. destruct (Z.min_spec x (submission_ts a)) as [[_ ->]|[_ ->]];
      [auto|]. right. exists a. auto.
  - right. exists s. auto.
Qed.

(** [page_oldest] is the minimum of the page. *)
Lemma page_oldest_spec (page : list Submission) (m : Z) :
  page_min page m <-> page_oldest page = Some m.
Proof.
  unfold page_min. destruct page as [|a page]; simpl.
  - split; [intros [(s & [] & _) _]|discriminate].
  - destruct (fold_min_le page (submission_ts a)) as [Hle Hall].
    destruct (fold_min_attained page (submission_ts a)) as [Hat|(s & Hin & Hat)].
    + split.
      * intros [(s & Hs & Hm) Hmin]. f_equal.
        pose proof (Hmin a (or_introl eq_refl)).
        destruct Hs as [<-|Hs]; [lia|]. specialize (Hall s Hs). lia.
      * intros [= <-]. split.
        -- exists a. split; auto.
        -- intros s [<-|Hs]; [lia|auto].
    + split.
      * intros [(s' & Hs' & Hm) Hmin]. f_equal.
        pose proof (Hmin s (or_intror Hin)).
        destruct Hs' as [<-|Hs']; [lia|]. specialize (Hall s' Hs'). lia.
      * intros [= <-]. split.
        -- exists s. split; auto.
        -- intros s' [<-|Hs']; [lia|auto].
Qed.

Lemma stop_early_of_min (page : list Submission) (m f : Z) :
  page_min page m -> m < f ->
  stop_early (page_oldest page) (Some f) = true.
Proof.
  intros Hmin Hlt. apply page_oldest_spec in Hmin. rewrite Hmin. simpl.
  now apply Z.ltb_lt.
Qed.

Lemma stop_early_of_member (page : list Submission) (s : Submission) (f : Z) :
  In s page -> submission_ts s < f ->
  stop_early (page_oldest page) (Some f) = true.
Proof.
  intros Hin Hlt. destruct page as [|a page]; [contradiction|].
  simpl. apply Z.ltb_lt.
  destruct (fold_min_le page (submission_ts a)) as [Hle Hall].
  destruct Hin as [<-|Hin]; [lia|]. specialize (Hall s Hin). lia.
Qed.

(** ** The fetch loop *)

Section FetchLoopFacts.

Variable http_user_status : nat -> string -> Z -> Z -> result envelope.
Variable repr_envelope : envelope -> string.
Variable handle : string.
Variable from_ts to_ts : option Z.
Variable page_size max_requests : Z.
Variable progress : bool.

Let loop := fetch_loop http_user_status repr_envelope handle from_ts to_ts
                       page_size max_requests progress.

(** The loop body, case by case. *)
Lemma fetch_loop_unfold (fuel : nat) (n : nat) (start_idx requests_made y : Z) :
  loop (S fuel) n start_idx requests_made y =
  if max_requests <=? requests_made
  then run_end Exhausted
         (notify progress (MsgReachedMax max_requests)
          ++ notify progress (MsgFinished y))
  else
    let msg := notify progress
                 (MsgApiRequest (requests_made + 1) start_idx page_size) in
    let response :=
      api_user_status http_user_status repr_envelope n handle start_idx
                      page_size in
    let call := mkCall start_idx page_size response in
    match response with
    | Raise e => run_prepend [call] msg [] (run_end (Raised e) [])
    | Return [] =>
        run_prepend [call] msg []
          (run_end Exhausted
             (notify progress MsgNoMore ++ notify progress (MsgFinished y)))
    | Return page =>
        let out := filter (in_window from_ts to_ts) page in
        let y' := y + Z.of_nat (List.length out) in
        if stop_early (page_oldest page) from_ts
        then run_prepend [call] msg out
               (run_end Exhausted
                  (notify progress MsgStoppingEarly
                   ++ notify progress (MsgFinished y')))
        else run_prepend [call] msg out
               (loop fuel (S n) (start_idx + Z.of_nat (List.length page))
                     (requests_made + 1) y')
    end.
Proof.
  unfold loop. cbn [fetch_loop].
  destruct (max_requests <=? requests_made); [reflexivity|].
  cbv zeta.
  destruct (api_user_status http_user_status repr_envelope n handle start_idx
              page_size) as [page|e]; [|reflexivity].
  destruct page as [|s page]; [reflexivity|].
  rewrite scan_page_spec. reflexivity.
Qed.

(** The request budget: no more than [max_requests - requests_made]
    further calls. *)
Lemma fetch_loop_budget (fuel : nat) (n : nat) (start_idx requests_made y : Z) :
  Z.of_nat (List.length (requests (loop fuel n start_idx requests_made y)))
  <= Z.max 0 (max_requests - requests_made).
Proof.
  revert n start_idx requests_made y.
  induction fuel as [|fuel IH]; intros n start_idx requests_made y.
  - simpl. lia.
  - rewrite fetch_loop_unfold.
    destruct (Z.leb_spec max_requests requests_made) as [Hle|Hgt];
      [simpl; lia|].
    cbv zeta.
    destruct (api_user_status _ _ _ _ _ _) as [page|e]; [|simpl; lia].
    destruct page as [|s page]; [simpl; lia|].
    destruct (stop_early _ _); [simpl; lia|].
    cbn [run_prepend requests app].
    specialize (IH (S n)
                  (start_idx + Z.of_nat (List.length (s :: page)))
                  (requests_made + 1)
                  (y + Z.of_nat (List.length
                                   (filter (in_window from_ts to_ts)
                                           (s :: page))))).
    set (rest := requests (loop _ _ _ _ _)) in *.
    cbn [List.length]. lia.
Qed.

(** The recursion bound of the model is never met. *)
Lemma fetch_loop_fuel (fuel : nat) (n : nat) (start_idx requests_made y : Z) :
  (Z.to_nat (max_requests - requests_made) < fuel)%nat ->
  outcome (loop fuel n start_idx requests_made y) <> OutOfFuel.
Proof.
  revert n start_idx requests_made y.
  induction fuel as [|fuel IH]; intros n start_idx requests_made y Hf.
  - lia.
  - rewrite fetch_loop_unfold.
    destruct (Z.leb_spec max_requests requests_made) as [Hle|Hgt];
      [discriminate|].
    cbv zeta.
    destruct (api_user_status _ _ _ _ _ _) as [page|e]; [|discriminate].
    destruct page as [|s page]; [discriminate|].
    destruct (stop_early _ _); [discriminate|].
    cbn [run_prepend outcome]. apply IH. lia.
Qed.

(** Everything yielded lies in the window. *)
Lemma fetch_loop_yields_in_window (fuel : nat) (n : nat)
    (start_idx requests_made y : Z) :
  Forall (fun s => in_window from_ts to_ts s = true)
         (yielded (loop fuel n start_idx requests_made y)).
Proof.
  revert n start_idx requests_made y.
  induction fuel as [|fuel IH]; intros n start_idx requests_made y.
  - constructor.
  - rewrite fetch_loop_unfold.
    destruct (max_requests <=? requests_made); [constructor|].
    cbv zeta.
    destruct (api_user_status _ _ _ _ _ _) as [page|e]; [|constructor].
    destruct page as [|s page]; [constructor|].
    assert (Hout : Forall (fun s0 => in_window from_ts to_ts s0 = true)
                     (filter (in_window from_ts to_ts) (s :: page))).
    { apply Forall_forall. intros x Hx. now apply filter_In in Hx. }
    destruct (stop_early _ _); cbn [run_prepend yielded].
    + apply Forall_app. split; [exact Hout|constructor].
    + apply Forall_app. split; [exact Hout|apply IH].
Qed.

(** A page whose oldest timestamp is below the From bound is the last
    one requested; its submissions inside the window are the last ones
    yielded, and the generator ends normally. *)
Lemma fetch_loop_early_stop (fuel : nat) (n : nat)
    (start_idx requests_made y : Z) (N : nat) (call : api_call)
    (page : list Submission) :
  nth_error (requests (loop fuel n start_idx requests_made y)) N = Some call ->
  call_response call = Return page ->
  stop_early (page_oldest page) from_ts = true ->
  List.length (requests (loop fuel n start_idx requests_made y)) = S N
  /\ (exists pre,
        yielded (loop fuel n start_idx requests_made y)
        = pre ++ filter (in_window from_ts to_ts) page)
  /\ outcome (loop fuel n start_idx requests_made y) = Exhausted.
Proof.
  revert n start_idx requests_made y N.
  induction fuel as [|fuel IH]; intros n start_idx requests_made y N.
  - destruct N; discriminate.
  - rewrite fetch_loop_unfold.
    destruct (max_requests <=? requests_made); [destruct N; discriminate|].
    cbv zeta.
    destruct (api_user_status _ _ _ _ _ _) as [page0|e] eqn:Eresp.
    + destruct page0 as [|s page0].
      * destruct N as [|N]; simpl; [|destruct N; discriminate].
        intros [= <-]. simpl. intros [= <-]. discriminate.
      * destruct (stop_early (page_oldest (s :: page0)) from_ts) eqn:Estop.
        -- destruct N as [|N]; cbn [run_prepend requests app nth_error run_end];
             [|destruct N; discriminate].
           intros [= <-]. cbn [call_response]. intros [= <-] _.
           split; [reflexivity|]. split; [|reflexivity].
           exists []. cbn [yielded run_prepend run_end].
           now rewrite app_nil_r.
        -- destruct N as [|N]; cbn [run_prepend requests app nth_error].
           ++ intros [= <-]. cbn [call_response]. intros [= <-] Hstop.
              congruence.
           ++ intros Hnth Hresp Hstop.
              destruct (IH _ _ _ _ _ Hnth Hresp Hstop) as (Hlen & [pre Hpre] & Hout).
              split; [exact (f_equal S Hlen)|].
              split; [|exact Hout].
              exists (filter (in_window from_ts to_ts) (s :: page0) ++ pre).
              rewrite <- app_assoc, <- Hpre. reflexivity.
    + destruct N as [|N]; simpl; [|destruct N; discriminate].
      intros [= <-]. simpl. discriminate.
Qed.

End FetchLoopFacts.

(** ** The generator *)

Lemma fetch_valid_range_unfold
    (http_user_status : nat -> string -> Z -> Z -> result envelope)
    (repr_envelope : envelope -> string) (handle : string)
    (dt_from dt_to : option datetime) (page_size max_requests : Z)
    (progress : bool) :
  requests (fetch_submissions_in_period http_user_status repr_envelope handle
              dt_from dt_to page_size max_requests progress) <> [] ->
  fetch_submissions_in_period http_user_status repr_envelope handle
    dt_from dt_to page_size max_requests progress
  = fetch_loop http_user_status repr_envelope handle
      (option_map int_timestamp dt_from) (option_map int_timestamp dt_to)
      page_size max_requests progress (S (Z.to_nat max_requests)) 0%nat 1 0 0.
Proof.
  unfold fetch_submissions_in_period.
  destruct (match dt_from with
            | Some f => match dt_to with
                        | Some t => datetime_gtb f t
                        | None => false
                        end
            | None => false
            end); [|reflexivity].
  intros H. now elim H.
Qed.

(** C3.  In a window with a From bound, when the page returned by
    request number [N + 1] has a least [creationTimeSeconds] strictly
    below the bound, that request is the last one: the run holds
    exactly [N + 1] requests, the submissions of that page that lie in
    the window are yielded (they close the yielded sequence), and the
    generator ends normally. *)
Theorem fetch_stops_after_old_page
    (http_user_status : nat -> string -> Z -> Z -> result envelope)
    (repr_envelope : envelope -> string) (handle : string)
    (dt_from : datetime) (dt_to : option datetime)
    (page_size max_requests : Z) (progress : bool)
    (N : nat) (call : api_call) (page : list Submission) (m : Z) :
  let run := fetch_submissions_in_period http_user_status repr_envelope
               handle (Some dt_from) dt_to page_size max_requests progress in
  nth_error (requests run) N = Some call ->
  call_response call = Return page ->
  page_min page m ->
  m < int_timestamp dt_from ->
  List.length (requests run) = S N
  /\ (exists pre,
        yielded run
        = pre ++ filter (in_window (Some (int_timestamp dt_from))
                                   (option_map int_timestamp dt_to)) page)
  /\ outcome run = Exhausted.
Proof.
  intros run Hnth Hresp Hmin Hlt.
  assert (Hne : requests run <> []).
  { intros E. rewrite E in Hnth. destruct N; discriminate. }
  subst run.
  pose proof (fetch_valid_range_unfold _ _ _ _ _ _ _ _ Hne) as E.
  rewrite E in Hnth |- *. clear E Hne.
  apply (fetch_loop_early_stop _ _ _ _ _ _ _ _ _ _ _ _ _ N call page
           Hnth Hresp).
  cbn [option_map]. now apply stop_early_of_min with m.
Qed.

Lemma fetch_stops_after_old_page_witness :
  let run := fetch_submissions_in_period two_page_http sample_repr "x"
               (Some (at_second 60)) (Some (at_second 180)) 1000 200 true in
  page_min scenario_stream 50
  /\ 50 < int_timestamp (at_second 60)
  /\ List.length (requests run) = 1%nat
  /\ (exists pre,
        yielded run
        = pre ++ filter (in_window (Some (int_timestamp (at_second 60)))
                           (option_map int_timestamp (Some (at_second 180))))
                        scenario_stream)
  /\ outcome run = Exhausted.
Proof.
  intros run.
  assert (Hmin : page_min scenario_stream 50).
  { apply page_oldest_spec. reflexivity. }
  assert (Hlt : 50 < int_timestamp (at_second 60)) by (vm_compute; reflexivity).
  split; [exact Hmin|]. split; [exact Hlt|].
  exact (fetch_stops_after_old_page two_page_http sample_repr "x"
           (at_second 60) (Some (at_second 180)) 1000 200 true
           0%nat (mkCall 1 1000 (Return scenario_stream)) scenario_stream 50
           eq_refl eq_refl Hmin Hlt).
Defined.

(** The endless history is cut after 200 pages. *)
Lemma endless_history_cut :
  List.length
    (requests (fst (_fetch_thread endless_http sample_repr "x"
                      (at_second 0) (at_second 180))))
  = 200%nat.
Proof. vm_compute. reflexivity. Qed.

Lemma fetch_default_budget_counterexample :
  default_max_requests = 100
  /\ List.length
       (requests (fetch_with_defaults endless_http sample_repr "x" None None))
     = 100%nat
  /\ outcome (fetch_with_defaults endless_http sample_repr "x" None None)
     = Exhausted
  /\ default_max_requests <> 200.
Proof.
  split; [reflexivity|]. split; [vm_compute; reflexivity|].
  split; [vm_compute; reflexivity|discriminate].
Qed.

(** C4.  Whatever the handle, the window and the source, the generator
    issues at most [max_requests] page requests and then ends (the
    recursion bound of the model is never what ends it).  The default
    of [max_requests] in the signature is 100, so a call that leaves it
    out issues at most 100 requests; the fetch thread, the one caller
    in the program, passes [max_requests = 200], so a
    fetch-and-aggregate run issues at most 200 requests. *)
Theorem fetch_request_budget
    (http_user_status : nat -> string -> Z -> Z -> result envelope)
    (repr_envelope : envelope -> string) (handle : string)
    (dt_from dt_to : option datetime) (page_size max_requests : Z)
    (progress : bool) :
  let run := fetch_submissions_in_period http_user_status repr_envelope
               handle dt_from dt_to page_size max_requests progress in
  Z.of_nat (List.length (requests run)) <= Z.max 0 max_requests
  /\ outcome run <> OutOfFuel
  /\ (forall f t : datetime,
        fst (_fetch_thread http_user_status repr_envelope handle f t)
        = fetch_submissions_in_period http_user_status repr_envelope handle
            (Some f) (Some t) 1000 200 true
        /\ (List.length
              (requests
                 (fst (_fetch_thread http_user_status repr_envelope handle
                         f t))) <= 200)%nat)
  /\ default_max_requests = 100
  /\ (forall f t : option datetime,
        (List.length
           (requests
              (fetch_with_defaults http_user_status repr_envelope handle
                 f t)) <= 100)%nat).
Proof.
  assert (Hbudget : forall df dt ps mr pr,
            Z.of_nat (List.length
                        (requests
                           (fetch_submissions_in_period http_user_status
                              repr_envelope handle df dt ps mr pr)))
            <= Z.max 0 mr).
  { intros df dt ps mr pr. unfold fetch_submissions_in_period.
    destruct (match df with
              | Some f => match dt with
                          | Some t => datetime_gtb f t
                          | None => false
                          end
              | None => false
              end); [simpl; lia|].
    pose proof (fetch_loop_budget http_user_status repr_envelope handle
                  (option_map int_timestamp df) (option_map int_timestamp dt)
                  ps mr pr (S (Z.to_nat mr)) 0%nat 1 0 0) as H.
    rewrite Z.sub_0_r in H. exact H. }
  intros run. split; [apply Hbudget|]. split.
  - subst run. unfold fetch_submissions_in_period.
    destruct (match dt_from with
              | Some f => match dt_to with
                          | Some t => datetime_gtb f t
                          | None => false
                          end
              | None => false
              end); [discriminate|].
    apply fetch_loop_fuel. rewrite Z.sub_0_r. lia.
  - split; [|split; [reflexivity|]].
    + intros f t. split; [reflexivity|].
      unfold _fetch_thread. cbn [fst].
      specialize (Hbudget (Some f) (Some t) 1000 200 true). lia.
    + intros f t. unfold fetch_with_defaults.
      specialize (Hbudget f t default_page_size default_max_requests false).
      unfold default_max_requests in Hbudget at 2. lia.
Qed.

(** C7.  When the lower bound of the window lies after its upper bound,
    consuming the generator raises the range error at once: no page
    request is issued, nothing is yielded, and the fetch thread ends in
    its error branch with that exception, before any aggregation. *)
Theorem invalid_range_rejected
    (http_user_status : nat -> string -> Z -> Z -> result envelope)
    (repr_envelope : envelope -> string) (handle : string)
    (dt_from dt_to : datetime) (page_size max_requests : Z)
    (progress : bool) :
  utc_us dt_to < utc_us dt_from ->
  fetch_submissions_in_period http_user_status repr_envelope handle
    (Some dt_from) (Some dt_to) page_size max_requests progress
  = mkRun [] [] [] (Raised (ValueError "From date must be <= To date"))
  /\ _fetch_thread http_user_status repr_envelope handle dt_from dt_to
     = (mkRun [] [] [] (Raised (ValueError "From date must be <= To date")),
        Raise (ValueError "From date must be <= To date")).
Proof.
  intros Hgt.
  assert (H : datetime_gtb dt_from dt_to = true).
  { unfold datetime_gtb. now apply Z.ltb_lt. }
  unfold _fetch_thread, fetch_submissions_in_period. rewrite H.
  split; reflexivity.
Qed.

Lemma invalid_range_rejected_witness :
  utc_us (at_second 60) < utc_us (at_second 180)
  /\ fetch_submissions_in_period two_page_http sample_repr "x"
       (Some (at_second 180)) (Some (at_second 60)) 1000 200 true
     = mkRun [] [] [] (Raised (ValueError "From date must be <= To date")).
Proof.
  assert (H : utc_us (at_second 60) < utc_us (at_second 180))
    by (vm_compute; reflexivity).
  split; [exact H|].
  exact (proj1 (invalid_range_rejected two_page_http sample_repr "x"
                  (at_second 180) (at_second 60) 1000 200 true H)).
Defined.

(** C9 (the claim as stated fails).  With the From bound at the epoch
    itself, the submission without [creationTimeSeconds] is yielded and
    the fetch goes on to request the next page. *)
Lemma untimed_counterexample :
  let run := fetch_submissions_in_period untimed_http sample_repr "x"
               (Some (at_second 0)) (Some (at_second 180)) 1000 200 false in
  creationTimeSeconds untimed = None
  /\ int_timestamp (at_second 0) = 0
  /\ nth_error (requests run) 0 = Some (mkCall 1 1000 (Return [untimed]))
  /\ yielded run = [untimed]
  /\ List.length (requests run) = 2%nat.
Proof. vm_compute. repeat split. Qed.

(** C9 (amended).  A submission without [creationTimeSeconds] has
    timestamp 0.  When the From bound lies strictly after the epoch,
    it is never yielded, the least timestamp of its page is at most 0
    and so below the bound, and no request follows the one that
    returned its page.  In the reducer, when it is accepted it is stored
    with timestamp 0 unless a timestamp that is not positive is already
    stored for its key, and at the end of any stream that holds it the
    timestamp stored for its key is not positive. *)
Theorem missing_timestamp_reads_as_zero (s : Submission) :
  creationTimeSeconds s = None ->
  submission_ts s = 0
  /\ (forall (http_user_status : nat -> string -> Z -> Z -> result envelope)
        (repr_envelope : envelope -> string) (handle : string)
        (dt_from : datetime) (dt_to : option datetime)
        (page_size max_requests : Z) (progress : bool)
        (N : nat) (call : api_call) (page : list Submission),
        let run := fetch_submissions_in_period http_user_status
                     repr_envelope handle (Some dt_from) dt_to page_size
                     max_requests progress in
        0 < int_timestamp dt_from ->
        nth_error (requests run) N = Some call ->
        call_response call = Return page ->
        In s page ->
        ~ In s (yielded run)
        /\ (exists m, page_min page m /\ m <= 0)
        /\ List.length (requests run) = S N)
  /\ (forall solved : PyDict.t SolvedRecord,
        verdict_ok s = true ->
        (forall r, PyDict.get (submission_key s) solved = Some r ->
                   0 < rec_ts r) ->
        PyDict.get (submission_key s) (collect_step solved s)
        = Some (0, get_default (tags (submission_problem s)) [],
                get_default (name (submission_problem s)) "",
                rating (submission_problem s)))
  /\ (forall l : list Submission,
        In s l -> verdict_ok s = true ->
        exists r, PyDict.get (submission_key s)
                    (collect_first_ac_per_problem l) = Some r
                  /\ rec_ts r <= 0).
Proof.
  intros Hnone.
  assert (Hts : submission_ts s = 0).
  { unfold submission_ts. now rewrite Hnone. }
  split; [exact Hts|]. split; [|split].
  - intros http_user_status repr_envelope handle dt_from dt_to page_size
      max_requests progress N call page run Hpos Hnth Hresp Hin.
    assert (Hne : requests run <> []).
    { intros E. rewrite E in Hnth. destruct N; discriminate. }
    subst run.
    pose proof (fetch_valid_range_unfold _ _ _ _ _ _ _ _ Hne) as E.
    rewrite E in Hnth |- *. clear E Hne.
    split; [|split].
    + intros Hy.
      pose proof (fetch_loop_yields_in_window http_user_status repr_envelope
                    handle (option_map int_timestamp (Some dt_from))
                    (option_map int_timestamp dt_to) page_size max_requests
                    progress (S (Z.to_nat max_requests)) 0%nat 1 0 0) as Hall.
      rewrite Forall_forall in Hall. specialize (Hall s Hy).
      unfold in_window in Hall. cbn [option_map below_bound] in Hall.
      rewrite Hts in Hall.
      destruct (Z.ltb_spec 0 (int_timestamp dt_from)); [discriminate|lia].
    + destruct (page_oldest page) as [m|] eqn:E.
      * exists m. apply page_oldest_spec in E. split; [exact E|].
        destruct E as [_ Hle]. specialize (Hle s Hin). lia.
      * destruct page; [contradiction|discriminate].
    + apply (fetch_loop_early_stop http_user_status repr_envelope handle
               (option_map int_timestamp (Some dt_from))
               (option_map int_timestamp dt_to) page_size max_requests
               progress _ _ _ _ _ N call page Hnth Hresp).
      cbn [option_map]. apply stop_early_of_member with s; [exact Hin|lia].
  - intros solved Hok Hstored.
    rewrite collect_step_get, Hok, String.eqb_refl. simpl.
    unfold submission_record. rewrite Hts.
    destruct (PyDict.get (submission_key s) solved) as [r|] eqn:E;
      [|reflexivity].
    specialize (Hstored r eq_refl).
    destruct (Z.ltb_spec 0 (rec_ts r)); [reflexivity|lia].
  - intros l Hin Hok.
    destruct (PyDict.get (submission_key s) (collect_first_ac_per_problem l))
      as [r|] eqn:E.
    + exists r. split; [reflexivity|].
      apply collect_get_some in E. destruct E as [_ Hmin].
      specialize (Hmin s Hin Hok eq_refl). lia.
    + exfalso.
      now apply (proj1 (collect_get_none l (submission_key s)) E s).
Qed.

Lemma missing_timestamp_reads_as_zero_witness :
  let run := fetch_submissions_in_period untimed_http sample_repr "x"
               (Some (at_second 60)) (Some (at_second 180)) 1000 200 false in
  creationTimeSeconds untimed = None
  /\ submission_ts untimed = 0
  /\ 0 < int_timestamp (at_second 60)
  /\ ~ In untimed (yielded run)
  /\ List.length (requests run) = 1%nat
  /\ PyDict.get "7-B" (collect_step PyDict.empty untimed)
     = Some (0, ["dp"], "Old", Some 900).
Proof.
  intros run.
  pose proof (missing_timestamp_reads_as_zero untimed eq_refl)
    as (Hts & Hfetch & Hstep & _).
  assert (Hpos : 0 < int_timestamp (at_second 60)) by (vm_compute; reflexivity).
  destruct (Hfetch untimed_http sample_repr "x" (at_second 60)
              (Some (at_second 180)) 1000 200 false 0%nat
              (mkCall 1 1000 (Return [untimed])) [untimed]
              Hpos eq_refl eq_refl (or_introl eq_refl))
    as (Hny & _ & Hlen).
  split; [reflexivity|]. split; [exact Hts|]. split; [exact Hpos|].
  split; [exact Hny|]. split; [exact Hlen|].
  apply (Hstep PyDict.empty eq_refl). intros r Hr. discriminate Hr.
Defined.

(** ** Order on tag names and report keys *)

Lemma ascii_compare_refl (a : ascii) : Ascii.compare a a = Eq.
Proof. unfold Ascii.compare. apply N.compare_refl. Qed.

Lemma ascii_compare_lt_trans (a b c : ascii) :
  Ascii.compare a b = Lt -> Ascii.compare b c = Lt -> Ascii.compare a c = Lt.
Proof.
  unfold Ascii.compare. rewrite !N.compare_lt_iff. apply N.lt_trans.
Qed.

Lemma string_compare_lt_trans (s1 s2 s3 : string) :
  String.compare s1 s2 = Lt -> String.compare s2 s3 = Lt ->
  String.compare s1 s3 = Lt.
Proof.
  revert s2 s3. induction s1 as [|a s1 IH]; intros [|b s2] [|c s3];
    simpl; try discriminate; auto.
  destruct (Ascii.compare a b) eqn:Eab; try discriminate;
    destruct (Ascii.compare b c) eqn:Ebc; try discriminate; intros H1 H2.
  - apply Ascii.compare_eq_iff in Eab, Ebc. subst.
    rewrite ascii_compare_refl. eauto.
  - apply Ascii.compare_eq_iff in Eab. subst. now rewrite Ebc.
  - apply Ascii.compare_eq_iff in Ebc. subst. now rewrite Eab.
  - now rewrite (ascii_compare_lt_trans a b c).
Qed.

Lemma string_compare_refl (s : string) : String.compare s s = Eq.
Proof.
  induction s as [|a s IH]; simpl; auto. now rewrite ascii_compare_refl.
Qed.

Lemma string_ltb_false_leb (s1 s2 : string) :
  String.ltb s2 s1 = false <-> String.leb s1 s2 = true.
Proof.
  unfold String.ltb, String.leb. rewrite (String.compare_antisym s1 s2).
  destruct (String.compare s2 s1); simpl; split; auto; discriminate.
Qed.

Lemma string_ltb_trans (s1 s2 s3 : string) :
  String.ltb s1 s2 = true -> String.ltb s2 s3 = true ->
  String.ltb s1 s3 = true.
Proof.
  unfold String.ltb.
  destruct (String.compare s1 s2) eqn:E12; try discriminate.
  destruct (String.compare s2 s3) eqn:E23; try discriminate.
  now rewrite (string_compare_lt_trans s1 s2 s3).
Qed.

Lemma string_ltb_irrefl (s : string) : String.ltb s s = false.
Proof. unfold String.ltb. now rewrite string_compare_refl. Qed.

Lemma string_ltb_total (s1 s2 : string) :
  String.ltb s1 s2 = true \/ s1 = s2 \/ String.ltb s2 s1 = true.
Proof.
  unfold String.ltb. rewrite (String.compare_antisym s2 s1).
  destruct (String.compare s1 s2) eqn:E; simpl; auto.
  apply String.compare_eq_iff in E. auto.
Qed.

(** [tag_key_ltb] is the strict order "larger count first, then smaller
    name". *)
Lemma tag_key_ltb_spec (x y : string * Z) :
  tag_key_ltb x y = true <->
  snd y < snd x \/ (snd x = snd y /\ String.ltb (fst x) (fst y) = true).
Proof.
  unfold tag_key_ltb. rewrite orb_true_iff, andb_true_iff.
  rewrite Z.ltb_lt, Z.eqb_eq.
  split; (intros [H|[H1 H2]]; [left; lia|right; split; [lia|exact H2]]).
Qed.

Lemma tag_key_le_spec (x y : string * Z) :
  tag_key_le x y <->
  snd y < snd x \/ (snd x = snd y /\ String.leb (fst x) (fst y) = true).
Proof.
  unfold tag_key_le. rewrite <- string_ltb_false_leb.
  destruct (tag_key_ltb y x) eqn:E.
  - apply tag_key_ltb_spec in E. split; [discriminate|].
    intros [H|[H1 H2]]; destruct E as [E|[E1 E2]]; try lia; congruence.
  - split; auto. intros _.
    destruct (Z.lt_trichotomy (snd x) (snd y)) as [H|[H|H]]; auto.
    + exfalso. assert (tag_key_ltb y x = true); [|congruence].
      apply tag_key_ltb_spec. auto.
    + right. split; auto.
      destruct (String.ltb (fst y) (fst x)) eqn:El; auto.
      exfalso. assert (tag_key_ltb y x = true); [|congruence].
      apply tag_key_ltb_spec. auto.
Qed.

Lemma tag_key_ltb_le (x y : string * Z) :
  tag_key_ltb x y = true -> tag_key_le x y.
Proof.
  intros H. apply tag_key_ltb_spec in H. apply tag_key_le_spec.
  destruct H as [H|[H1 H2]]; auto. right. split; auto.
  apply string_ltb_false_leb.
  destruct (String.ltb (fst y) (fst x)) eqn:E; auto.
  pose proof (string_ltb_trans _ _ _ H2 E) as Hc.
  now rewrite string_ltb_irrefl in Hc.
Qed.

Lemma tag_key_le_trans (x y z : string * Z) :
  tag_key_le x y -> tag_key_le y z -> tag_key_le x z.
Proof.
  rewrite !tag_key_le_spec. rewrite <- !string_ltb_false_leb.
  intros [H1|[H1 H1']] [H2|[H2 H2']]; try (left; lia).
  right. split; [lia|].
  destruct (String.ltb (fst z) (fst x)) eqn:E; auto. exfalso.
  destruct (string_ltb_total (fst x) (fst y)) as [Hxy|[Hxy|Hxy]];
    try congruence.
  pose proof (string_ltb_trans _ _ _ E Hxy). congruence.
Qed.

(** ** [sorted] *)

Section Sorted.

Variable A : Type.
Variable ltb : A -> A -> bool.

Let le (x y : A) : Prop := ltb y x = false.

Hypothesis ltb_le : forall x y, ltb x y = true -> le x y.
Hypothesis le_trans : forall x y z, le x y -> le y z -> le x z.

Lemma insert_sorted_perm (x : A) (l : list A) :
  Permutation (x :: l) (insert_sorted ltb x l).
Proof.
  induction l as [|y l IH]; simpl; auto.
  destruct (ltb x y); auto.
  rewrite perm_swap. now apply perm_skip.
Qed.

Lemma insert_sorted_sorted (x : A) (l : list A) :
  StronglySorted le l -> StronglySorted le (insert_sorted ltb x l).
Proof.
  induction l as [|y l IH]; intros Hs; simpl.
  - constructor; constructor.
  - inversion Hs as [|? ? Hs' Hall]; subst.
    destruct (ltb x y) eqn:E.
    + constructor; auto. constructor; [now apply ltb_le|].
      rewrite Forall_forall in *. intros z Hz.
      apply le_trans with y; [now apply ltb_le|auto].
    + constructor; auto.
      rewrite Forall_forall in *. intros z Hz.
      apply Permutation_in with (l' := x :: l) in Hz;
        [|apply Permutation_sym, insert_sorted_perm].
      destruct Hz as [<-|Hz]; [exact E|auto].
Qed.

Lemma sorted_fold (l acc : list A) :
  StronglySorted le acc ->
  StronglySorted le (fold_left (fun a x => insert_sorted ltb x a) l acc)
  /\ Permutation (l ++ acc)
                 (fold_left (fun a x => insert_sorted ltb x a) l acc).
Proof.
  revert acc. induction l as [|x l IH]; intros acc Hs; simpl.
  - split; auto.
  - destruct (IH (insert_sorted ltb x acc) (insert_sorted_sorted x acc Hs))
      as [H1 H2].
    split; auto.
    apply perm_trans with (l ++ insert_sorted ltb x acc); auto.
    apply perm_trans with (l ++ x :: acc).
    + apply Permutation_middle.
    + apply Permutation_app_head, insert_sorted_perm.
Qed.

Lemma sorted_spec (l : list A) :
  StronglySorted le (sorted ltb l) /\ Permutation l (sorted ltb l).
Proof.
  destruct (sorted_fold l [] (SSorted_nil le)) as [H1 H2].
  split; auto. now rewrite app_nil_r in H2.
Qed.

End Sorted.

Lemma sorted_tag_keys (items : list (string * Z)) :
  StronglySorted tag_key_le (sorted tag_key_ltb items)
  /\ Permutation items (sorted tag_key_ltb items).
Proof.
  apply sorted_spec.
  - exact tag_key_ltb_le.
  - exact tag_key_le_trans.
Qed.

(** ** Order of floats, [min] and [max] *)

Lemma SFltb_irrefl (x : float) : SFltb x x = false.
Proof.
  unfold SFltb. destruct x as [s|s| |s m e]; simpl; auto.
  - destruct s; reflexivity.
  - destruct s; rewrite Z.compare_refl;
      change (Pos.compare_cont Eq m m) with (Pos.compare m m);
      rewrite Pos.compare_refl; reflexivity.
Qed.

Ltac cmp_cases :=
  repeat match goal with
         | H : context [Pos.compare_cont Eq ?a ?b] |- _ =>
             change (Pos.compare_cont Eq a b) with (Pos.compare a b) in H
         | |- context [Pos.compare_cont Eq ?a ?b] =>
             change (Pos.compare_cont Eq a b) with (Pos.compare a b)
         end;
  repeat match goal with
         | H : context [Z.compare ?a ?b] |- _ =>
             destruct (Z.compare_spec a b); try discriminate H
         | H : context [Pos.compare ?a ?b] |- _ =>
             destruct (Pos.compare_spec a b); try discriminate H
         end;
  repeat match goal with
         | |- context [Z.compare ?a ?b] => destruct (Z.compare_spec a b)
         | |- context [Pos.compare ?a ?b] => destruct (Pos.compare_spec a b)
         end;
  simpl in *; subst; try reflexivity; try discriminate; try lia.

Lemma SFltb_trans (x y z : float) :
  SFltb x y = true -> SFltb y z = true -> SFltb x z = true.
Proof.
  unfold SFltb.
  destruct x as [s1|s1| |s1 m1 e1], y as [s2|s2| |s2 m2 e2],
    z as [s3|s3| |s3 m3 e3]; simpl;
    try discriminate; try (destruct s1); try (destruct s2); try (destruct s3);
    simpl; try discriminate; try reflexivity; intros H1 H2; cmp_cases.
Qed.

Lemma py_min_fold_least (rest seen : list float) (best : float) :
  is_least (best :: seen) best ->
  is_least (best :: seen ++ rest)
    (fold_left (fun b item => if SFltb item b then item else b) rest best)
  .
Proof.
  revert seen best. induction rest as [|item rest IH]; intros seen best Hl.
  - simpl. now rewrite app_nil_r.
  - cbn [fold_left]. destruct Hl as [_ Hl].
    destruct (SFltb item best) eqn:E.
    + specialize (IH (seen ++ [best]) item).
      assert (Hi : is_least (item :: seen ++ [best]) item).
      { split; [now left|]. intros y [<-|Hy]; [apply SFltb_irrefl|].
        apply in_app_iff in Hy.
        destruct (SFltb y item) eqn:Ey; auto.
        pose proof (SFltb_trans _ _ _ Ey E) as Hc.
        destruct Hy as [Hy|[<-|[]]].
        - rewrite (Hl y (or_intror Hy)) in Hc. discriminate.
        - rewrite SFltb_irrefl in Hc. discriminate. }
      destruct (IH Hi) as [Hin Hmin]. split.
      * destruct Hin as [Hin|Hin]; [right; apply in_app_iff; right; now left|].
        rewrite <- app_assoc in Hin. apply in_app_iff in Hin.
        destruct Hin as [Hin|[Hin|Hin]].
        -- right. apply in_app_iff. auto.
        -- now left.
        -- right. apply in_app_iff. right. now right.
      * intros y Hy. apply Hmin.
        destruct Hy as [<-|Hy].
        -- right. rewrite <- app_assoc. apply in_app_iff. right. now left.
        -- apply in_app_iff in Hy. destruct Hy as [Hy|[<-|Hy]].
           ++ right. rewrite <- app_assoc. apply in_app_iff. auto.
           ++ now left.
           ++ right. rewrite <- app_assoc. apply in_app_iff. right.
              now right.
    + specialize (IH (seen ++ [item]) best).
      assert (Hi : is_least (best :: seen ++ [item]) best).
      { split; [now left|]. intros y [<-|Hy]; [apply SFltb_irrefl|].
        apply in_app_iff in Hy. destruct Hy as [Hy|[<-|[]]]; auto.
        apply Hl. now right. }
      rewrite <- app_assoc in IH. exact (IH Hi).
Qed.

Lemma py_min_least (x : float) (rest : list float) :
  is_least (x :: rest) (py_min x rest).
Proof.
  apply (py_min_fold_least rest [] x).
  split; [now left|]. intros y [<-|[]]. apply SFltb_irrefl.
Qed.

Lemma py_max_fold_greatest (rest seen : list float) (best : float) :
  is_greatest (best :: seen) best ->
  is_greatest (best :: seen ++ rest)
    (fold_left (fun b item => if SFltb b item then item else b) rest best).
Proof.
  revert seen best. induction rest as [|item rest IH]; intros seen best Hl.
  - simpl. now rewrite app_nil_r.
  - cbn [fold_left]. destruct Hl as [_ Hl].
    destruct (SFltb best item) eqn:E.
    + specialize (IH (seen ++ [best]) item).
      assert (Hi : is_greatest (item :: seen ++ [best]) item).
      { split; [now left|]. intros y [<-|Hy]; [apply SFltb_irrefl|].
        apply in_app_iff in Hy.
        destruct (SFltb item y) eqn:Ey; auto.
        pose proof (SFltb_trans _ _ _ E Ey) as Hc.
        destruct Hy as [Hy|[<-|[]]].
        - rewrite (Hl y (or_intror Hy)) in Hc. discriminate.
        - rewrite SFltb_irrefl in Hc. discriminate. }
      destruct (IH Hi) as [Hin Hmax]. split.
      * destruct Hin as [Hin|Hin]; [right; apply in_app_iff; right; now left|].
        rewrite <- app_assoc in Hin. apply in_app_iff in Hin.
        destruct Hin as [Hin|[Hin|Hin]].
        -- right. apply in_app_iff. auto.
        -- now left.
        -- right. apply in_app_iff. right. now right.
      * intros y Hy. apply Hmax.
        destruct Hy as [<-|Hy].
        -- right. rewrite <- app_assoc. apply in_app_iff. right. now left.
        -- apply in_app_iff in Hy. destruct Hy as [Hy|[<-|Hy]].
           ++ right. rewrite <- app_assoc. apply in_app_iff. auto.
           ++ now left.
           ++ right. rewrite <- app_assoc. apply in_app_iff. right.
              now right.
    + specialize (IH (seen ++ [item]) best).
      assert (Hi : is_greatest (best :: seen ++ [item]) best).
      { split; [now left|]. intros y [<-|Hy]; [apply SFltb_irrefl|].
        apply in_app_iff in Hy. destruct Hy as [Hy|[<-|[]]]; auto.
        apply Hl. now right. }
      rewrite <- app_assoc in IH. exact (IH Hi).
Qed.

Lemma py_max_greatest (x : float) (rest : list float) :
  is_greatest (x :: rest) (py_max x rest).
Proof.
  apply (py_max_fold_greatest rest [] x).
  split; [now left|]. intros y [<-|[]]. apply SFltb_irrefl.
Qed.

Lemma py_int_finite (x : float) :
  is_finite x = true -> exists z, py_int x = Return z.
Proof. destruct x; simpl; try discriminate; eauto. Qed.

Lemma py_float_finite (z : Z) (f : float) :
  py_float z = Return f -> is_finite f = true.
Proof.
  unfold py_float. destruct (binary_normalize prec emax z 0 false);
    try discriminate; intros [= <-]; reflexivity.
Qed.

Lemma rating_value_finite (r : option Z) (f : float) :
  rating_value r = Some f -> is_finite f = true.
Proof.
  destruct r as [z|]; simpl; [|discriminate].
  destruct (py_float z) as [f0|e] eqn:E; simpl; [|discriminate].
  intros [= <-]. now apply py_float_finite with z.
Qed.

(** ** More on dictionaries *)

Module PyDictMore.
Import PyDict PyDictFacts.

Lemma get_set {V : Type} (k k0 : string) (v : V) (d : t V) :
  get k0 (set k v d) = if String.eqb k k0 then Some v else get k0 d.
Proof.
  destruct (String.eqb_spec k k0) as [<-|Hne].
  - apply get_set_same.
  - now apply get_set_other.
Qed.

Lemma get_in {V : Type} (k : string) (v : V) (d : t V) :
  get k d = Some v -> In (k, v) d.
Proof.
  induction d as [|[k' v'] d IH]; simpl; [discriminate|].
  destruct (String.eqb_spec k' k) as [->|Hne].
  - intros [= ->]. now left.
  - intros H. right. auto.
Qed.

Lemma get_none_keys {V : Type} (k : string) (d : t V) :
  get k d = None <-> ~ In k (keys d).
Proof.
  induction d as [|[k' v'] d IH]; simpl.
  - split; auto.
  - destruct (String.eqb_spec k' k) as [->|Hne].
    + split; [discriminate|]. intros H. exfalso. auto.
    + rewrite IH. split; [intros H [E|E]; auto|auto].
Qed.

Lemma in_nodup_get {V : Type} (k : string) (v : V) (d : t V) :
  NoDup (keys d) -> In (k, v) d -> get k d = Some v.
Proof.
  induction d as [|[k' v'] d IH]; simpl; [contradiction|].
  intros Hnd [[= -> ->]|Hin].
  - now rewrite String.eqb_refl.
  - inversion Hnd as [|? ? Hnotin Hnd']; subst.
    destruct (String.eqb_spec k' k) as [->|Hne]; [|auto].
    exfalso. apply Hnotin. unfold keys. apply in_map_iff.
    exists (k, v). auto.
Qed.

Lemma keys_set {V : Type} (k : string) (v : V) (d : t V) :
  keys (set k v d) = if contains k d then keys d else keys d ++ [k].
Proof.
  unfold contains. induction d as [|[k' v'] d IH]; simpl; [reflexivity|].
  destruct (String.eqb_spec k' k) as [->|Hne]; simpl; [reflexivity|].
  rewrite IH. destruct (get k d); reflexivity.
Qed.

Lemma nodup_keys_set {V : Type} (k : string) (v : V) (d : t V) :
  NoDup (keys d) -> NoDup (keys (set k v d)).
Proof.
  intros Hnd. rewrite keys_set. unfold contains.
  destruct (get k d) eqn:E; auto.
  apply get_none_keys in E.
  apply Permutation_NoDup with (k :: keys d).
  - apply Permutation_cons_append.
  - now constructor.
Qed.

End PyDictMore.

(** ** The aggregation loop *)

Section Aggregation.

Import PyDict PyDictFacts PyDictMore.

Lemma aggregate_tag_counts (rv : option float) (st : agg_state)
    (tag t : string) :
  counts_at t (aggregate_tag rv st tag)
  = counts_at t st + Z.of_nat (eq_indicator tag t).
Proof.
  unfold counts_at, aggregate_tag, eq_indicator.
  assert (H : get t (set tag (get_default (get tag (tag_counts st)) 0 + 1)
                         (tag_counts st))
              = if String.eqb tag t
                then Some (get_default (get tag (tag_counts st)) 0 + 1)
                else get t (tag_counts st)) by apply get_set.
  destruct rv; cbn [tag_counts]; rewrite H;
    destruct (String.eqb_spec tag t) as [->|Hne];
    destruct (string_dec _ _); try congruence; simpl; lia.
Qed.

Lemma aggregate_tag_ratings (rv : option float) (st : agg_state)
    (tag t : string) :
  ratings_at t (aggregate_tag rv st tag)
  = ratings_at t st
    ++ match rv with
       | Some f => repeat f (eq_indicator tag t)
       | None => []
       end.
Proof.
  unfold ratings_at, aggregate_tag, eq_indicator.
  destruct rv as [f|]; cbn [tag_ratings]; [|now rewrite app_nil_r].
  rewrite get_set.
  destruct (String.eqb_spec tag t) as [->|Hne];
    destruct (string_dec _ _); try congruence; simpl; auto.
  now rewrite app_nil_r.
Qed.

Lemma aggregate_tag_all (rv : option float) (st : agg_state) (tag : string) :
  all_ratings (aggregate_tag rv st tag) = all_ratings st.
Proof. unfold aggregate_tag. destruct rv; reflexivity. Qed.

Lemma aggregate_tag_none_ratings (st : agg_state) (tag : string) :
  tag_ratings (aggregate_tag None st tag) = tag_ratings st.
Proof. reflexivity. Qed.

Lemma aggregate_tag_invariant (rv : option float) (st : agg_state)
    (tag : string) :
  (forall f, rv = Some f -> is_finite f = true) ->
  agg_invariant st -> agg_invariant (aggregate_tag rv st tag).
Proof.
  intros Hrv [Hpos Hnd Hfin Hall].
  assert (Hc : forall t c,
             get t (set tag (get_default (get tag (tag_counts st)) 0 + 1)
                        (tag_counts st)) = Some c -> 1 <= c).
  { intros t c. rewrite get_set.
    destruct (String.eqb tag t); [|apply Hpos].
    intros [= <-]. destruct (get tag (tag_counts st)) as [c0|] eqn:E;
      simpl; [|lia]. specialize (Hpos tag c0 E). lia. }
  unfold aggregate_tag. destruct rv as [f|]; constructor;
    cbn [tag_counts tag_ratings all_ratings]; auto;
    try (now apply nodup_keys_set).
  intros t l. rewrite get_set.
  destruct (String.eqb tag t); [|apply Hfin].
  intros [= <-]. apply Forall_app. split.
  - destruct (get tag (tag_ratings st)) as [l0|] eqn:E; simpl;
      [now apply (Hfin tag)|constructor].
  - constructor; [now apply Hrv|constructor].
Qed.

Lemma fold_tags_spec (rv : option float) (tags : list string)
    (st : agg_state) (t : string) :
  counts_at t (fold_left (aggregate_tag rv) tags st)
  = counts_at t st + Z.of_nat (count_occ string_dec tags t)
  /\ ratings_at t (fold_left (aggregate_tag rv) tags st)
     = ratings_at t st
       ++ match rv with
          | Some f => repeat f (count_occ string_dec tags t)
          | None => []
          end
  /\ all_ratings (fold_left (aggregate_tag rv) tags st) = all_ratings st.
Proof.
  revert st. induction tags as [|tag tags IH]; intros st; cbn [fold_left].
  - simpl. rewrite Z.add_0_r. destruct rv; now rewrite app_nil_r.
  - destruct (IH (aggregate_tag rv st tag)) as (H1 & H2 & H3).
    rewrite H1, H2, H3, aggregate_tag_counts, aggregate_tag_ratings,
      aggregate_tag_all.
    cbn [count_occ]. unfold eq_indicator.
    destruct (string_dec tag t); split; try split; auto; try lia.
    + destruct rv; rewrite <- app_assoc; reflexivity.
    + destruct rv; rewrite <- app_assoc; reflexivity.
Qed.

Lemma fold_tags_invariant (rv : option float) (tags : list string)
    (st : agg_state) :
  (forall f, rv = Some f -> is_finite f = true) ->
  agg_invariant st -> agg_invariant (fold_left (aggregate_tag rv) tags st).
Proof.
  intros Hrv. revert st. induction tags as [|tag tags IH]; intros st Hst;
    cbn [fold_left]; auto.
  apply IH. now apply aggregate_tag_invariant.
Qed.

Lemma fold_tags_none_ratings (tags : list string) (st : agg_state) :
  tag_ratings (fold_left (aggregate_tag None) tags st) = tag_ratings st.
Proof.
  revert st. induction tags as [|tag tags IH]; intros st; cbn [fold_left];
    auto. now rewrite IH.
Qed.

Lemma aggregate_record_spec (st : agg_state) (r : SolvedRecord) (t : string) :
  counts_at t (aggregate_record st r)
  = counts_at t st + Z.of_nat (tag_occurrences t r)
  /\ ratings_at t (aggregate_record st r)
     = ratings_at t st
       ++ match rating_value (rec_rating r) with
          | Some f => repeat f (tag_occurrences t r)
          | None => []
          end
  /\ all_ratings (aggregate_record st r)
     = all_ratings st
       ++ match rating_value (rec_rating r) with
          | Some f => [f]
          | None => []
          end.
Proof.
  destruct r as [[[ts tags] nm] rating]. unfold aggregate_record.
  cbn [rec_rating rec_tags tag_occurrences].
  set (st0 := mkAgg (tag_counts st) (tag_ratings st) _).
  destruct (fold_tags_spec (rating_value rating) tags st0 t) as (H1 & H2 & H3).
  rewrite H1, H2, H3. unfold tag_occurrences. cbn [rec_tags].
  split; [reflexivity|]. split; [reflexivity|].
  subst st0. cbn [all_ratings].
  destruct (rating_value rating); [reflexivity|now rewrite app_nil_r].
Qed.

Lemma aggregate_record_invariant (st : agg_state) (r : SolvedRecord) :
  agg_invariant st -> agg_invariant (aggregate_record st r).
Proof.
  intros [Hpos Hnd Hfin Hall].
  destruct r as [[[ts tags] nm] rating]. unfold aggregate_record.
  apply fold_tags_invariant.
  - intros f. apply rating_value_finite.
  - constructor; cbn [tag_counts tag_ratings all_ratings]; auto.
    destruct (rating_value rating) as [f|] eqn:E; auto.
    apply Forall_app. split; auto. constructor; [|constructor].
    now apply rating_value_finite with rating.
Qed.

Lemma aggregate_fold_spec (records : list SolvedRecord) (st : agg_state)
    (t : string) :
  counts_at t (fold_left aggregate_record records st)
  = counts_at t st + expected_count t records
  /\ ratings_at t (fold_left aggregate_record records st)
     = ratings_at t st ++ expected_ratings t records
  /\ all_ratings (fold_left aggregate_record records st)
     = all_ratings st ++ expected_all_ratings records.
Proof.
  revert st. induction records as [|r records IH]; intros st; cbn [fold_left].
  - simpl. now rewrite Z.add_0_r, !app_nil_r.
  - destruct (IH (aggregate_record st r)) as (H1 & H2 & H3).
    destruct (aggregate_record_spec st r t) as (G1 & G2 & G3).
    rewrite H1, H2, H3, G1, G2, G3.
    change (expected_count t (r :: records))
      with (Z.of_nat (tag_occurrences t r) + expected_count t records).
    change (expected_ratings t (r :: records))
      with (match rating_value (rec_rating r) with
            | Some f => repeat f (tag_occurrences t r)
            | None => []
            end ++ expected_ratings t records).
    change (expected_all_ratings (r :: records))
      with (match rating_value (rec_rating r) with
            | Some f => [f]
            | None => []
            end ++ expected_all_ratings records).
    rewrite <- !app_assoc. repeat split; auto. lia.
Qed.

Lemma aggregate_fold_invariant (records : list SolvedRecord)
    (st : agg_state) :
  agg_invariant st -> agg_invariant (fold_left aggregate_record records st).
Proof.
  revert st. induction records as [|r records IH]; intros st Hst;
    cbn [fold_left]; auto.
  apply IH. now apply aggregate_record_invariant.
Qed.

Lemma agg_init_invariant : agg_invariant agg_init.
Proof.
  constructor; simpl; try discriminate; constructor.
Qed.

(** The three accumulators, in terms of the solved records. *)
Lemma aggregate_spec (solved_map : PyDict.t SolvedRecord) (t : string) :
  counts_at t (aggregate solved_map)
  = expected_count t (values solved_map)
  /\ ratings_at t (aggregate solved_map)
     = expected_ratings t (values solved_map)
  /\ all_ratings (aggregate solved_map)
     = expected_all_ratings (values solved_map).
Proof.
  unfold aggregate.
  destruct (aggregate_fold_spec (values solved_map) agg_init t)
    as (H1 & H2 & H3).
  rewrite H1, H2, H3. repeat split.
Qed.

Lemma aggregate_invariant (solved_map : PyDict.t SolvedRecord) :
  agg_invariant (aggregate solved_map).
Proof. apply aggregate_fold_invariant, agg_init_invariant. Qed.

End Aggregation.

(** ** The tag report *)

Lemma map_result_total {A B : Type} (f : A -> result B) (R : A -> B -> Prop)
    (l : list A) :
  (forall a, In a l -> exists b, f a = Return b /\ R a b) ->
  exists bs, map_result f l = Return bs /\ Forall2 R l bs.
Proof.
  induction l as [|a l IH]; intros H; simpl.
  - exists []. split; [reflexivity|constructor].
  - destruct (H a (or_introl eq_refl)) as (b & Hb & Rb).
    destruct IH as (bs & Hbs & Rbs); [intros a' Ha'; apply H; now right|].
    exists (b :: bs). rewrite Hb, Hbs. split; [reflexivity|].
    now constructor.
Qed.

Lemma Forall2_In_right {A B : Type} (R : A -> B -> Prop) (l : list A)
    (l' : list B) (b : B) :
  Forall2 R l l' -> In b l' -> exists a, In a l /\ R a b.
Proof.
  induction 1 as [|a0 b0 l l' Hab HF IH]; intros Hin; [contradiction|].
  destruct Hin as [<-|Hin].
  - exists a0. split; [now left|exact Hab].
  - destruct (IH Hin) as (a & Ha & Rab). exists a. split; [now right|auto].
Qed.

(** One line: always produced, with the statistics of its rating
    list. *)
Lemma tag_line_of_spec (st : agg_state) (item : string * Z) :
  agg_invariant st ->
  exists line,
    tag_line_of (tag_ratings st) item = Return line
    /\ line_for (tag_ratings st) item line.
Proof.
  intros Hinv. destruct item as [tag cnt]. unfold tag_line_of, line_for.
  cbn [fst snd].
  destruct (PyDict.get tag (tag_ratings st)) as [rlist|] eqn:E;
    cbn [get_default].
  - destruct rlist as [|x rest].
    + exists (TagLine tag cnt None). split; [reflexivity|].
      exists None. split; reflexivity.
    + pose proof (inv_ratings_finite st Hinv tag _ E) as Hfin.
      rewrite Forall_forall in Hfin.
      pose proof (py_min_least x rest) as Hmin.
      pose proof (py_max_greatest x rest) as Hmax.
      destruct (py_int_finite (py_min x rest) (Hfin _ (proj1 Hmin)))
        as [zmn Hzmn].
      destruct (py_int_finite (py_max x rest) (Hfin _ (proj1 Hmax)))
        as [zmx Hzmx].
      rewrite Hzmn, Hzmx. cbn [bind].
      eexists. split; [reflexivity|].
      eexists. split; [reflexivity|].
      exists (py_min x rest), (py_max x rest), zmn, zmx. auto.
  - exists (TagLine tag cnt None). split; [reflexivity|].
    exists None. split; reflexivity.
Qed.

Lemma tag_report_lines (st : agg_state) :
  agg_invariant st ->
  tag_counts st <> [] ->
  exists lines,
    tag_report st = Return lines
    /\ Forall2 (line_for (tag_ratings st))
               (sorted tag_key_ltb (PyDict.items (tag_counts st))) lines.
Proof.
  intros Hinv Hne. unfold tag_report.
  destruct (tag_counts st) as [|item items] eqn:E; [congruence|].
  apply map_result_total. intros a _. now apply tag_line_of_spec.
Qed.

(** The report is always produced. *)
Lemma tag_report_total (st : agg_state) :
  agg_invariant st -> exists lines, tag_report st = Return lines.
Proof.
  intros Hinv. destruct (tag_counts st) as [|item items] eqn:E.
  - exists [NoTagsLine]. unfold tag_report. now rewrite E.
  - destruct (tag_report_lines st Hinv) as (lines & H & _); [congruence|].
    eauto.
Qed.

(** ** Integers that binary64 holds exactly *)

Lemma digits2_pos_size (m : positive) : digits2_pos m = Pos.size m.
Proof. induction m; simpl; congruence. Qed.

Lemma digits2_pos_bounds (m : positive) :
  2 ^ (Zpos (digits2_pos m) - 1) <= Zpos m < 2 ^ Zpos (digits2_pos m).
Proof.
  rewrite digits2_pos_size. split.
  - pose proof (Pos.size_le m) as H.
    assert (H' : 2 ^ Zpos (Pos.size m) <= 2 * Zpos m).
    { change (2 * Zpos m) with (Zpos m~0). rewrite <- Pos2Z.inj_pow.
      now apply Pos2Z.pos_le_pos. }
    replace (Zpos (Pos.size m)) with (Zpos (Pos.size m) - 1 + 1) in H' by lia.
    rewrite Z.pow_add_r in H' by lia. lia.
  - pose proof (Pos.size_gt m) as H.
    change (2 ^ Zpos (Pos.size m)) with (Z.pow_pos 2 (Pos.size m)).
    rewrite <- Pos2Z.inj_pow_pos. now apply Pos2Z.pos_lt_pos.
Qed.

Lemma iter_xO_spec (k m : positive) :
  Zpos (Pos.iter xO m k) = Zpos m * 2 ^ Zpos k
  /\ digits2_pos (Pos.iter xO m k) = (digits2_pos m + k)%positive.
Proof.
  induction k as [|k IH] using Pos.peano_ind.
  - simpl. split; [lia|]. now rewrite Pos.add_1_r.
  - rewrite Pos.iter_succ. destruct IH as [IH1 IH2]. split.
    + rewrite Pos2Z.inj_xO, IH1, Pos2Z.inj_succ, Z.pow_succ_r by lia. lia.
    + cbn [digits2_pos]. rewrite IH2. lia.
Qed.

Lemma binary_round_small (s : bool) (m : positive) :
  Zpos m < 2 ^ 53 ->
  binary_round prec emax s m 0 = canon s m.
Proof.
  intros Hlt.
  pose proof (digits2_pos_bounds m) as [Hlo Hhi].
  assert (Hd : Zpos (digits2_pos m) <= 53).
  { destruct (Z.le_gt_cases (Zpos (digits2_pos m)) 53); auto.
    assert (2 ^ 53 <= 2 ^ (Zpos (digits2_pos m) - 1))
      by (apply Z.pow_le_mono_r; lia). lia. }
  unfold binary_round, canon.
  assert (Hf : fexp prec emax (Zpos (digits2_pos m) + 0)
               = Zpos (digits2_pos m) - 53).
  { unfold fexp, SpecFloat.emin, prec, emax. lia. }
  rewrite Hf. unfold shl_align.
  replace (Zpos (digits2_pos m) - 53 - 0) with (Zpos (digits2_pos m) - 53)
    by lia.
  destruct (Zpos (digits2_pos m) - 53) as [|p|k] eqn:E; try lia.
  - (* 53 digits *)
    unfold binary_round_aux, shr_fexp.
    cbn [Zdigits2 shr_record_of_loc].
    assert (Hf2 : fexp prec emax (Zpos (digits2_pos m) + 0) - 0 = 0) by lia.
    rewrite Hf2. cbn [shr shr_m loc_of_shr_record round_nearest_even].
    cbn [Zdigits2]. rewrite Hf2. cbn [shr shr_m]. reflexivity.
  - destruct (iter_xO_spec k m) as [Hv Hdig].
    unfold binary_round_aux, shr_fexp.
    cbn [Zdigits2 shr_record_of_loc].
    assert (Hf2 : fexp prec emax
                    (Zpos (digits2_pos (Pos.iter xO m k)) + Zneg k)
                  - Zneg k = 0).
    { rewrite Hdig. unfold fexp, SpecFloat.emin, prec, emax. lia. }
    rewrite Hf2. cbn [shr shr_m loc_of_shr_record round_nearest_even].
    cbn [Zdigits2]. rewrite Hf2. cbn [shr shr_m].
    assert (Hle : (Zneg k <=? emax - prec) = true)
      by (apply Z.leb_le; unfold emax, prec; lia).
    rewrite Hle. reflexivity.
Qed.

Lemma canon_form (s : bool) (m : positive) :
  Zpos m < 2 ^ 53 ->
  exists cm,
    canon s m = S754_finite s cm (Zpos (digits2_pos m) - 53)
    /\ Zpos cm = Zpos m * 2 ^ (53 - Zpos (digits2_pos m))
    /\ Zpos (digits2_pos m) <= 53.
Proof.
  intros Hlt.
  pose proof (digits2_pos_bounds m) as [Hlo Hhi].
  assert (Hd : Zpos (digits2_pos m) <= 53).
  { destruct (Z.le_gt_cases (Zpos (digits2_pos m)) 53); auto.
    assert (2 ^ 53 <= 2 ^ (Zpos (digits2_pos m) - 1))
      by (apply Z.pow_le_mono_r; lia). lia. }
  unfold canon.
  destruct (Zpos (digits2_pos m) - 53) as [|p|k] eqn:E; try lia.
  - exists m. split; [reflexivity|]. split; [|exact Hd].
    replace (53 - Zpos (digits2_pos m)) with 0 by lia. lia.
  - exists (Pos.iter xO m k). split; [reflexivity|]. split; [|exact Hd].
    destruct (iter_xO_spec k m) as [Hv _]. rewrite Hv.
    replace (53 - Zpos (digits2_pos m)) with (Zpos k) by lia. reflexivity.
Qed.

Lemma py_float_small (z : Z) :
  Z.abs z < 2 ^ 53 -> py_float z = Return (float_of_small z).
Proof.
  intros Hz. unfold py_float, binary_normalize.
  destruct z as [|m|m]; [reflexivity| |].
  - rewrite binary_round_small by (simpl in Hz; lia). simpl.
    destruct (canon_form false m) as (cm & -> & _); [simpl in Hz; lia|].
    reflexivity.
  - rewrite binary_round_small by (simpl in Hz; lia). simpl.
    destruct (canon_form true m) as (cm & -> & _); [simpl in Hz; lia|].
    reflexivity.
Qed.

Lemma py_int_small (z : Z) :
  Z.abs z < 2 ^ 53 -> py_int (float_of_small z) = Return z.
Proof.
  intros Hz. destruct z as [|m|m]; [reflexivity| |]; simpl.
  - destruct (canon_form false m) as (cm & -> & Hcm & Hd);
      [simpl in Hz; lia|].
    unfold py_int. f_equal. cbn [cond_Zopp].
    destruct (Z.leb_spec 0 (Zpos (digits2_pos m) - 53)).
    + replace (53 - Zpos (digits2_pos m)) with 0 in Hcm by lia.
      replace (Zpos (digits2_pos m) - 53) with 0 by lia. lia.
    + rewrite Hcm.
      replace (- (Zpos (digits2_pos m) - 53)) with (53 - Zpos (digits2_pos m))
        by lia.
      apply Z.div_mul. apply Z.pow_nonzero; lia.
  - destruct (canon_form true m) as (cm & -> & Hcm & Hd);
      [simpl in Hz; lia|].
    unfold py_int. f_equal. cbn [cond_Zopp].
    destruct (Z.leb_spec 0 (Zpos (digits2_pos m) - 53)).
    + replace (53 - Zpos (digits2_pos m)) with 0 in Hcm by lia.
      replace (Zpos (digits2_pos m) - 53) with 0 by lia. lia.
    + rewrite Hcm.
      replace (- (Zpos (digits2_pos m) - 53)) with (53 - Zpos (digits2_pos m))
        by lia.
      rewrite Z.div_mul by (apply Z.pow_nonzero; lia). reflexivity.
Qed.

Lemma canon_compare (m1 m2 : positive) (cm1 cm2 : positive) :
  Zpos m1 < 2 ^ 53 -> Zpos m2 < 2 ^ 53 ->
  Zpos cm1 = Zpos m1 * 2 ^ (53 - Zpos (digits2_pos m1)) ->
  Zpos cm2 = Zpos m2 * 2 ^ (53 - Zpos (digits2_pos m2)) ->
  Zpos (digits2_pos m1) <= 53 -> Zpos (digits2_pos m2) <= 53 ->
  match Z.compare (Zpos (digits2_pos m1) - 53) (Zpos (digits2_pos m2) - 53)
  with
  | Lt => Lt
  | Gt => Gt
  | Eq => Pos.compare_cont Eq cm1 cm2
  end = Pos.compare m1 m2.
Proof.
  intros H1 H2 Hc1 Hc2 Hd1 Hd2.
  pose proof (digits2_pos_bounds m1) as [Hlo1 Hhi1].
  pose proof (digits2_pos_bounds m2) as [Hlo2 Hhi2].
  change (Pos.compare_cont Eq cm1 cm2) with (Pos.compare cm1 cm2).
  destruct (Z.compare_spec (Zpos (digits2_pos m1) - 53)
                           (Zpos (digits2_pos m2) - 53)) as [E|E|E].
  - assert (Ed : Zpos (digits2_pos m1) = Zpos (digits2_pos m2)) by lia.
    rewrite Ed in Hc1.
    set (P := 2 ^ (53 - Zpos (digits2_pos m2))) in *.
    assert (HP : 0 < P) by (apply Z.pow_pos_nonneg; lia).
    destruct (Pos.compare_spec cm1 cm2) as [C|C|C];
      destruct (Pos.compare_spec m1 m2) as [D|D|D]; auto; exfalso;
      try (subst; nia); try (apply Pos2Z.pos_lt_pos in C, D; nia);
      try (apply Pos2Z.pos_lt_pos in C; subst; nia);
      try (apply Pos2Z.pos_lt_pos in D; subst; nia).
  - symmetry. apply Pos.compare_lt_iff. apply Pos2Z.pos_lt_pos.
    assert (2 ^ Zpos (digits2_pos m1) <= 2 ^ (Zpos (digits2_pos m2) - 1))
      by (apply Z.pow_le_mono_r; lia). lia.
  - symmetry. apply Pos.compare_gt_iff. apply Pos2Z.pos_lt_pos.
    assert (2 ^ Zpos (digits2_pos m2) <= 2 ^ (Zpos (digits2_pos m1) - 1))
      by (apply Z.pow_le_mono_r; lia). lia.
Qed.

Lemma SFltb_small (z1 z2 : Z) :
  Z.abs z1 < 2 ^ 53 -> Z.abs z2 < 2 ^ 53 ->
  SFltb (float_of_small z1) (float_of_small z2) = (z1 <? z2).
Proof.
  intros H1 H2. unfold SFltb.
  destruct z1 as [|m1|m1], z2 as [|m2|m2]; simpl in H1, H2;
    cbn [float_of_small];
    try (destruct (canon_form false m1) as (cm1 & -> & Hc1 & Hd1); [lia|]);
    try (destruct (canon_form true m1) as (cm1 & -> & Hc1 & Hd1); [lia|]);
    try (destruct (canon_form false m2) as (cm2 & -> & Hc2 & Hd2); [lia|]);
    try (destruct (canon_form true m2) as (cm2 & -> & Hc2 & Hd2); [lia|]);
    cbn [SFcompare]; try reflexivity.
  - rewrite (canon_compare m1 m2 cm1 cm2) by (auto; lia).
    unfold Z.ltb. simpl. reflexivity.
  - assert (Hc := canon_compare m1 m2 cm1 cm2 ltac:(lia) ltac:(lia)
                    Hc1 Hc2 Hd1 Hd2).
    unfold Z.ltb. cbn [Z.compare].
    destruct (Z.compare (Zpos (digits2_pos m1) - 53)
                        (Zpos (digits2_pos m2) - 53));
      rewrite <- Hc; reflexivity.
Qed.

Lemma rating_value_small (z : Z) :
  Z.abs z < 2 ^ 53 -> rating_value (Some z) = Some (float_of_small z).
Proof.
  intros Hz. unfold rating_value. now rewrite py_float_small.
Qed.

Lemma expected_ratings_small (t : string) (records : list SolvedRecord) :
  ratings_in_range records ->
  expected_ratings t records
  = map float_of_small (expected_int_ratings t records)
  /\ (forall z, In z (expected_int_ratings t records) -> Z.abs z < 2 ^ 53).
Proof.
  induction records as [|r records IH]; intros Hr.
  - split; [reflexivity|intros z []].
  - destruct IH as [IH1 IH2].
    { intros r' z Hin. apply Hr. now right. }
    change (expected_ratings t (r :: records))
      with (match rating_value (rec_rating r) with
            | Some f => repeat f (tag_occurrences t r)
            | None => []
            end ++ expected_ratings t records).
    change (expected_int_ratings t (r :: records))
      with (match rec_rating r with
            | Some z => repeat z (tag_occurrences t r)
            | None => []
            end ++ expected_int_ratings t records).
    rewrite map_app, IH1.
    destruct (rec_rating r) as [z|] eqn:E.
    + pose proof (Hr r z (or_introl eq_refl) E) as Hz.
      rewrite (rating_value_small z Hz). split.
      * f_equal. induction (tag_occurrences t r) as [|n IHn]; simpl;
          congruence.
      * intros z' Hin. apply in_app_iff in Hin. destruct Hin as [Hin|Hin];
          [|auto]. apply repeat_spec in Hin. now subst.
    + split; [reflexivity|]. intros z' Hin. now apply IH2.
Qed.

(** On ratings in range, the float statistics are the integer ones. *)
Lemma stats_of_small (zs : list Z) (stats : option (Z * Z * float)) :
  (forall z, In z zs -> Z.abs z < 2 ^ 53) ->
  stats_of (map float_of_small zs) stats -> int_stats_of zs stats.
Proof.
  intros Hr. destruct zs as [|z0 zs]; [auto|]. cbn [map stats_of].
  intros (mn & mx & zmn & zmx & [Hmn Hleast] & [Hmx Hgreatest] & Himn
          & Himx & ->).
  change (float_of_small z0 :: map float_of_small zs)
    with (map float_of_small (z0 :: zs)) in *.
  apply in_map_iff in Hmn, Hmx.
  destruct Hmn as (a & <- & Ha). destruct Hmx as (b & <- & Hb).
  rewrite py_int_small in Himn, Himx by auto.
  injection Himn as <-. injection Himx as <-.
  exists a, b. split; [reflexivity|]. repeat split; auto.
  - intros z Hz.
    specialize (Hleast (float_of_small z) (in_map float_of_small _ _ Hz)).
    rewrite SFltb_small in Hleast by auto.
    apply Z.ltb_ge in Hleast. exact Hleast.
  - intros z Hz.
    specialize (Hgreatest (float_of_small z) (in_map float_of_small _ _ Hz)).
    rewrite SFltb_small in Hgreatest by auto.
    apply Z.ltb_ge in Hgreatest. exact Hgreatest.
Qed.

(** The report of the specification's scenario: one line, tag [dp],
    count 1, minimum and maximum 800, mean 800.0. *)
(** ** Rounding in [SpecFloat] *)

Lemma locates_intro (N D m f : Z) (r s : bool) :
  0 < D -> 0 <= m -> 0 <= f < D -> N = m * D + f ->
  r = (D <=? 2 * f) -> s = negb ((f =? 0) || (2 * f =? D)) ->
  locates N D (Build_shr_record m r s).
Proof.
  intros HD Hm Hf HN Hr Hs.
  assert (Hq : N / D = m) by (symmetry; apply (Z.div_unique N D m f); lia).
  assert (Hrem : N mod D = f)
    by (symmetry; apply (Z.mod_unique N D m f); lia).
  unfold locates. cbn [shr_m shr_r shr_s]. rewrite Hq, Hrem.
  repeat split; auto; nia.
Qed.

Lemma locates_elim (N D : Z) (mrs : shr_record) :
  locates N D mrs ->
  exists f, 0 < D /\ 0 <= shr_m mrs /\ 0 <= f < D
            /\ N = shr_m mrs * D + f
            /\ shr_r mrs = (D <=? 2 * f)
            /\ shr_s mrs = negb ((f =? 0) || (2 * f =? D)).
Proof.
  intros (HD & HN & Hm & Hr & Hs). exists (N mod D).
  pose proof (Z.mod_pos_bound N D HD) as Hb.
  pose proof (Z.div_mod N D ltac:(lia)) as Hdm.
  rewrite Hm. repeat split; auto; try lia.
  apply Z.div_pos; lia.
Qed.

Lemma shr_1_spec (N D : Z) (mrs : shr_record) :
  locates N D mrs -> locates N (2 * D) (shr_1 mrs).
Proof.
  intros H. destruct (locates_elim N D mrs H)
    as (f & HD & Hm & Hf & HN & Hr & Hs).
  destruct mrs as [m r s]. cbn [shr_m shr_r shr_s] in *.
  assert (Hrs : r || s = negb (f =? 0)).
  { rewrite Hr, Hs.
    destruct (Z.leb_spec D (2 * f)), (Z.eqb_spec f 0), (Z.eqb_spec (2 * f) D);
      cbn; try reflexivity; lia. }
  unfold shr_1. rewrite Hrs.
  destruct m as [|[p|p|]|p]; try lia.
  - apply (locates_intro N (2 * D) 0 f); lia.
  - apply (locates_intro N (2 * D) (Zpos p) (D + f)); lia.
  - apply (locates_intro N (2 * D) (Zpos p) f); lia.
  - apply (locates_intro N (2 * D) 0 (D + f)); lia.
Qed.

Lemma iter_shr_1_spec (p : positive) (N D : Z) (mrs : shr_record) :
  locates N D mrs -> locates N (D * 2 ^ Zpos p) (iter_pos shr_1 p mrs).
Proof.
  revert D mrs. induction p as [p IH|p IH|]; intros D mrs H; cbn [iter_pos].
  - apply shr_1_spec in H. apply IH in H. apply IH in H.
    replace (D * 2 ^ Zpos p~1) with (2 * D * 2 ^ Zpos p * 2 ^ Zpos p);
      [exact H|].
    replace (Zpos p~1) with (Zpos p + Zpos p + 1) by lia.
    rewrite !Z.pow_add_r by lia. lia.
  - apply IH in H. apply IH in H.
    replace (D * 2 ^ Zpos p~0) with (D * 2 ^ Zpos p * 2 ^ Zpos p);
      [exact H|].
    replace (Zpos p~0) with (Zpos p + Zpos p) by lia.
    rewrite !Z.pow_add_r by lia. lia.
  - apply shr_1_spec in H. now replace (D * 2 ^ 1) with (2 * D) by lia.
Qed.

Lemma shr_spec (N D n e : Z) (mrs : shr_record) :
  locates N D mrs -> 0 <= n ->
  locates N (D * 2 ^ n) (fst (shr mrs e n)) /\ snd (shr mrs e n) = e + n.
Proof.
  intros H Hn. unfold shr. destruct n as [|p|p]; try lia; cbn [fst snd].
  - rewrite Z.mul_1_r. split; [exact H|lia].
  - split; [now apply iter_shr_1_spec|reflexivity].
Qed.

Lemma Zdigits2_unique (m k : Z) :
  0 < m -> 2 ^ (k - 1) <= m < 2 ^ k -> Zdigits2 m = k.
Proof.
  intros Hm [Hlo Hhi]. destruct m as [|p|p]; try lia. cbn [Zdigits2].
  pose proof (digits2_pos_bounds p) as [Hl Hh].
  set (d := Zpos (digits2_pos p)) in *.
  destruct (Z.lt_trichotomy d k) as [H|[H|H]]; [|exact H|].
  - assert (2 ^ d <= 2 ^ (k - 1)) by (apply Z.pow_le_mono_r; lia). lia.
  - assert (0 <= k).
    { destruct (Z.le_gt_cases 0 k); [assumption|].
      rewrite (Z.pow_neg_r 2 k) in Hhi by lia. lia. }
    assert (2 ^ k <= 2 ^ (d - 1)) by (apply Z.pow_le_mono_r; lia). lia.
Qed.

Lemma Zdigits2_bounds (m : Z) :
  0 < m -> 2 ^ (Zdigits2 m - 1) <= m < 2 ^ Zdigits2 m /\ 0 < Zdigits2 m.
Proof.
  intros Hm. destruct m as [|p|p]; try lia. cbn [Zdigits2].
  split; [apply digits2_pos_bounds|lia].
Qed.

Lemma fexp_normal (x : Z) :
  -1021 <= x -> fexp prec emax x = x - 53.
Proof. intros H. unfold fexp, SpecFloat.emin, prec, emax. lia. Qed.

Lemma round_nearest_even_spec (N D : Z) (mrs : shr_record) :
  locates N D mrs ->
  let m := round_nearest_even (shr_m mrs) (loc_of_shr_record mrs) in
  (m = shr_m mrs \/ m = shr_m mrs + 1)
  /\ 2 * Z.abs (m * D - N) <= D
  /\ (N = shr_m mrs * D -> m = shr_m mrs).
Proof.
  intros H. destruct (locates_elim N D mrs H)
    as (f & HD & Hm & Hf & HN & Hr & Hs).
  destruct mrs as [m r s]. cbn [shr_m shr_r shr_s] in *.
  destruct (Z.leb_spec D (2 * f)), (Z.eqb_spec f 0), (Z.eqb_spec (2 * f) D);
    cbn in Hr, Hs; subst r s; cbn [loc_of_shr_record round_nearest_even];
    try lia; try (split; [auto|split; nia]).
  destruct (Z.even m); split; auto; split; nia.
Qed.

(** Rounding a located fraction whose mantissa has at least 53 digits,
    away from overflow and underflow. *)
Lemma binary_round_aux_spec (sx : bool) (N D mz ez : Z) (lz : location) :
  locates N D (shr_record_of_loc mz lz) -> 0 < mz ->
  53 <= Zdigits2 mz ->
  -1021 <= Zdigits2 mz + ez -> Zdigits2 mz + ez <= 1023 ->
  exists m e,
    binary_round_aux prec emax sx mz ez lz = S754_finite sx m e
    /\ 2 ^ 52 <= Zpos m < 2 ^ 53
    /\ ez <= e <= 971
    /\ -1074 <= e
    /\ 2 * Z.abs (Zpos m * 2 ^ (e - ez) * D - N) <= 2 ^ (e - ez) * D
    /\ (forall c, N = c * (D * 2 ^ (Zdigits2 mz - 53)) ->
                  Zpos m = c /\ e = Zdigits2 mz + ez - 53).
Proof.
  intros Hloc Hmz Hd Hlo Hhi.
  destruct (Zdigits2_bounds mz Hmz) as [[Hml Hmh] _].
  set (d := Zdigits2 mz) in *.
  assert (Hmrs : shr_m (shr_record_of_loc mz lz) = mz)
    by (destruct lz as [|[| |]]; reflexivity).
  unfold binary_round_aux, shr_fexp. fold d.
  rewrite (fexp_normal (d + ez)) by lia.
  replace (d + ez - 53 - ez) with (d - 53) by lia.
  destruct (shr_spec N D (d - 53) ez _ Hloc ltac:(lia)) as [Hloc' He'].
  destruct (shr (shr_record_of_loc mz lz) ez (d - 53)) as [mrs' e'].
  cbn [fst snd] in Hloc', He'. subst e'.
  set (P := 2 ^ (d - 53)) in *.
  assert (HP : 0 < P) by (apply Z.pow_pos_nonneg; lia).
  assert (HPd : 2 ^ d = 2 ^ 53 * P).
  { unfold P. rewrite <- Z.pow_add_r by lia. f_equal. lia. }
  assert (HPd1 : 2 ^ (d - 1) = 2 ^ 52 * P).
  { unfold P. rewrite <- Z.pow_add_r by lia. f_equal. lia. }
  assert (HD : 0 < D) by apply Hloc.
  assert (Hm' : shr_m mrs' = mz / P).
  { destruct Hloc' as (_ & _ & Hm' & _). destruct Hloc as (_ & _ & Hm0 & _).
    rewrite Hm', <- Z.div_div by lia. rewrite Hmrs in Hm0. now rewrite Hm0. }
  assert (Hm'b : 2 ^ 52 <= shr_m mrs' < 2 ^ 53).
  { rewrite Hm'. split.
    - apply Z.div_le_lower_bound; lia.
    - apply Z.div_lt_upper_bound; lia. }
  destruct (round_nearest_even_spec N (D * P) mrs' Hloc')
    as (Hcase & Hbound & Hexact).
  set (m'' := round_nearest_even (shr_m mrs') (loc_of_shr_record mrs')) in *.
  assert (Hm''b : 2 ^ 52 <= m'' <= 2 ^ 53) by lia.
  assert (Hex : forall c, N = c * (D * P) -> m'' = c).
  { intros c HN.
    assert (Hc : shr_m mrs' = c).
    { destruct Hloc' as (_ & _ & Hq & _). rewrite Hq, HN.
      apply Z.div_mul. nia. }
    rewrite <- Hc in HN. rewrite (Hexact HN). exact Hc. }
  destruct (Z.eq_dec m'' (2 ^ 53)) as [Hcarry|Hnc].
  - (* the mantissa was rounded up to the next power of two *)
    rewrite Hcarry. change (Zdigits2 (2 ^ 53)) with 54.
    rewrite (fexp_normal (54 + (ez + (d - 53)))) by lia.
    replace (54 + (ez + (d - 53)) - 53 - (ez + (d - 53))) with 1 by lia.
    cbn [shr_record_of_loc shr iter_pos shr_1 shr_m].
    change (Z.pow_pos 2 53) with (2 ^ 53).
    exists (4503599627370496%positive), (ez + (d - 53) + 1).
    replace (ez + (d - 53) + 1 <=? emax - prec) with true
      by (symmetry; apply Z.leb_le; unfold emax, prec; lia).
    split; [reflexivity|]. split; [lia|]. split; [lia|]. split; [lia|].
    replace (ez + (d - 53) + 1 - ez) with (d - 53 + 1) by lia.
    rewrite Z.pow_add_r by lia. fold P. change (2 ^ 1) with 2.
    rewrite Hcarry in Hbound.
    change (Zpos 4503599627370496) with (2 ^ 52).
    replace (2 ^ 52 * (P * 2) * D - N) with (2 ^ 53 * (D * P) - N)
      by (change (2 ^ 53) with (2 * 2 ^ 52); ring).
    split; [nia|].
    intros c HN. exfalso. specialize (Hex c HN).
    destruct Hloc' as (_ & _ & Hq & _). rewrite HN in Hq.
    rewrite Z.div_mul in Hq by nia. lia.
  - assert (Hdig : Zdigits2 m'' = 53)
      by (apply Zdigits2_unique; [lia|change (53 - 1) with 52; lia]).
    rewrite Hdig. rewrite (fexp_normal (53 + (ez + (d - 53)))) by lia.
    replace (53 + (ez + (d - 53)) - 53 - (ez + (d - 53))) with 0 by lia.
    cbn [shr_record_of_loc shr shr_m].
    destruct m'' as [|m|m] eqn:Em; try lia.
    exists m, (ez + (d - 53)).
    replace (ez + (d - 53) <=? emax - prec) with true
      by (symmetry; apply Z.leb_le; unfold emax, prec; lia).
    split; [reflexivity|]. split; [lia|]. split; [lia|]. split; [lia|].
    replace (ez + (d - 53) - ez) with (d - 53) by lia. fold P.
    replace (Zpos m * P * D - N) with (Zpos m * (D * P) - N) by ring.
    split; [lia|].
    intros c HN. split; [exact (Hex c HN)|lia].
Qed.

Lemma new_location_spec (N D q r : Z) :
  0 < D -> 0 <= q -> 0 <= r < D -> N = q * D + r ->
  locates N D (shr_record_of_loc q (new_location D r)).
Proof.
  intros HD Hq Hr HN. unfold new_location, new_location_even,
    new_location_odd.
  destruct (Z.even D) eqn:Ev.
  - destruct (Z.eqb_spec r 0) as [E|E].
    + apply (locates_intro N D q r); lia.
    + destruct (Z.compare_spec (2 * r) D); cbn [shr_record_of_loc];
        apply (locates_intro N D q r); lia.
  - assert (Hodd : D <> 2 * r).
    { intros E. rewrite E, Z.even_mul in Ev. discriminate. }
    destruct (Z.eqb_spec r 0) as [E|E].
    + apply (locates_intro N D q r); lia.
    + destruct (Z.compare_spec (2 * r + 1) D); cbn [shr_record_of_loc];
        apply (locates_intro N D q r); lia.
Qed.

(** Division of two finite floats, away from overflow and underflow:
    the result has a full mantissa and lies within half a unit in its
    last place of the quotient.  The quotient is read at a common
    scale: [mx * 2^s / my] counts units of [2^(e - k)]. *)
Lemma SFdiv_spec (sx sy : bool) (mx my : positive) (ex ey : Z) :
  -1000 <= Zpos (digits2_pos mx) + ex - (Zpos (digits2_pos my) + ey)
        <= 1000 ->
  exists m e k s,
    SFdiv prec emax (S754_finite sx mx ex) (S754_finite sy my ey)
    = S754_finite (xorb sx sy) m e
    /\ 2 ^ 52 <= Zpos m < 2 ^ 53
    /\ -1074 <= e <= 971
    /\ 0 <= k /\ 0 <= s /\ e - k = ex - ey - s
    /\ 2 * Z.abs (Zpos m * 2 ^ k * Zpos my - Zpos mx * 2 ^ s)
       <= 2 ^ k * Zpos my.
Proof.
  intros Hr.
  pose proof (digits2_pos_bounds mx) as [Hxl Hxh].
  pose proof (digits2_pos_bounds my) as [Hyl Hyh].
  set (d1 := Zpos (digits2_pos mx)) in *.
  set (d2 := Zpos (digits2_pos my)) in *.
  assert (Hd1 : 0 < d1) by (unfold d1; lia).
  assert (Hd2 : 0 < d2) by (unfold d2; lia).
  unfold SFdiv, SFdiv_core_binary. cbn [Zdigits2]. fold d1 d2.
  rewrite (fexp_normal (d1 + ex - (d2 + ey))) by lia.
  set (e' := Z.min (d1 + ex - (d2 + ey) - 53) (ex - ey)).
  set (s := ex - ey - e').
  assert (Hs : 0 <= s /\ 53 - d1 + d2 <= s) by (unfold s, e'; lia).
  assert (Hm' : match s with
                | 0 => Zpos mx
                | Zpos _ => Z.shiftl (Zpos mx) s
                | Zneg _ => 0
                end = Zpos mx * 2 ^ s).
  { destruct s as [|p|p] eqn:Es; try lia.
    - now rewrite Z.shiftl_mul_pow2 by lia. }
  rewrite Hm'. clear Hm'.
  set (S := 2 ^ s) in *.
  assert (HS : 0 < S) by (apply Z.pow_pos_nonneg; lia).
  pose proof (Z.div_mod (Zpos mx * S) (Zpos my) ltac:(lia)) as Hdm.
  pose proof (Z.mod_pos_bound (Zpos mx * S) (Zpos my) ltac:(lia)) as Hmb.
  destruct (Z.div_eucl (Zpos mx * S) (Zpos my)) as [q r] eqn:Eqr.
  assert (Hq : q = Zpos mx * S / Zpos my)
    by (unfold Z.div; now rewrite Eqr).
  assert (Hrem : r = (Zpos mx * S) mod Zpos my)
    by (unfold Z.modulo; now rewrite Eqr).
  rewrite <- Hq, <- Hrem in Hdm. rewrite <- Hrem in Hmb. clear Eqr.
  (* the quotient has 53 or 54 digits or more *)
  assert (Hpow : 2 ^ (d1 - 1) * S = 2 ^ (d1 - 1 + s - d2) * 2 ^ d2).
  { unfold S. rewrite <- !Z.pow_add_r by lia. f_equal. lia. }
  assert (Hqlo : 2 ^ (d1 - 1 + s - d2) <= q).
  { assert (0 < 2 ^ (d1 - 1 + s - d2)) by (apply Z.pow_pos_nonneg; lia).
    rewrite Hq. apply Z.div_le_lower_bound; [lia|]. nia. }
  assert (Hqpos : 0 < q).
  { assert (0 < 2 ^ (d1 - 1 + s - d2)) by (apply Z.pow_pos_nonneg; lia).
    lia. }
  assert (Hpow2 : 2 ^ d1 * S = 2 ^ (d1 + s - d2 + 1) * 2 ^ (d2 - 1)).
  { unfold S. rewrite <- !Z.pow_add_r by lia. f_equal. lia. }
  assert (Hqhi : q < 2 ^ (d1 + s - d2 + 1)).
  { assert (0 < 2 ^ (d1 + s - d2 + 1)) by (apply Z.pow_pos_nonneg; lia).
    rewrite Hq. apply Z.div_lt_upper_bound; [lia|]. nia. }
  destruct (Zdigits2_bounds q Hqpos) as [[Hql Hqh] _].
  assert (Hdq : d1 + s - d2 <= Zdigits2 q <= d1 + s - d2 + 1).
  { split.
    - destruct (Z.le_gt_cases (d1 + s - d2) (Zdigits2 q)); [assumption|].
      assert (2 ^ Zdigits2 q <= 2 ^ (d1 - 1 + s - d2))
        by (apply Z.pow_le_mono_r; lia). lia.
    - destruct (Z.le_gt_cases (Zdigits2 q) (d1 + s - d2 + 1));
        [assumption|].
      assert (2 ^ (d1 + s - d2 + 1) <= 2 ^ (Zdigits2 q - 1))
        by (apply Z.pow_le_mono_r; lia). lia. }
  assert (Hloc : locates (Zpos mx * S) (Zpos my)
                   (shr_record_of_loc q (new_location (Zpos my) r)))
    by (apply (new_location_spec _ _ q r); lia).
  destruct (binary_round_aux_spec (xorb sx sy) _ _ q e' _ Hloc Hqpos)
    as (m & e & Hres & Hm & He & Hemin & Hbound & _);
    [unfold s, e' in *; lia..|].
  exists m, e, (e - e'), s. rewrite Hres.
  split; [reflexivity|]. split; [exact Hm|]. split; [lia|].
  split; [lia|]. split; [lia|]. split; [unfold s; lia|]. exact Hbound.
Qed.

Lemma cancel_scale (c u v : Z) :
  0 < c -> 2 * Z.abs (c * u) <= c * v -> 2 * Z.abs u <= v.
Proof.
  intros Hc H. rewrite Z.abs_mul, (Z.abs_eq c) in H by lia. nia.
Qed.

Lemma digits_full (m : positive) :
  2 ^ 52 <= Zpos m < 2 ^ 53 -> Zpos (digits2_pos m) = 53.
Proof.
  intros H. change (Zpos (digits2_pos m)) with (Zdigits2 (Zpos m)).
  apply Zdigits2_unique; [lia|exact H].
Qed.

Lemma valid_full (s : bool) (m : positive) (e : Z) :
  2 ^ 52 <= Zpos m < 2 ^ 53 -> -1074 <= e <= 971 ->
  valid_binary prec emax (S754_finite s m e) = true.
Proof.
  intros Hm He. unfold valid_binary, bounded, canonical_mantissa.
  rewrite (digits_full m Hm).
  apply andb_true_intro. split.
  - apply Z.eqb_eq. unfold fexp, SpecFloat.emin, prec, emax. lia.
  - apply Z.leb_le. unfold prec, emax. lia.
Qed.

Lemma digits_scaled (p m : positive) (k : Z) :
  0 <= k -> Zpos m = Zpos p * 2 ^ k ->
  Zpos (digits2_pos m) = Zpos (digits2_pos p) + k.
Proof.
  intros Hk Hm. change (Zpos (digits2_pos m)) with (Zdigits2 (Zpos m)).
  pose proof (digits2_pos_bounds p) as [Hl Hh].
  assert (0 < 2 ^ k) by (apply Z.pow_pos_nonneg; lia).
  apply Zdigits2_unique; [lia|]. rewrite Hm.
  replace (Zpos (digits2_pos p) + k - 1)
    with (Zpos (digits2_pos p) - 1 + k) by lia.
  rewrite !Z.pow_add_r by lia. nia.
Qed.

Lemma digits_below (p : positive) (k : Z) :
  0 <= k -> Zpos p < 2 ^ k -> Zpos (digits2_pos p) <= k.
Proof.
  intros Hk Hp. pose proof (digits2_pos_bounds p) as [Hl _].
  destruct (Z.le_gt_cases (Zpos (digits2_pos p)) k); [assumption|].
  assert (2 ^ k <= 2 ^ (Zpos (digits2_pos p) - 1))
    by (apply Z.pow_le_mono_r; lia). lia.
Qed.

(** The quotient of two finite floats that hold the non-zero integers
    [±A] and [B]. *)
Lemma SFdiv_held (sx : bool) (A B mx my : positive) (ex ey : Z) :
  ex <= 0 -> Zpos mx = Zpos A * 2 ^ (- ex) ->
  ey <= 0 -> Zpos my = Zpos B * 2 ^ (- ey) ->
  Zpos A < 2 ^ 1000 -> Zpos B < 2 ^ 1000 ->
  rounds_to (cond_Zopp sx (Zpos A)) (Zpos B)
            (SFdiv prec emax (S754_finite sx mx ex)
                   (S754_finite false my ey)).
Proof.
  intros Hex Hmx Hey Hmy HA HB.
  pose proof (digits_scaled A mx (- ex) ltac:(lia) Hmx) as Hdx.
  pose proof (digits_scaled B my (- ey) ltac:(lia) Hmy) as Hdy.
  pose proof (digits_below A 1000 ltac:(lia) HA).
  pose proof (digits_below B 1000 ltac:(lia) HB).
  destruct (SFdiv_spec sx false mx my ex ey)
    as (m & e & k & s & Hres & Hm & He & Hk & Hs & Hek & Hbound); [lia|].
  rewrite Hres, xorb_false_r.
  split; [reflexivity|]. split; [now apply valid_full|].
  cbn [float_num float_den float_ulp].
  rewrite Hmx, Hmy in Hbound.
  assert (HPx : 0 < 2 ^ (- ex)) by (apply Z.pow_pos_nonneg; lia).
  assert (HPy : 0 < 2 ^ (- ey)) by (apply Z.pow_pos_nonneg; lia).
  assert (Ha : 2 ^ k * 2 ^ (- ey) = 2 ^ (k - ey))
    by (rewrite <- Z.pow_add_r by lia; f_equal; lia).
  assert (Hb : 2 ^ s * 2 ^ (- ex) = 2 ^ (s - ex))
    by (rewrite <- Z.pow_add_r by lia; f_equal; lia).
  assert (Hbound' : 2 * Z.abs (Zpos m * Zpos B * 2 ^ (k - ey)
                               - Zpos A * 2 ^ (s - ex))
                    <= 2 ^ (k - ey) * Zpos B).
  { rewrite <- Ha, <- Hb.
    replace (Zpos m * Zpos B * (2 ^ k * 2 ^ (- ey))
             - Zpos A * (2 ^ s * 2 ^ (- ex)))
      with (Zpos m * 2 ^ k * (Zpos B * 2 ^ (- ey))
            - Zpos A * 2 ^ (- ex) * 2 ^ s) by ring.
    replace (2 ^ k * 2 ^ (- ey) * Zpos B)
      with (2 ^ k * (Zpos B * 2 ^ (- ey))) by ring.
    exact Hbound. }
  assert (Habs : forall u v : Z,
             Z.abs (cond_Zopp sx u - cond_Zopp sx v) = Z.abs (u - v)).
  { intros u v. destruct sx; cbn [cond_Zopp]; lia. }
  replace (cond_Zopp sx (Zpos m) * 2 ^ Z.max 0 e * Zpos B
           - cond_Zopp sx (Zpos A) * 2 ^ Z.max 0 (- e))
    with (cond_Zopp sx (Zpos m * 2 ^ Z.max 0 e * Zpos B)
          - cond_Zopp sx (Zpos A * 2 ^ Z.max 0 (- e)))
    by (destruct sx; cbn [cond_Zopp]; ring).
  rewrite Habs.
  destruct (Z.le_gt_cases 0 e) as [He0|He0].
  - (* an integer result *)
    replace (Z.max 0 e) with e by lia. replace (Z.max 0 (- e)) with 0 by lia.
    change (2 ^ 0) with 1.
    apply (cancel_scale (2 ^ (s - ex))); [apply Z.pow_pos_nonneg; lia|].
    replace (k - ey) with (s - ex + e) in Hbound' by lia.
    rewrite Z.pow_add_r in Hbound' by lia.
    replace (2 ^ (s - ex) * (Zpos m * 2 ^ e * Zpos B - Zpos A * 1))
      with (Zpos m * Zpos B * (2 ^ (s - ex) * 2 ^ e)
            - Zpos A * 2 ^ (s - ex)) by ring.
    replace (2 ^ (s - ex) * (2 ^ e * Zpos B))
      with (2 ^ (s - ex) * 2 ^ e * Zpos B) by ring.
    exact Hbound'.
  - replace (Z.max 0 e) with 0 by lia.
    replace (Z.max 0 (- e)) with (- e) by lia. change (2 ^ 0) with 1.
    apply (cancel_scale (2 ^ (k - ey))); [apply Z.pow_pos_nonneg; lia|].
    replace (s - ex) with (k - ey + - e) in Hbound' by lia.
    rewrite Z.pow_add_r in Hbound' by lia.
    replace (2 ^ (k - ey) * (Zpos m * 1 * Zpos B - Zpos A * 2 ^ (- e)))
      with (Zpos m * Zpos B * 2 ^ (k - ey)
            - Zpos A * (2 ^ (k - ey) * 2 ^ (- e))) by ring.
    replace (2 ^ (k - ey) * (1 * Zpos B)) with (2 ^ (k - ey) * Zpos B)
      by ring.
    exact Hbound'.
Qed.

Lemma holds_int_small (z : Z) :
  Z.abs z < 2 ^ 53 -> holds_int z (float_of_small z).
Proof.
  intros H. destruct z as [|p|p]; cbn [holds_int float_of_small].
  - reflexivity.
  - destruct (canon_form false p ltac:(lia)) as (cm & Hc & Hv & Hd).
    exists cm, (Zpos (digits2_pos p) - 53). split; [exact Hc|].
    split; [lia|]. rewrite Hv. f_equal. f_equal. lia.
  - destruct (canon_form true p ltac:(lia)) as (cm & Hc & Hv & Hd).
    exists cm, (Zpos (digits2_pos p) - 53). split; [exact Hc|].
    split; [lia|]. rewrite Hv. f_equal. f_equal. lia.
Qed.

(** The quotient of two floats that hold integers is the rounded
    quotient of the integers. *)
Lemma SFdiv_ints (a b : Z) (x y : float) :
  holds_int a x -> holds_int b y -> 0 < b ->
  Z.abs a < 2 ^ 1000 -> b < 2 ^ 1000 ->
  rounds_to a b (SFdiv prec emax x y).
Proof.
  intros Hx Hy Hb Ha Hb'.
  destruct b as [|B|B]; try lia. cbn [holds_int] in Hy.
  destruct Hy as (my & ey & -> & Hey & Hmy).
  destruct a as [|A|A]; cbn [holds_int] in Hx.
  - subst x. cbn. repeat split; reflexivity || lia.
  - destruct Hx as (mx & ex & -> & Hex & Hmx).
    apply (SFdiv_held false A B mx my ex ey); auto; lia.
  - destruct Hx as (mx & ex & -> & Hex & Hmx).
    apply (SFdiv_held true A B mx my ex ey); auto; lia.
Qed.

(** [n / d] on integers, as [float_of_ratio] computes it. *)
Lemma float_of_ratio_rounds (n d : Z) :
  1 < d -> Z.abs n < 2 ^ 1000 -> d < 2 ^ 1000 ->
  rounds_to n d (float_of_ratio n d).
Proof.
  intros Hd Hn Hd'. unfold float_of_ratio.
  destruct d as [|[D|D|]|D]; try lia;
    (apply SFdiv_ints; try lia;
     [destruct n as [|p|p]; cbn [holds_int];
      [reflexivity
      |eexists _, 0; split; [reflexivity|split; [lia|cbn; lia]]
      |eexists _, 0; split; [reflexivity|split; [lia|cbn; lia]]]
     |cbn [holds_int]; eexists _, 0;
      split; [reflexivity|split; [lia|cbn; lia]]]).
Qed.

(** ** Cutting a rounded quotient to an integer *)

Lemma valid_positive_exponent (s : bool) (m : positive) (e : Z) :
  valid_binary prec emax (S754_finite s m e) = true -> 1 <= e ->
  2 ^ 52 <= Zpos m.
Proof.
  intros Hv He. unfold valid_binary, bounded, canonical_mantissa in Hv.
  apply andb_prop in Hv. destruct Hv as [Hc _]. apply Z.eqb_eq in Hc.
  unfold fexp, SpecFloat.emin, prec, emax in Hc.
  pose proof (digits2_pos_bounds m) as [Hl _].
  replace (Zpos (digits2_pos m)) with 53 in Hl by lia. exact Hl.
Qed.

(** [int()] of a float within half a unit in the last place of [n / d],
    for a quotient below [2^52]: no integer lies between the quotient
    and the result. *)
Lemma rounds_to_trunc (n d : Z) (x : float) :
  rounds_to n d x -> 0 < d -> Z.abs n <= 2 ^ 52 * d ->
  exists z, py_int x = Return z
            /\ forall c, (c * d <= n -> c <= z) /\ (n <= c * d -> z <= c).
Proof.
  intros (Hfin & Hval & Hb) Hd Hn.
  destruct x as [s0| |  |s m e]; try discriminate Hfin.
  - exists 0. split; [reflexivity|].
    cbn [float_num float_den float_ulp] in Hb.
    assert (n = 0) by lia. subst n. intros c. split; intros Hc; nia.
  - cbn [float_num float_den float_ulp] in Hb.
    assert (He : e <= 0).
    { destruct (Z.le_gt_cases e 0) as [H|H]; [exact H|exfalso].
      pose proof (valid_positive_exponent s m e Hval ltac:(lia)) as Hm.
      replace (Z.max 0 e) with e in Hb by lia.
      replace (Z.max 0 (- e)) with 0 in Hb by lia.
      change (2 ^ 0) with 1 in Hb.
      assert (HE : 2 <= 2 ^ e).
      { change 2 with (2 ^ 1) at 1. apply Z.pow_le_mono_r; lia. }
      assert (Habs : Z.abs (cond_Zopp s (Zpos m) * 2 ^ e * d - n * 1)
                     >= Zpos m * 2 ^ e * d - Z.abs n)
        by (destruct s; cbn [cond_Zopp]; lia).
      nia. }
    replace (Z.max 0 e) with 0 in Hb by lia.
    replace (Z.max 0 (- e)) with (- e) in Hb by lia.
    change (2 ^ 0) with 1 in Hb.
    assert (Hint : py_int (S754_finite s m e)
                   = Return (cond_Zopp s (Zpos m / 2 ^ (- e)))).
    { cbn [py_int]. destruct (Z.leb_spec 0 e) as [H0|H0]; [|reflexivity].
      assert (E : e = 0) by lia. rewrite E. change (- 0) with 0.
      rewrite Z.pow_0_r, Z.div_1_r, Z.mul_1_r. reflexivity. }
    set (P := 2 ^ (- e)) in *.
    assert (HP : 0 < P) by (apply Z.pow_pos_nonneg; lia).
    exists (cond_Zopp s (Zpos m / P)). split; [exact Hint|].
    intros c. destruct s; cbn [cond_Zopp] in *.
    + split; intros Hc.
      * assert (Zpos m <= - c * P) by nia.
        assert (Zpos m / P <= - c); [|lia].
        apply Z.div_le_upper_bound; nia.
      * assert (- c * P <= Zpos m) by nia.
        assert (- c <= Zpos m / P); [|lia].
        apply Z.div_le_lower_bound; nia.
    + split; intros Hc.
      * assert (c * P <= Zpos m) by nia.
        apply Z.div_le_lower_bound; nia.
      * assert (Zpos m <= c * P) by nia.
        apply Z.div_le_upper_bound; nia.
Qed.

(** ** Sums and means of integer ratings *)

Lemma locates_exact (p : positive) :
  locates (Zpos p) 1 (shr_record_of_loc (Zpos p) loc_Exact).
Proof. apply (locates_intro (Zpos p) 1 (Zpos p) 0); lia. Qed.

(** Rounding an integer below [2^53] that is given with surplus binary
    places gives the integer. *)
Lemma binary_round_held (s : bool) (p c : positive) (ex : Z) :
  ex <= 0 -> -900 <= ex -> Zpos p = Zpos c * 2 ^ (- ex) ->
  Zpos c < 2 ^ 53 ->
  binary_round prec emax s p ex = canon s c.
Proof.
  intros Hex Hex' Hp Hc.
  destruct (canon_form s c Hc) as (cm & Hcanon & Hcm & Hdc).
  pose proof (digits_scaled c p (- ex) ltac:(lia) Hp) as Hdp.
  set (dc := Zpos (digits2_pos c)) in *.
  assert (Hdc0 : 0 < dc) by (unfold dc; lia).
  rewrite Hcanon. unfold binary_round. rewrite Hdp.
  replace (dc + - ex + ex) with dc by lia.
  rewrite (fexp_normal dc) by lia.
  unfold shl_align.
  assert (Hres : forall mz ez,
             Zpos mz = Zpos cm * 2 ^ (dc - 53 - ez) ->
             ez <= dc - 53 -> -900 <= ez ->
             Zpos (digits2_pos mz) + ez = dc ->
             binary_round_aux prec emax s (Zpos mz) ez loc_Exact
             = S754_finite s cm (dc - 53)).
  { intros mz ez Hmz Hez Hez0 Hdig.
    destruct (binary_round_aux_spec s (Zpos mz) 1 (Zpos mz) ez loc_Exact
                (locates_exact mz) ltac:(lia))
      as (m & e & Hr & Hm & He & _ & _ & Hexact);
      [cbn [Zdigits2]; lia..|].
    cbn [Zdigits2] in Hexact.
    destruct (Hexact (Zpos cm)) as [Hmc Hec].
    - replace (Zpos (digits2_pos mz) - 53) with (dc - 53 - ez) by lia.
      lia.
    - rewrite Hr. apply Pos2Z.inj in Hmc. subst m. f_equal. lia. }
  destruct (dc - 53 - ex) as [|k|k] eqn:Ek.
  - apply Hres; try lia. rewrite Ek. change (2 ^ 0) with 1.
    rewrite Hp, Hcm. replace (- ex) with (53 - dc) by lia. ring.
  - apply Hres; try lia.
    rewrite Hp, Hcm, Ek.
    replace (- ex) with (53 - dc + Zpos k) by lia.
    rewrite Z.pow_add_r by lia. ring.
  - destruct (iter_xO_spec k p) as [Hv Hd].
    assert (Hpk : 2 ^ (53 - dc) = 2 ^ (- ex) * 2 ^ Zpos k).
    { rewrite <- Z.pow_add_r by lia. f_equal. lia. }
    apply Hres; try lia.
    replace (dc - 53 - (dc - 53)) with 0 by lia. change (2 ^ 0) with 1.
    rewrite Hv, Hp, Hcm, Hpk. ring.
Qed.

Lemma shl_align_fst (m : positive) (e ez : Z) :
  ez <= e -> Zpos (fst (shl_align m e ez)) = Zpos m * 2 ^ (e - ez).
Proof.
  intros H. unfold shl_align. destruct (ez - e) as [|k|k] eqn:E; try lia.
  - cbn [fst]. replace (e - ez) with 0 by lia. lia.
  - cbn [fst]. destruct (iter_xO_spec k m) as [Hv _]. rewrite Hv.
    f_equal. f_equal. lia.
Qed.

(** Adding two integers in binary64 is exact when the sum is below
    [2^53]. *)
Lemma SFadd_small (a b : Z) :
  Z.abs a < 2 ^ 53 -> Z.abs b < 2 ^ 53 -> Z.abs (a + b) < 2 ^ 53 ->
  SFadd prec emax (float_of_small a) (float_of_small b)
  = float_of_small (a + b).
Proof.
  intros Ha Hb Hab.
  destruct (Z.eq_dec a 0) as [->|Ha0].
  { cbn [float_of_small Z.add]. destruct b; reflexivity ||
      (cbn [float_of_small];
       match goal with
       | |- context [canon ?s ?p] =>
           destruct (canon_form s p ltac:(lia)) as (cm & -> & _)
       end; reflexivity). }
  destruct (Z.eq_dec b 0) as [->|Hb0].
  { rewrite Z.add_0_r. destruct a; try lia;
      cbn [float_of_small];
      match goal with
      | |- context [canon ?s ?p] =>
          destruct (canon_form s p ltac:(lia)) as (cm & -> & _)
      end; reflexivity. }
  assert (Hform : forall z, z <> 0 -> Z.abs z < 2 ^ 53 ->
            exists s m e,
              float_of_small z = S754_finite s m e
              /\ -52 <= e <= 0
              /\ cond_Zopp s (Zpos m) = z * 2 ^ (- e)).
  { intros z Hz0 Hz. destruct z as [|p|p]; try lia; cbn [float_of_small].
    - destruct (canon_form false p ltac:(lia)) as (cm & Hc & Hv & Hd).
      exists false, cm, (Zpos (digits2_pos p) - 53).
      split; [exact Hc|]. split; [lia|]. cbn [cond_Zopp]. rewrite Hv.
      f_equal. f_equal. lia.
    - destruct (canon_form true p ltac:(lia)) as (cm & Hc & Hv & Hd).
      exists true, cm, (Zpos (digits2_pos p) - 53).
      split; [exact Hc|]. split; [lia|]. cbn [cond_Zopp]. rewrite Hv.
      replace (- (Zpos (digits2_pos p) - 53))
        with (53 - Zpos (digits2_pos p)) by lia. lia. }
  destruct (Hform a Ha0 Ha) as (sa & ma & ea & -> & Hea & Hva).
  destruct (Hform b Hb0 Hb) as (sb & mb & eb & -> & Heb & Hvb).
  cbn [SFadd]. set (ez := Z.min ea eb).
  assert (HM : cond_Zopp sa (Zpos (fst (shl_align ma ea ez)))
               + cond_Zopp sb (Zpos (fst (shl_align mb eb ez)))
               = (a + b) * 2 ^ (- ez)).
  { rewrite !shl_align_fst by (unfold ez; lia).
    replace (cond_Zopp sa (Zpos ma * 2 ^ (ea - ez)))
      with (cond_Zopp sa (Zpos ma) * 2 ^ (ea - ez))
      by (destruct sa; cbn [cond_Zopp]; ring).
    replace (cond_Zopp sb (Zpos mb * 2 ^ (eb - ez)))
      with (cond_Zopp sb (Zpos mb) * 2 ^ (eb - ez))
      by (destruct sb; cbn [cond_Zopp]; ring).
    rewrite Hva, Hvb.
    assert (Ea : 2 ^ (- ea) * 2 ^ (ea - ez) = 2 ^ (- ez))
      by (rewrite <- Z.pow_add_r by (unfold ez; lia); f_equal; lia).
    assert (Eb : 2 ^ (- eb) * 2 ^ (eb - ez) = 2 ^ (- ez))
      by (rewrite <- Z.pow_add_r by (unfold ez; lia); f_equal; lia).
    rewrite <- !Z.mul_assoc, Ea, Eb. ring. }
  rewrite HM.
  assert (HP : 0 < 2 ^ (- ez)) by (apply Z.pow_pos_nonneg; unfold ez; lia).
  destruct (a + b) as [|c|c] eqn:Eab.
  - reflexivity.
  - destruct (Zpos c * 2 ^ (- ez)) as [|p|p] eqn:Ep; try lia.
    cbn [binary_normalize float_of_small].
    apply binary_round_held; unfold ez in *; lia.
  - destruct (Zneg c * 2 ^ (- ez)) as [|p|p] eqn:Ep; try lia.
    cbn [binary_normalize float_of_small].
    apply binary_round_held; unfold ez in *; lia.
Qed.

Lemma abs_sum_nonneg (zs : list Z) : 0 <= abs_sum zs.
Proof. induction zs as [|z zs IH]; cbn [abs_sum fold_right]; [lia|].
  fold (abs_sum zs). lia. Qed.

Lemma int_sum_abs (zs : list Z) : Z.abs (int_sum zs) <= abs_sum zs.
Proof.
  induction zs as [|z zs IH]; cbn [int_sum abs_sum fold_right]; [lia|].
  fold (int_sum zs) (abs_sum zs). lia.
Qed.

Lemma fold_SFadd_small (zs : list Z) (acc : Z) :
  Z.abs acc + abs_sum zs < 2 ^ 53 ->
  fold_left (SFadd prec emax) (map float_of_small zs) (float_of_small acc)
  = float_of_small (acc + int_sum zs).
Proof.
  revert acc. induction zs as [|z zs IH]; intros acc H.
  - cbn. now rewrite Z.add_0_r.
  - cbn [map fold_left int_sum abs_sum fold_right] in *.
    fold (int_sum zs) (abs_sum zs) in *.
    pose proof (abs_sum_nonneg zs).
    rewrite SFadd_small by lia. rewrite IH by lia. f_equal. lia.
Qed.

(** The sum of integer ratings is exact. *)
Lemma py_sum_small (zs : list Z) :
  abs_sum zs < 2 ^ 53 ->
  py_sum (map float_of_small zs) = float_of_small (int_sum zs).
Proof.
  intros H. unfold py_sum. change float_zero with (float_of_small 0).
  rewrite fold_SFadd_small by (cbn [Z.abs]; lia). reflexivity.
Qed.

Lemma float_of_ratio_small (n : Z) :
  0 <= n < 2 ^ 53 -> float_of_ratio n 1 = float_of_small n.
Proof.
  intros H. unfold float_of_ratio. destruct n as [|p|p]; try lia.
  - reflexivity.
  - cbn [binary_normalize float_of_small]. apply binary_round_small. lia.
Qed.

Lemma py_mean_small (zs : list Z) :
  zs <> [] -> sum_fits zs ->
  py_mean (map float_of_small zs)
  = SFdiv prec emax (float_of_small (int_sum zs))
          (float_of_small (Z.of_nat (List.length zs)))
  /\ rounds_to (int_sum zs) (Z.of_nat (List.length zs))
               (py_mean (map float_of_small zs)).
Proof.
  intros Hne [Hsum Hlen].
  assert (E : py_mean (map float_of_small zs)
              = SFdiv prec emax (float_of_small (int_sum zs))
                  (float_of_small (Z.of_nat (List.length zs)))).
  { unfold py_mean. rewrite py_sum_small by exact Hsum.
    rewrite length_map, float_of_ratio_small by lia. reflexivity. }
  split; [exact E|]. rewrite E.
  pose proof (int_sum_abs zs) as Habs.
  assert (Hpos : 0 < Z.of_nat (List.length zs))
    by (destruct zs; [contradiction|cbn [List.length]; lia]).
  assert (H53 : 2 ^ 53 < 2 ^ 1000) by reflexivity.
  apply SFdiv_ints; try lia; apply holds_int_small; lia.
Qed.






Lemma scenario_report :
  tag_report (aggregate (collect_first_ac_per_problem scenario_stream))
  = Return [TagLine "dp" 1 (Some (800, 800, float_of_ratio 800 1))]
  /\ py_float 800 = Return (float_of_ratio 800 1).
Proof. vm_compute. split; reflexivity. Qed.



(** ** Ratings that cannot be converted *)

Lemma rating_value_unconvertible (z : Z) (e : exn) :
  py_float z = Raise e -> rating_value (Some z) = None.
Proof. intros H. unfold rating_value. now rewrite H. Qed.

Lemma aggregate_replace (k : string) (r r' : SolvedRecord)
    (solved_map : PyDict.t SolvedRecord) :
  (forall st, aggregate_record st r = aggregate_record st r') ->
  PyDict.get k solved_map = Some r ->
  aggregate (PyDict.set k r' solved_map) = aggregate solved_map.
Proof.
  intros Hsame. unfold aggregate. generalize agg_init.
  induction solved_map as [|[k0 r0] d IH]; intros st; simpl; [discriminate|].
  destruct (String.eqb_spec k0 k) as [->|Hne].
  - intros [= ->]. simpl. now rewrite Hsame.
  - intros Hget. simpl. now apply IH.
Qed.

(** C10.  A solved record whose rating is present but cannot be turned
    into a [float] is aggregated exactly as the same record without a
    rating: each of its tags is counted, no rating list and not the
    global rating list receives anything, and replacing the rating by
    "absent" in the solved map leaves the whole aggregation unchanged. *)
Theorem unconvertible_rating_is_absent (st : agg_state) (ts : Z)
    (tags : list string) (nm : string) (z : Z) (e : exn) :
  py_float z = Raise e ->
  aggregate_record st (ts, tags, nm, Some z)
  = aggregate_record st (ts, tags, nm, None)
  /\ tag_ratings (aggregate_record st (ts, tags, nm, Some z))
     = tag_ratings st
  /\ all_ratings (aggregate_record st (ts, tags, nm, Some z))
     = all_ratings st
  /\ (forall t,
        counts_at t (aggregate_record st (ts, tags, nm, Some z))
        = counts_at t st + Z.of_nat (count_occ string_dec tags t))
  /\ (forall (solved_map : PyDict.t SolvedRecord) (k : string),
        PyDict.get k solved_map = Some (ts, tags, nm, Some z) ->
        aggregate solved_map
        = aggregate (PyDict.set k (ts, tags, nm, None) solved_map)).
Proof.
  intros Hraise.
  assert (Hsame : forall st0,
             aggregate_record st0 (ts, tags, nm, Some z)
             = aggregate_record st0 (ts, tags, nm, None)).
  { intros st0. unfold aggregate_record.
    now rewrite (rating_value_unconvertible z e Hraise). }
  split; [apply Hsame|]. rewrite Hsame.
  split; [|split; [|split]].
  - unfold aggregate_record. cbn [rating_value].
    now rewrite fold_tags_none_ratings.
  - destruct (aggregate_record_spec st (ts, tags, nm, None) EmptyString)
      as (_ & _ & H). rewrite H. cbn [rec_rating rating_value].
    now rewrite app_nil_r.
  - intros t.
    destruct (aggregate_record_spec st (ts, tags, nm, None) t) as (H & _).
    exact H.
  - intros solved_map k Hget. symmetry.
    now apply aggregate_replace with (r := (ts, tags, nm, Some z)).
Qed.

Lemma unconvertible_rating_is_absent_witness :
  py_float (2 ^ 1024)
  = Raise (OverflowError "int too large to convert to float")
  /\ aggregate huge_rating_map
     = aggregate (PyDict.set "1-A" (50, ["dp"; "math"], "Big", None)
                             huge_rating_map)
  /\ PyDict.get "dp" (tag_counts (aggregate huge_rating_map)) = Some 2
  /\ PyDict.get "math" (tag_ratings (aggregate huge_rating_map)) = None.
Proof.
  assert (H : py_float (2 ^ 1024)
              = Raise (OverflowError "int too large to convert to float"))
    by (vm_compute; reflexivity).
  split; [exact H|]. split.
  - exact (proj2 (proj2 (proj2 (proj2
             (unconvertible_rating_is_absent agg_init 50 ["dp"; "math"]
                "Big" (2 ^ 1024) _ H)))) huge_rating_map "1-A" eq_refl).
  - split; vm_compute; reflexivity.
Defined.

(** ** The fetch thread *)

Lemma summarize_returns (handle : string)
    (solved_map : PyDict.t SolvedRecord) :
  exists lines,
    tag_report (aggregate solved_map) = Return lines
    /\ summarize handle solved_map
       = Return (mkThreadResult solved_map lines (PyDict.len solved_map)
                   (avg_problem_rating (all_ratings (aggregate solved_map)))
                   None None).
Proof.
  destruct (tag_report_total (aggregate solved_map)
              (aggregate_invariant solved_map)) as [lines Hl].
  exists lines. split; [exact Hl|].
  unfold summarize. cbn [api_user_info bind try_except]. now rewrite Hl.
Qed.

(** C5 (what the code does).  The call of [api_user_info] raises
    [NameError] for every handle, so no run ever retrieves the user's
    rating or maxRating.  The failure is swallowed: a run whose main
    fetch succeeds still returns the solved map, the tag lines and the
    statistics, with both user rating fields absent; a run ends in the
    error branch only with the exception of the main fetch. *)
Theorem user_info_lookup_never_succeeds
    (http_user_status : nat -> string -> Z -> Z -> result envelope)
    (repr_envelope : envelope -> string) (handle : string)
    (dt_from dt_to : datetime) :
  api_user_info handle = Raise (NameError "api_user_info")
  /\ match _fetch_thread http_user_status repr_envelope handle dt_from dt_to
     with
     | (run, Raise e) => outcome run = Raised e
     | (run, Return res) =>
         outcome run <> Raised (NameError "api_user_info")
         /\ res_user_rating res = None
         /\ res_user_max_rating res = None
         /\ res_solved_map res = collect_first_ac_per_problem (yielded run)
         /\ tag_report (aggregate (res_solved_map res))
            = Return (res_tag_lines res)
     end.
Proof.
  split; [reflexivity|]. unfold _fetch_thread.
  set (run := fetch_submissions_in_period _ _ _ _ _ _ _ _).
  destruct (summarize_returns handle
              (collect_first_ac_per_problem (yielded run)))
    as (lines & Hl & Hs).
  destruct (outcome run) as [|e|] eqn:E.
  - rewrite Hs. cbn. repeat split; auto. discriminate.
  - reflexivity.
  - rewrite Hs. cbn. repeat split; auto. discriminate.
Qed.

(* ================================================================== *)
(** * Part III: further properties of the code                         *)
(* ================================================================== *)

(** ** The generator, request by request *)

Section FetchLoopMore.

Variable http_user_status : nat -> string -> Z -> Z -> result envelope.
Variable repr_envelope : envelope -> string.
Variable handle : string.
Variable from_ts to_ts : option Z.
Variable page_size max_requests : Z.

Let loop (progress : bool) :=
  fetch_loop http_user_status repr_envelope handle from_ts to_ts
             page_size max_requests progress.

Lemma loop_unfold (progress : bool) (fuel : nat) (n : nat)
    (start_idx requests_made y : Z) :
  loop progress (S fuel) n start_idx requests_made y =
  if max_requests <=? requests_made
  then run_end Exhausted
         (notify progress (MsgReachedMax max_requests)
          ++ notify progress (MsgFinished y))
  else
    let msg := notify progress
                 (MsgApiRequest (requests_made + 1) start_idx page_size) in
    let response :=
      api_user_status http_user_status repr_envelope n handle start_idx
                      page_size in
    let call := mkCall start_idx page_size response in
    match response with
    | Raise e => run_prepend [call] msg [] (run_end (Raised e) [])
    | Return [] =>
        run_prepend [call] msg []
          (run_end Exhausted
             (notify progress MsgNoMore ++ notify progress (MsgFinished y)))
    | Return page =>
        let out := filter (in_window from_ts to_ts) page in
        let y' := y + Z.of_nat (List.length out) in
        if stop_early (page_oldest page) from_ts
        then run_prepend [call] msg out
               (run_end Exhausted
                  (notify progress MsgStoppingEarly
                   ++ notify progress (MsgFinished y')))
        else run_prepend [call] msg out
               (loop progress fuel (S n)
                     (start_idx + Z.of_nat (List.length page))
                     (requests_made + 1) y')
    end.
Proof. apply fetch_loop_unfold. Qed.

(** What is yielded is, page by page, what lies in the window. *)
Lemma fetch_loop_yielded (progress : bool) (fuel : nat) (n : nat)
    (start_idx requests_made y : Z) :
  yielded (loop progress fuel n start_idx requests_made y)
  = flat_map (call_yield from_ts to_ts)
             (requests (loop progress fuel n start_idx requests_made y)).
Proof.
  revert n start_idx requests_made y.
  induction fuel as [|fuel IH]; intros n start_idx requests_made y.
  - reflexivity.
  - rewrite loop_unfold.
    destruct (max_requests <=? requests_made); [reflexivity|].
    cbv zeta.
    destruct (api_user_status _ _ _ _ _ _) as [page|e] eqn:E;
      [|reflexivity].
    destruct page as [|s page]; [reflexivity|].
    destruct (stop_early _ _).
    + cbn [run_prepend run_end yielded requests app flat_map].
      unfold call_yield at 1, call_page. cbn [call_response].
      reflexivity.
    + cbn [run_prepend yielded requests app flat_map].
      rewrite IH. unfold call_yield at 2, call_page. cbn [call_response].
      reflexivity.
Qed.

(** Each recorded call is the answer of the service to that request,
    asked with the running offset and the page size. *)
Lemma fetch_loop_calls (progress : bool) (fuel : nat) (n : nat)
    (start_idx requests_made y : Z) (N : nat) (call : api_call) :
  nth_error (requests (loop progress fuel n start_idx requests_made y)) N
  = Some call ->
  call_count call = page_size
  /\ call_from call
     = start_idx
       + Z.of_nat
           (List.length
              (flat_map call_page
                 (firstn N
                    (requests
                       (loop progress fuel n start_idx requests_made y)))))
  /\ call_response call
     = api_user_status http_user_status repr_envelope (n + N) handle
                       (call_from call) page_size
  /\ Z.of_nat N < max_requests - requests_made.
Proof.
  revert n start_idx requests_made y N.
  induction fuel as [|fuel IH]; intros n start_idx requests_made y N.
  - destruct N; discriminate.
  - rewrite loop_unfold.
    destruct (Z.leb_spec max_requests requests_made) as [Hle|Hgt];
      [destruct N; discriminate|].
    cbv zeta.
    assert (Hfirst : forall r,
               Some (mkCall start_idx page_size r) = Some call ->
               r = api_user_status http_user_status repr_envelope n handle
                     start_idx page_size ->
               call_count call = page_size
               /\ call_from call = start_idx + Z.of_nat 0
               /\ call_response call
                  = api_user_status http_user_status repr_envelope
                      (n + 0) handle (call_from call) page_size
               /\ Z.of_nat 0 < max_requests - requests_made).
    { intros r [= <-] ->. cbn [call_count call_from call_response].
      rewrite Nat.add_0_r. repeat split; lia. }
    destruct (api_user_status _ _ _ _ _ _) as [page|e] eqn:E.
    + destruct page as [|s page].
      * destruct N as [|N]; [|destruct N; discriminate].
        cbn [run_prepend requests app run_end nth_error firstn flat_map
             List.length].
        intros H. now apply Hfirst with (r := Return []).
      * destruct (stop_early _ _).
        -- destruct N as [|N]; [|destruct N; discriminate].
           cbn [run_prepend requests app run_end nth_error firstn flat_map
                List.length].
           intros H. now apply Hfirst with (r := Return (s :: page)).
        -- destruct N as [|N].
           ++ cbn [run_prepend requests app nth_error firstn flat_map
                   List.length].
              intros H. now apply Hfirst with (r := Return (s :: page)).
           ++ cbn [run_prepend requests app nth_error firstn flat_map].
              intros Hnth.
              destruct (IH _ _ _ _ _ Hnth) as (H1 & H2 & H3 & H4).
              split; [exact H1|]. split; [|split].
              ** rewrite H2, length_app. unfold call_page at 2.
                 cbn [call_response]. lia.
              ** rewrite H3. f_equal. lia.
              ** lia.
    + destruct N as [|N]; [|destruct N; discriminate].
      cbn [run_prepend requests app run_end nth_error firstn flat_map
           List.length].
      intros H. now apply Hfirst with (r := Raise e).
Qed.

(** A request that raises is the last one, and its exception is how the
    generator ends. *)
Lemma fetch_loop_raise_last (progress : bool) (fuel : nat) (n : nat)
    (start_idx requests_made y : Z) (N : nat) (call : api_call) (e : exn) :
  nth_error (requests (loop progress fuel n start_idx requests_made y)) N
  = Some call ->
  call_response call = Raise e ->
  List.length (requests (loop progress fuel n start_idx requests_made y))
  = S N
  /\ outcome (loop progress fuel n start_idx requests_made y) = Raised e.
Proof.
  revert n start_idx requests_made y N.
  induction fuel as [|fuel IH]; intros n start_idx requests_made y N.
  - destruct N; discriminate.
  - rewrite loop_unfold.
    destruct (max_requests <=? requests_made); [destruct N; discriminate|].
    cbv zeta.
    destruct (api_user_status _ _ _ _ _ _) as [page|e0] eqn:E.
    + destruct page as [|s page].
      * destruct N as [|N]; [|destruct N; discriminate].
        cbn [run_prepend requests app run_end nth_error].
        intros [= <-]. discriminate.
      * destruct (stop_early _ _).
        -- destruct N as [|N]; [|destruct N; discriminate].
           cbn [run_prepend requests app run_end nth_error].
           intros [= <-]. discriminate.
        -- destruct N as [|N]; cbn [run_prepend requests app nth_error].
           ++ intros [= <-]. discriminate.
           ++ intros Hnth Hresp.
              destruct (IH _ _ _ _ _ Hnth Hresp) as [Hlen Hout].
              split; [exact (f_equal S Hlen)|exact Hout].
    + destruct N as [|N]; [|destruct N; discriminate].
      cbn [run_prepend requests app run_end nth_error].
      intros [= <-]. cbn [call_response]. intros [= <-].
      split; reflexivity.
Qed.

(** An empty page is the end of the history: the last request, and a
    normal end. *)
Lemma fetch_loop_empty_last (progress : bool) (fuel : nat) (n : nat)
    (start_idx requests_made y : Z) (N : nat) (call : api_call) :
  nth_error (requests (loop progress fuel n start_idx requests_made y)) N
  = Some call ->
  call_response call = Return [] ->
  List.length (requests (loop progress fuel n start_idx requests_made y))
  = S N
  /\ outcome (loop progress fuel n start_idx requests_made y) = Exhausted.
Proof.
  revert n start_idx requests_made y N.
  induction fuel as [|fuel IH]; intros n start_idx requests_made y N.
  - destruct N; discriminate.
  - rewrite loop_unfold.
    destruct (max_requests <=? requests_made); [destruct N; discriminate|].
    cbv zeta.
    destruct (api_user_status _ _ _ _ _ _) as [page|e0] eqn:E.
    + destruct page as [|s page].
      * destruct N as [|N]; [|destruct N; discriminate].
        cbn [run_prepend requests app run_end nth_error].
        intros _ _. split; reflexivity.
      * destruct (stop_early _ _).
        -- destruct N as [|N]; [|destruct N; discriminate].
           cbn [run_prepend requests app run_end nth_error].
           intros [= <-]. discriminate.
        -- destruct N as [|N]; cbn [run_prepend requests app nth_error].
           ++ intros [= <-]. discriminate.
           ++ intros Hnth Hresp.
              destruct (IH _ _ _ _ _ Hnth Hresp) as [Hlen Hout].
              split; [exact (f_equal S Hlen)|exact Hout].
    + destruct N as [|N]; [|destruct N; discriminate].
      cbn [run_prepend requests app run_end nth_error].
      intros [= <-]. discriminate.
Qed.

(** Why a run ends normally: the budget is spent, or the last page was
    empty, or the last page reached below the From bound. *)
Lemma fetch_loop_end_reasons (progress : bool) (fuel : nat) (n : nat)
    (start_idx requests_made y : Z) :
  (Z.to_nat (max_requests - requests_made) < fuel)%nat ->
  outcome (loop progress fuel n start_idx requests_made y) = Exhausted ->
  Z.of_nat
    (List.length (requests (loop progress fuel n start_idx requests_made y)))
  = Z.max 0 (max_requests - requests_made)
  \/ exists front call,
       requests (loop progress fuel n start_idx requests_made y)
       = front ++ [call]
       /\ (call_response call = Return []
           \/ stop_early (page_oldest (call_page call)) from_ts = true).
Proof.
  revert n start_idx requests_made y.
  induction fuel as [|fuel IH]; intros n start_idx requests_made y Hf.
  - lia.
  - rewrite loop_unfold.
    destruct (Z.leb_spec max_requests requests_made) as [Hle|Hgt].
    + intros _. left. cbn [run_end requests List.length]. lia.
    + cbv zeta.
      destruct (api_user_status _ _ _ _ _ _) as [page|e0] eqn:E;
        [|discriminate].
      destruct page as [|s page].
      * intros _. right. exists []. eexists.
        cbn [run_prepend requests app run_end].
        split; [reflexivity|]. now left.
      * destruct (stop_early _ _) eqn:Es.
        -- intros _. right. exists []. eexists.
           cbn [run_prepend requests app run_end].
           split; [reflexivity|]. right. exact Es.
        -- cbn [run_prepend outcome requests app]. intros Hout.
           destruct (IH (S n) (start_idx + Z.of_nat (List.length (s :: page)))
                        (requests_made + 1)
                        (y + Z.of_nat
                               (List.length
                                  (filter (in_window from_ts to_ts)
                                          (s :: page))))
                        ltac:(lia) Hout)
             as [Hlen|(front & call & Hreq & Hwhy)].
           ++ left. set (rest := requests _) in *.
              change (Z.of_nat (S (List.length rest))
                      = Z.max 0 (max_requests - requests_made)). lia.
           ++ right. eexists (_ :: front), call.
              split; [|exact Hwhy]. rewrite Hreq. reflexivity.
Qed.

(** The callback changes nothing but the log. *)
Lemma fetch_loop_progress (fuel : nat) (n : nat)
    (start_idx requests_made y : Z) :
  let quiet := loop false fuel n start_idx requests_made y in
  let loud := loop true fuel n start_idx requests_made y in
  requests quiet = requests loud
  /\ yielded quiet = yielded loud
  /\ outcome quiet = outcome loud
  /\ progress_log quiet = [].
Proof.
  revert n start_idx requests_made y.
  induction fuel as [|fuel IH]; intros n start_idx requests_made y.
  - repeat split.
  - cbv zeta. rewrite !loop_unfold.
    destruct (max_requests <=? requests_made); [repeat split|].
    cbv zeta.
    destruct (api_user_status _ _ _ _ _ _) as [page|e0] eqn:E;
      [|repeat split].
    destruct page as [|s page]; [repeat split|].
    destruct (stop_early _ _); [repeat split|].
    destruct (IH (S n) (start_idx + Z.of_nat (List.length (s :: page)))
                 (requests_made + 1)
                 (y + Z.of_nat
                        (List.length
                           (filter (in_window from_ts to_ts) (s :: page)))))
      as (H1 & H2 & H3 & H4).
    cbn [run_prepend requests yielded outcome progress_log notify app].
    rewrite H1, H2, H3, H4. repeat split.
Qed.

End FetchLoopMore.

Section FetchMore.

Variable http_user_status : nat -> string -> Z -> Z -> result envelope.
Variable repr_envelope : envelope -> string.
Variable handle : string.
Variable dt_from dt_to : option datetime.
Variable page_size max_requests : Z.

Let fetch (progress : bool) : fetch_run :=
  fetch_submissions_in_period http_user_status repr_envelope handle
    dt_from dt_to page_size max_requests progress.

Let from_ts : option Z := fst (window_ts dt_from dt_to).
Let to_ts : option Z := snd (window_ts dt_from dt_to).

Lemma fetch_unfold (progress : bool) :
  fetch progress
  = if invalid_range dt_from dt_to
    then run_end (Raised (ValueError "From date must be <= To date")) []
    else fetch_loop http_user_status repr_envelope handle from_ts to_ts
           page_size max_requests progress (S (Z.to_nat max_requests))
           0%nat 1 0 0.
Proof. reflexivity. Qed.

Lemma in_window_bounds (s : Submission) :
  in_window from_ts to_ts s = true ->
  within_bounds from_ts to_ts (submission_ts s).
Proof.
  unfold in_window, within_bounds, below_bound, above_bound.
  rewrite andb_true_iff, !negb_true_iff. intros [H1 H2]. split.
  - intros f Hf. rewrite Hf in H1. apply Z.ltb_ge in H1. exact H1.
  - intros t Ht. rewrite Ht in H2. apply Z.ltb_ge in H2. exact H2.
Qed.

(** X1.  What the generator yields is exactly, page after page and in
    page order, the submissions of the returned pages whose timestamp
    lies within the two bounds; nothing outside the window is ever
    yielded. *)
Theorem fetch_yields_window_part_of_pages (progress : bool) :
  yielded (fetch progress)
  = flat_map (call_yield from_ts to_ts) (requests (fetch progress))
  /\ (forall s, In s (yielded (fetch progress)) ->
                within_bounds from_ts to_ts (submission_ts s)).
Proof.
  assert (H : yielded (fetch progress)
              = flat_map (call_yield from_ts to_ts)
                         (requests (fetch progress))).
  { rewrite fetch_unfold. destruct (invalid_range dt_from dt_to);
      [reflexivity|]. apply fetch_loop_yielded. }
  split; [exact H|].
  intros s Hin. rewrite H in Hin. apply in_flat_map in Hin.
  destruct Hin as (c & _ & Hc). unfold call_yield in Hc.
  apply filter_In in Hc. apply in_window_bounds. apply Hc.
Qed.

(** X2.  A page request that raises is fatal: it is the last request of
    the run and its exception is what the consumer of the generator
    receives. *)
Theorem fetch_error_is_fatal (progress : bool) (N : nat) (call : api_call)
    (e : exn) :
  nth_error (requests (fetch progress)) N = Some call ->
  call_response call = Raise e ->
  List.length (requests (fetch progress)) = S N
  /\ outcome (fetch progress) = Raised e.
Proof.
  rewrite fetch_unfold. destruct (invalid_range dt_from dt_to).
  - destruct N; discriminate.
  - apply fetch_loop_raise_last.
Qed.

(** X3.  Request number [N + 1] asks for [page_size] submissions from
    the offset 1 plus the number of submissions the earlier pages
    returned; what is recorded for it is the answer of the service to
    exactly that request; and it is issued only while fewer than
    [max_requests] requests were made. *)
Theorem fetch_request_offsets (progress : bool) (N : nat) (call : api_call) :
  nth_error (requests (fetch progress)) N = Some call ->
  call_count call = page_size
  /\ call_from call
     = 1 + Z.of_nat
             (List.length
                (flat_map call_page (firstn N (requests (fetch progress)))))
  /\ call_response call
     = api_user_status http_user_status repr_envelope N handle
                       (call_from call) page_size
  /\ Z.of_nat N < max_requests.
Proof.
  rewrite fetch_unfold. destruct (invalid_range dt_from dt_to).
  - destruct N; discriminate.
  - intros Hnth.
    destruct (fetch_loop_calls _ _ _ _ _ _ _ _ _ _ _ _ _ _ _ Hnth)
      as (H1 & H2 & H3 & H4).
    repeat split; auto. lia.
Qed.

(** X4.  When the service answers a page request with an envelope whose
    status is not ["OK"], the run ends there with the [RuntimeError]
    that carries the comment of the envelope (or the envelope itself
    when it has no comment). *)
Theorem fetch_failed_envelope_aborts (progress : bool) (N : nat)
    (call : api_call) (j : envelope) :
  nth_error (requests (fetch progress)) N = Some call ->
  http_user_status N handle (call_from call) page_size = Return j ->
  env_status j <> Some "OK" ->
  List.length (requests (fetch progress)) = S N
  /\ outcome (fetch progress)
     = Raised (RuntimeError
                 ("Codeforces API error: "
                  ++ get_default (env_comment j) (repr_envelope j))%string).
Proof.
  intros Hnth Hj Hst.
  destruct (fetch_request_offsets progress N call Hnth) as (_ & _ & Hresp & _).
  apply fetch_error_is_fatal with call; [exact Hnth|].
  rewrite Hresp. unfold api_user_status. rewrite Hj. cbn [bind].
  destruct (env_status j) as [st|]; [|reflexivity].
  destruct (String.eqb_spec st "OK") as [->|Hne]; [congruence|reflexivity].
Qed.

(** X5.  A page without submissions ends the history: the request that
    returned it is the last one and the generator ends normally. *)
Theorem fetch_empty_page_ends (progress : bool) (N : nat) (call : api_call) :
  nth_error (requests (fetch progress)) N = Some call ->
  call_response call = Return [] ->
  List.length (requests (fetch progress)) = S N
  /\ outcome (fetch progress) = Exhausted.
Proof.
  rewrite fetch_unfold. destruct (invalid_range dt_from dt_to).
  - destruct N; discriminate.
  - apply fetch_loop_empty_last.
Qed.

(** X6.  The generator ends normally for one of three reasons only: the
    request budget is spent, or the last page returned was empty, or
    the last page returned reaches below the From bound.  It never
    stops on a page that lies wholly inside the window while budget is
    left. *)
Theorem fetch_end_reasons (progress : bool) :
  outcome (fetch progress) = Exhausted ->
  Z.of_nat (List.length (requests (fetch progress))) = Z.max 0 max_requests
  \/ exists front call,
       requests (fetch progress) = front ++ [call]
       /\ (call_response call = Return []
           \/ stop_early (page_oldest (call_page call)) from_ts = true).
Proof.
  rewrite fetch_unfold. destruct (invalid_range dt_from dt_to);
    [discriminate|].
  intros Hout.
  destruct (fetch_loop_end_reasons http_user_status repr_envelope handle
              from_ts to_ts page_size max_requests progress
              (S (Z.to_nat max_requests)) 0%nat 1 0 0) as [H|H]; auto.
  - lia.
  - left. rewrite Z.sub_0_r in H. exact H.
Qed.

(** X7.  The progress callback is advisory: with or without it the same
    requests are issued, the same submissions are yielded and the
    generator ends the same way; without it nothing is reported. *)
Theorem fetch_progress_is_advisory :
  requests (fetch false) = requests (fetch true)
  /\ yielded (fetch false) = yielded (fetch true)
  /\ outcome (fetch false) = outcome (fetch true)
  /\ progress_log (fetch false) = [].
Proof.
  rewrite !fetch_unfold. destruct (invalid_range dt_from dt_to);
    [repeat split|].
  apply (fetch_loop_progress http_user_status repr_envelope handle from_ts
           to_ts page_size max_requests).
Qed.

End FetchMore.

Lemma fetch_error_is_fatal_witness :
  let run := fetch_submissions_in_period flaky_http sample_repr "x"
               (Some (at_second 0)) (Some (at_second 300)) 1000 200 true in
  List.length (requests run) = 2%nat
  /\ outcome run = Raised (RequestException "Read timed out.").
Proof.
  exact (fetch_error_is_fatal flaky_http sample_repr "x"
           (Some (at_second 0)) (Some (at_second 300)) 1000 200 true 1%nat
           (mkCall 4 1000 (Raise (RequestException "Read timed out.")))
           (RequestException "Read timed out.") eq_refl eq_refl).
Defined.

Lemma fetch_request_offsets_witness :
  let run := fetch_submissions_in_period two_page_http sample_repr "x"
               (Some (at_second 0)) (Some (at_second 300)) 1000 200 true in
  nth_error (requests run) 1
  = Some (mkCall 4 1000
            (Return [ mkSubmission (Some 10) (Some "OK")
                        (Some (mkProblem (Some 3) (Some "C") None None
                                         None)) ]))
  /\ 4 = 1 + Z.of_nat
               (List.length (flat_map call_page (firstn 1 (requests run)))).
Proof.
  intros run. split; [reflexivity|].
  exact (proj1 (proj2
           (fetch_request_offsets two_page_http sample_repr "x"
              (Some (at_second 0)) (Some (at_second 300)) 1000 200 true
              1%nat _ eq_refl))).
Defined.

Lemma fetch_failed_envelope_aborts_witness :
  let run := fetch_submissions_in_period failed_http sample_repr "x"
               (Some (at_second 0)) (Some (at_second 300)) 1000 200 true in
  List.length (requests run) = 1%nat
  /\ outcome run
     = Raised (RuntimeError
                 "Codeforces API error: handle: User with handle x not found").
Proof.
  refine (fetch_failed_envelope_aborts failed_http sample_repr "x"
            (Some (at_second 0)) (Some (at_second 300)) 1000 200 true 0%nat
            _ _ eq_refl eq_refl _).
  discriminate.
Defined.

Lemma fetch_empty_page_ends_witness :
  let run := fetch_submissions_in_period untimed_http sample_repr "x"
               (Some (at_second 0)) (Some (at_second 300)) 1000 200 true in
  List.length (requests run) = 2%nat /\ outcome run = Exhausted.
Proof.
  exact (fetch_empty_page_ends untimed_http sample_repr "x"
           (Some (at_second 0)) (Some (at_second 300)) 1000 200 true 1%nat
           (mkCall 2 1000 (Return [])) eq_refl eq_refl).
Defined.

Lemma fetch_end_reasons_witness :
  let run := fetch_submissions_in_period two_page_http sample_repr "x"
               (Some (at_second 60)) (Some (at_second 300)) 1000 200 true in
  outcome run = Exhausted
  /\ (Z.of_nat (List.length (requests run)) = Z.max 0 200
      \/ exists front call,
           requests run = front ++ [call]
           /\ (call_response call = Return []
               \/ stop_early (page_oldest (call_page call))
                    (fst (window_ts (Some (at_second 60))
                                    (Some (at_second 300)))) = true)).
Proof.
  intros run. split; [reflexivity|].
  exact (fetch_end_reasons two_page_http sample_repr "x"
           (Some (at_second 60)) (Some (at_second 300)) 1000 200 true
           eq_refl).
Defined.

(** ** The reducer, composed and ordered *)

Lemma merge_entry_step (gd gc : option SolvedRecord) (s : Submission) :
  merge_entry gd
    (match gc with
     | None => Some (submission_record s)
     | Some r => if submission_ts s <? rec_ts r
                 then Some (submission_record s) else Some r
     end)
  = match merge_entry gd gc with
    | None => Some (submission_record s)
    | Some r => if submission_ts s <? rec_ts r
                then Some (submission_record s) else Some r
    end.
Proof.
  destruct gd as [rd|], gc as [rc|]; cbn [merge_entry]; auto.
  destruct (Z.ltb_spec (submission_ts s) (rec_ts rc)) as [H1|H1];
    destruct (Z.ltb_spec (rec_ts rc) (rec_ts rd)) as [H2|H2];
    cbn [merge_entry]; rewrite ?rec_ts_submission_record;
    repeat match goal with
           | |- context [?a <? ?b] => destruct (Z.ltb_spec a b)
           end; auto; lia.
Qed.

Lemma collect_fold_get (l : list Submission) (d : PyDict.t SolvedRecord)
    (k : string) :
  PyDict.get k (fold_left collect_step l d)
  = merge_entry (PyDict.get k d)
                (PyDict.get k (collect_first_ac_per_problem l)).
Proof.
  induction l as [|s l IH] using rev_ind.
  - simpl. destruct (PyDict.get k d); reflexivity.
  - rewrite collect_snoc, fold_left_app. cbn [fold_left].
    rewrite !collect_step_get, IH.
    destruct (verdict_ok s && String.eqb (submission_key s) k);
      [|reflexivity].
    symmetry. apply merge_entry_step.
Qed.

(** X8.  Reducing a stream that comes in two parts gives, key by key,
    the merge of the two partial results: the entry with the earlier
    timestamp, and the entry of the first part when the timestamps are
    equal. *)
Theorem collect_of_concatenation (l1 l2 : list Submission) (k : string) :
  PyDict.get k (collect_first_ac_per_problem (l1 ++ l2))
  = merge_entry (PyDict.get k (collect_first_ac_per_problem l1))
                (PyDict.get k (collect_first_ac_per_problem l2)).
Proof.
  unfold collect_first_ac_per_problem at 1. rewrite fold_left_app.
  apply collect_fold_get.
Qed.

Lemma collect_step_keys (d : PyDict.t SolvedRecord) (s : Submission) :
  PyDict.keys (collect_step d s)
  = if verdict_ok s
    then if PyDict.contains (submission_key s) d
         then PyDict.keys d
         else PyDict.keys d ++ [submission_key s]
    else PyDict.keys d.
Proof.
  unfold collect_step, PyDict.contains.
  destruct (verdict_ok s); cbn [negb]; [|reflexivity].
  destruct (PyDict.get (submission_key s) d) as [r|] eqn:E.
  - destruct (submission_ts s <? rec_ts r); [|reflexivity].
    rewrite PyDictMore.keys_set. unfold PyDict.contains. now rewrite E.
  - rewrite PyDictMore.keys_set. unfold PyDict.contains. now rewrite E.
Qed.

Lemma first_occurrences_snoc (l : list string) (x : string) :
  first_occurrences (l ++ [x])
  = if in_dec string_dec x l
    then first_occurrences l
    else first_occurrences l ++ [x].
Proof.
  unfold first_occurrences. rewrite rev_app_distr. cbn [rev app nodup].
  destruct (in_dec string_dec x (rev l)) as [Hin|Hnin];
    destruct (in_dec string_dec x l) as [Hin'|Hnin']; auto.
  - exfalso. apply Hnin'. now apply in_rev.
  - exfalso. apply Hnin. now apply in_rev in Hin'.
Qed.

Lemma first_occurrences_In (l : list string) (x : string) :
  In x (first_occurrences l) <-> In x l.
Proof.
  unfold first_occurrences. rewrite <- in_rev, nodup_In, <- in_rev.
  reflexivity.
Qed.

(** X9.  The keys of the returned mapping are pairwise distinct and
    stand in the order in which their problems were first seen accepted
    in the stream; so the mapping has at most as many entries as the
    stream has accepted submissions. *)
Theorem collect_keys_in_first_acceptance_order (l : list Submission) :
  PyDict.keys (collect_first_ac_per_problem l)
  = first_occurrences (accepted_keys l)
  /\ NoDup (PyDict.keys (collect_first_ac_per_problem l))
  /\ (List.length (collect_first_ac_per_problem l)
      <= List.length (filter verdict_ok l))%nat.
Proof.
  assert (H : PyDict.keys (collect_first_ac_per_problem l)
              = first_occurrences (accepted_keys l)).
  { induction l as [|s l IH] using rev_ind; [reflexivity|].
    rewrite collect_snoc, collect_step_keys. unfold accepted_keys.
    rewrite filter_app. cbn [filter].
    destruct (verdict_ok s); cbn [map app].
    - rewrite map_app. cbn [map]. rewrite first_occurrences_snoc.
      fold (accepted_keys l). rewrite <- IH.
      unfold PyDict.contains.
      destruct (PyDict.get (submission_key s)
                  (collect_first_ac_per_problem l)) as [r|] eqn:E;
        destruct (in_dec string_dec (submission_key s) (accepted_keys l))
          as [Hin|Hnin]; auto.
      + exfalso. apply Hnin. apply first_occurrences_In. rewrite <- IH.
        destruct (in_dec string_dec (submission_key s)
                    (PyDict.keys (collect_first_ac_per_problem l)));
          auto.
        apply PyDictMore.get_none_keys in n. congruence.
      + exfalso. apply PyDictMore.get_none_keys in E. apply E.
        rewrite IH. now apply first_occurrences_In.
    - rewrite app_nil_r. exact IH. }
  split; [exact H|]. split.
  - rewrite H. unfold first_occurrences. apply NoDup_rev, NoDup_nodup.
  - replace (List.length (collect_first_ac_per_problem l))
      with (List.length (PyDict.keys (collect_first_ac_per_problem l)))
      by apply length_map.
    rewrite H. unfold first_occurrences, accepted_keys.
    rewrite length_rev.
    etransitivity; [apply NoDup_incl_length|].
    + apply NoDup_nodup.
    + intros x Hx. apply nodup_In in Hx. exact Hx.
    + rewrite length_rev, length_map. reflexivity.
Qed.

(** X10.  The tuple stored for a key is the tuple of the first accepted
    submission of the stream that carries the least timestamp for that
    key: every accepted submission for the key before it is strictly
    later, every one after it is not earlier. *)
Theorem collect_keeps_first_earliest (l : list Submission) (k : string)
    (r : SolvedRecord) :
  PyDict.get k (collect_first_ac_per_problem l) = Some r ->
  exists l1 s l2,
    l = l1 ++ s :: l2
    /\ verdict_ok s = true /\ submission_key s = k
    /\ submission_record s = r
    /\ (forall s', In s' l1 -> verdict_ok s' = true ->
                   submission_key s' = k ->
                   submission_ts s < submission_ts s')
    /\ (forall s', In s' l2 -> verdict_ok s' = true ->
                   submission_key s' = k ->
                   submission_ts s <= submission_ts s').
Proof.
  revert r. induction l as [|s l IH] using rev_ind; intros r.
  - discriminate.
  - rewrite collect_snoc, collect_step_get.
    assert (Hkeep : PyDict.get k (collect_first_ac_per_problem l) = Some r ->
                    (verdict_ok s = true -> submission_key s = k ->
                     rec_ts r <= submission_ts s) ->
              exists l1 s0 l2,
                l ++ [s] = l1 ++ s0 :: l2
                /\ verdict_ok s0 = true /\ submission_key s0 = k
                /\ submission_record s0 = r
                /\ (forall s', In s' l1 -> verdict_ok s' = true ->
                               submission_key s' = k ->
                               submission_ts s0 < submission_ts s')
                /\ (forall s', In s' l2 -> verdict_ok s' = true ->
                               submission_key s' = k ->
                               submission_ts s0 <= submission_ts s')).
    { intros Hget Hs.
      destruct (IH r Hget) as (l1 & s0 & l2 & -> & Hok & Hk & Hr & H1 & H2).
      exists l1, s0, (l2 ++ [s]). rewrite <- app_assoc. cbn [app].
      repeat split; auto.
      intros s' Hin. apply in_app_iff in Hin.
      destruct Hin as [Hin|[<-|[]]]; auto.
      intros Hok' Hk'. specialize (Hs Hok' Hk'). rewrite <- Hr in Hs.
      now rewrite rec_ts_submission_record in Hs. }
    assert (Hnew : verdict_ok s = true -> submission_key s = k ->
                   (forall s', In s' l -> verdict_ok s' = true ->
                               submission_key s' = k ->
                               submission_ts s < submission_ts s') ->
              exists l1 s0 l2,
                l ++ [s] = l1 ++ s0 :: l2
                /\ verdict_ok s0 = true /\ submission_key s0 = k
                /\ submission_record s0 = submission_record s
                /\ (forall s', In s' l1 -> verdict_ok s' = true ->
                               submission_key s' = k ->
                               submission_ts s0 < submission_ts s')
                /\ (forall s', In s' l2 -> verdict_ok s' = true ->
                               submission_key s' = k ->
                               submission_ts s0 <= submission_ts s')).
    { intros Hok Hk Hall. exists l, s, []. repeat split; auto.
      intros s' []. }
    destruct (verdict_ok s) eqn:Hok; cbn [andb].
    + destruct (String.eqb_spec (submission_key s) k) as [Hk|Hk].
      * destruct (PyDict.get k (collect_first_ac_per_problem l)) as [r0|]
          eqn:E.
        -- destruct (collect_get_some l k r0 E) as [_ Hmin].
           destruct (Z.ltb_spec (submission_ts s) (rec_ts r0)) as [Hlt|Hge];
             intros [= <-].
           ++ apply Hnew; auto. intros s' H1 H2 H3.
              specialize (Hmin s' H1 H2 H3). lia.
           ++ apply Hkeep; auto.
        -- intros [= <-]. apply Hnew; auto. intros s' H1 H2 H3.
           exfalso. now apply (proj1 (collect_get_none l k) E s').
      * intros Hget. apply Hkeep; auto. congruence.
    + intros Hget. apply Hkeep; auto. congruence.
Qed.

Lemma collect_keeps_first_earliest_witness :
  exists l1 s l2,
    tie_stream = l1 ++ s :: l2
    /\ verdict_ok s = true /\ submission_key s = "nopid-Sum"
    /\ submission_record s = (50, ["math"], "Sum", Some 800)
    /\ (forall s', In s' l1 -> verdict_ok s' = true ->
                   submission_key s' = "nopid-Sum" ->
                   submission_ts s < submission_ts s')
    /\ (forall s', In s' l2 -> verdict_ok s' = true ->
                   submission_key s' = "nopid-Sum" ->
                   submission_ts s <= submission_ts s').
Proof.
  exact (collect_keeps_first_earliest tie_stream "nopid-Sum"
           (50, ["math"], "Sum", Some 800) eq_refl).
Defined.

(** ** The aggregation, counted *)

Lemma dict_sum_set (k : string) (v : Z) (d : PyDict.t Z) :
  dict_sum (PyDict.set k v d)
  = dict_sum d - get_default (PyDict.get k d) 0 + v.
Proof.
  induction d as [|[k' v'] d IH]; simpl.
  - lia.
  - destruct (String.eqb k' k); simpl; [lia|]. rewrite IH. lia.
Qed.

Lemma aggregate_tag_sum (rv : option float) (st : agg_state) (tag : string) :
  dict_sum (tag_counts (aggregate_tag rv st tag))
  = dict_sum (tag_counts st) + 1.
Proof.
  unfold aggregate_tag. destruct rv; cbn [tag_counts];
    rewrite dict_sum_set; lia.
Qed.

Lemma fold_tags_sum (rv : option float) (tags : list string)
    (st : agg_state) :
  dict_sum (tag_counts (fold_left (aggregate_tag rv) tags st))
  = dict_sum (tag_counts st) + Z.of_nat (List.length tags).
Proof.
  revert st. induction tags as [|tag tags IH]; intros st; cbn [fold_left].
  - simpl. lia.
  - rewrite IH, aggregate_tag_sum. cbn [List.length]. lia.
Qed.

Lemma aggregate_fold_sum (records : list SolvedRecord) (st : agg_state) :
  dict_sum (tag_counts (fold_left aggregate_record records st))
  = dict_sum (tag_counts st) + total_tags records.
Proof.
  revert st. induction records as [|r records IH]; intros st;
    cbn [fold_left].
  - simpl. lia.
  - rewrite IH. destruct r as [[[ts tags] nm] rating].
    change (total_tags ((ts, tags, nm, rating) :: records))
      with (Z.of_nat (List.length tags) + total_tags records).
    unfold aggregate_record. rewrite fold_tags_sum.
    cbn [tag_counts]. lia.
Qed.

(** X11.  The tag counts add up to the number of tags carried by the
    solved records: every tag of every record is counted once, and
    nothing else is. *)
Theorem tag_counts_add_up (solved_map : PyDict.t SolvedRecord) :
  dict_sum (tag_counts (aggregate solved_map))
  = total_tags (PyDict.values solved_map).
Proof.
  unfold aggregate. rewrite aggregate_fold_sum. reflexivity.
Qed.

Lemma expected_ratings_length (t : string) (records : list SolvedRecord) :
  Z.of_nat (List.length (expected_ratings t records))
  <= expected_count t records
  /\ (forallb rated records = true ->
      Z.of_nat (List.length (expected_ratings t records))
      = expected_count t records).
Proof.
  induction records as [|r records [IH1 IH2]].
  - split; [simpl; lia|reflexivity].
  - change (expected_ratings t (r :: records))
      with (match rating_value (rec_rating r) with
            | Some f => repeat f (tag_occurrences t r)
            | None => []
            end ++ expected_ratings t records).
    change (expected_count t (r :: records))
      with (Z.of_nat (tag_occurrences t r) + expected_count t records).
    rewrite length_app. cbn [forallb]. unfold rated at 1.
    destruct (rating_value (rec_rating r)) as [f|].
    + rewrite repeat_length. split; [lia|].
      cbn [andb]. intros H. specialize (IH2 H). lia.
    + split; [simpl; lia|]. cbn [andb]. discriminate.
Qed.

Lemma expected_all_ratings_length (records : list SolvedRecord) :
  List.length (expected_all_ratings records)
  = List.length (filter rated records).
Proof.
  induction records as [|r records IH]; [reflexivity|].
  change (expected_all_ratings (r :: records))
    with (match rating_value (rec_rating r) with
          | Some f => [f]
          | None => []
          end ++ expected_all_ratings records).
  rewrite length_app. cbn [filter]. unfold rated at 1.
  destruct (rating_value (rec_rating r)); cbn [List.length]; lia.
Qed.

(** X12.  A tag never has more ratings than solved problems counted:
    its rating list is at most as long as its count, and exactly as
    long when every solved record has a usable rating; the global
    rating list holds one rating per rated record, so never more than
    there are solved problems. *)
Theorem ratings_never_outnumber_counts (solved_map : PyDict.t SolvedRecord)
    (t : string) :
  let st := aggregate solved_map in
  Z.of_nat (List.length (ratings_at t st)) <= counts_at t st
  /\ (forallb rated (PyDict.values solved_map) = true ->
      Z.of_nat (List.length (ratings_at t st)) = counts_at t st)
  /\ List.length (all_ratings st)
     = List.length (filter rated (PyDict.values solved_map))
  /\ Z.of_nat (List.length (all_ratings st)) <= PyDict.len solved_map.
Proof.
  intros st. subst st.
  destruct (aggregate_spec solved_map t) as (Hc & Hr & Ha).
  rewrite Hc, Hr, Ha.
  destruct (expected_ratings_length t (PyDict.values solved_map))
    as [H1 H2].
  split; [exact H1|]. split; [exact H2|].
  rewrite expected_all_ratings_length. split; [reflexivity|].
  unfold PyDict.len.
  pose proof (filter_length_le rated (PyDict.values solved_map)) as Hle.
  unfold PyDict.values in *. rewrite length_map in Hle. lia.
Qed.

Lemma expected_count_permutation (t : string)
    (l l' : list SolvedRecord) :
  Permutation l l' -> expected_count t l = expected_count t l'.
Proof.
  unfold expected_count.
  induction 1 as [|x l l' Hp IH|x y l|l l' l'' H1 IH1 H2 IH2];
    cbn [fold_right]; lia.
Qed.

Lemma tag_report_line_facts (solved_map : PyDict.t SolvedRecord)
    (lines : list tag_line) (tag : string) (cnt : Z)
    (stats : option (Z * Z * float)) :
  tag_report (aggregate solved_map) = Return lines ->
  In (TagLine tag cnt stats) lines ->
  cnt = expected_count tag (PyDict.values solved_map)
  /\ stats_of (expected_ratings tag (PyDict.values solved_map)) stats.
Proof.
  intros Hrep Hin.
  pose proof (aggregate_invariant solved_map) as Hinv.
  set (st := aggregate solved_map) in *.
  destruct (tag_counts st) as [|item items] eqn:E.
  - unfold tag_report in Hrep. rewrite E in Hrep. injection Hrep as <-.
    destruct Hin as [H|[]]. discriminate H.
  - destruct (tag_report_lines st Hinv) as (lines' & Hrep' & HF);
      [congruence|].
    rewrite Hrep in Hrep'. injection Hrep' as <-.
    destruct (sorted_tag_keys (PyDict.items (tag_counts st))) as [_ Hp].
    destruct (Forall2_In_right _ _ _ _ HF Hin)
      as ([tag' cnt'] & Hitem & (stats' & Hline & Hstats)).
    cbn [fst snd] in Hline, Hstats. injection Hline as -> -> ->.
    apply Permutation_in with (l' := PyDict.items (tag_counts st)) in Hitem;
      [|apply Permutation_sym, Hp].
    assert (Hget : PyDict.get tag' (tag_counts st) = Some cnt').
    { apply PyDictMore.in_nodup_get.
      - apply (inv_counts_nodup st Hinv).
      - exact Hitem. }
    destruct (aggregate_spec solved_map tag') as (Hc & Hr & _).
    fold st in Hc, Hr. unfold counts_at in Hc. unfold ratings_at in Hr.
    rewrite Hget in Hc. cbn [get_default] in Hc.
    rewrite Hr in Hstats. split; [exact Hc|exact Hstats].
Qed.

Lemma int_sum_permutation (l l' : list Z) :
  Permutation l l' -> int_sum l = int_sum l' /\ abs_sum l = abs_sum l'.
Proof.
  unfold int_sum, abs_sum.
  induction 1 as [|x l l' Hp [IH1 IH2]|x y l|l l' l'' H1 [IH1 IH2] H2 [IH3 IH4]];
    cbn [fold_right]; split; lia.
Qed.

(** With exact sums the statistics of integer ratings are those of any
    rearrangement. *)
Lemma int_stats_permutation (zs zs' : list Z)
    (stats stats' : option (Z * Z * float)) :
  Permutation zs zs' -> sum_fits zs ->
  int_stats_of zs stats -> int_stats_of zs' stats' -> stats = stats'.
Proof.
  intros Hp Hfit H1 H2.
  destruct zs as [|z zs]; destruct zs' as [|z' zs'].
  - cbn in H1, H2. congruence.
  - apply Permutation_nil in Hp. discriminate.
  - apply Permutation_sym, Permutation_nil in Hp. discriminate.
  - set (l := z :: zs) in *. set (l' := z' :: zs') in *.
    destruct H1 as (mn & mx & -> & Hmn & Hmnl & Hmx & Hmxl).
    destruct H2 as (mn' & mx' & -> & Hmn' & Hmnl' & Hmx' & Hmxl').
    assert (Emn : mn = mn').
    { pose proof (Hmnl mn' (Permutation_in _ (Permutation_sym Hp) Hmn')).
      pose proof (Hmnl' mn (Permutation_in _ Hp Hmn)). lia. }
    assert (Emx : mx = mx').
    { pose proof (Hmxl mx' (Permutation_in _ (Permutation_sym Hp) Hmx')).
      pose proof (Hmxl' mx (Permutation_in _ Hp Hmx)). lia. }
    destruct (int_sum_permutation l l' Hp) as [Es Ea].
    pose proof (Permutation_length Hp) as El.
    assert (Hfit' : sum_fits l').
    { destruct Hfit as [F1 F2]. split; [now rewrite <- Ea|now rewrite <- El]. }
    destruct (py_mean_small l ltac:(discriminate) Hfit) as [E1 _].
    destruct (py_mean_small l' ltac:(discriminate) Hfit') as [E2 _].
    rewrite E1, E2, Es, El, Emn, Emx. reflexivity.
Qed.

Lemma ratings_in_range_permutation (l l' : list SolvedRecord) :
  Permutation l l' -> ratings_in_range l -> ratings_in_range l'.
Proof.
  intros Hp H r z Hin. apply (H r z).
  apply Permutation_in with (l := l'); [now apply Permutation_sym|exact Hin].
Qed.

(** X13.  What a tag's statistics owe to the order in which the solved
    map is iterated.  Two maps holding the same records give each tag
    the same count, and rating lists that are rearrangements of each
    other.  When the ratings are integers whose sum binary64 adds
    exactly, the tag's line of the report shows the same count, least
    rating, greatest rating and average for both maps.  (Without exact
    sums the average can differ with the order, see
    [average_depends_on_order].) *)
Theorem tag_statistics_order_independent
    (m1 m2 : PyDict.t SolvedRecord) (t : string) :
  Permutation (PyDict.values m1) (PyDict.values m2) ->
  counts_at t (aggregate m1) = counts_at t (aggregate m2)
  /\ Permutation (ratings_at t (aggregate m1)) (ratings_at t (aggregate m2))
  /\ Permutation (all_ratings (aggregate m1)) (all_ratings (aggregate m2))
  /\ (ratings_in_range (PyDict.values m1) ->
      sum_fits (expected_int_ratings t (PyDict.values m1)) ->
      forall lines1 lines2 cnt1 cnt2 stats1 stats2,
        tag_report (aggregate m1) = Return lines1 ->
        tag_report (aggregate m2) = Return lines2 ->
        In (TagLine t cnt1 stats1) lines1 ->
        In (TagLine t cnt2 stats2) lines2 ->
        cnt1 = cnt2 /\ stats1 = stats2).
Proof.
  intros Hp.
  destruct (aggregate_spec m1 t) as (Hc1 & Hr1 & Ha1).
  destruct (aggregate_spec m2 t) as (Hc2 & Hr2 & Ha2).
  rewrite Hc1, Hc2, Hr1, Hr2, Ha1, Ha2. split; [|split; [|split]].
  - now apply expected_count_permutation.
  - unfold expected_ratings. now apply Permutation_flat_map.
  - unfold expected_all_ratings. now apply Permutation_flat_map.
  - intros Hrange Hfit lines1 lines2 cnt1 cnt2 stats1 stats2
      Hrep1 Hrep2 Hin1 Hin2.
    destruct (tag_report_line_facts m1 lines1 t cnt1 stats1 Hrep1 Hin1)
      as [Hcnt1 Hst1].
    destruct (tag_report_line_facts m2 lines2 t cnt2 stats2 Hrep2 Hin2)
      as [Hcnt2 Hst2].
    split.
    + rewrite Hcnt1, Hcnt2. now apply expected_count_permutation.
    + pose proof (ratings_in_range_permutation _ _ Hp Hrange) as Hrange2.
      destruct (expected_ratings_small t (PyDict.values m1) Hrange)
        as [Heq1 Hsmall1].
      destruct (expected_ratings_small t (PyDict.values m2) Hrange2)
        as [Heq2 Hsmall2].
      rewrite Heq1 in Hst1. rewrite Heq2 in Hst2.
      apply stats_of_small in Hst1; [|exact Hsmall1].
      apply stats_of_small in Hst2; [|exact Hsmall2].
      apply (int_stats_permutation _ _ _ _
               (Permutation_flat_map _ Hp) Hfit Hst1 Hst2).
Qed.

Lemma tag_statistics_order_independent_witness :
  Permutation (PyDict.values export_map) (PyDict.values (rev export_map))
  /\ ratings_in_range (PyDict.values export_map)
  /\ sum_fits (expected_int_ratings "dp" (PyDict.values export_map))
  /\ counts_at "dp" (aggregate export_map)
     = counts_at "dp" (aggregate (rev export_map))
  /\ forall lines1 lines2 cnt1 cnt2 stats1 stats2,
       tag_report (aggregate export_map) = Return lines1 ->
       tag_report (aggregate (rev export_map)) = Return lines2 ->
       In (TagLine "dp" cnt1 stats1) lines1 ->
       In (TagLine "dp" cnt2 stats2) lines2 ->
       cnt1 = cnt2 /\ stats1 = stats2.
Proof.
  assert (H : Permutation (PyDict.values export_map)
                          (PyDict.values (rev export_map))).
  { unfold PyDict.values. apply Permutation_map, Permutation_rev. }
  assert (Hrange : ratings_in_range (PyDict.values export_map)).
  { intros r z Hin Hz. cbn in Hin.
    destruct Hin as [<-|[<-|[<-|[]]]]; cbn in Hz; try discriminate;
      injection Hz as <-; reflexivity. }
  assert (Hfit : sum_fits
                   (expected_int_ratings "dp" (PyDict.values export_map))).
  { split; reflexivity. }
  split; [exact H|]. split; [exact Hrange|]. split; [exact Hfit|].
  pose proof (tag_statistics_order_independent export_map
                (rev export_map) "dp" H) as (Hc & _ & _ & Hs).
  split; [exact Hc|]. exact (Hs Hrange Hfit).
Defined.

(** Outside that range the order matters: these four ratings sum to
    [2^53] in map order and to [2^53 + 2] in the reverse order, and the
    two reports show different averages. *)
Example average_depends_on_order :
  ratings_in_range (PyDict.values inexact_sum_map)
  /\ ~ sum_fits (expected_int_ratings "dp" (PyDict.values inexact_sum_map))
  /\ py_sum (expected_ratings "dp" (PyDict.values inexact_sum_map))
     = float_of_ratio (2 ^ 53) 1
  /\ py_sum (expected_ratings "dp" (PyDict.values (rev inexact_sum_map)))
     = float_of_ratio (2 ^ 53 + 2) 1
  /\ tag_report (aggregate inexact_sum_map)
     <> tag_report (aggregate (rev inexact_sum_map)).
Proof.
  split.
  { intros r z Hin Hz. cbn in Hin.
    destruct Hin as [<-|[<-|[<-|[<-|[]]]]]; cbn in Hz;
      injection Hz as <-; reflexivity. }
  split.
  { intros [H _]. vm_compute in H. discriminate H. }
  split; [vm_compute; reflexivity|]. split; [vm_compute; reflexivity|].
  vm_compute. discriminate.
Qed.

(** ** The calendar: ordinals and dates *)

Lemma month_day_table :
  forallb (month_day_ok false) (seq 0 365) = true
  /\ forallb (month_day_ok true) (seq 0 366) = true.
Proof. split; vm_compute; reflexivity. Qed.

Lemma month_day_spec (leapyear : bool) (n : Z) :
  0 <= n < 365 + (if leapyear then 1 else 0) ->
  month_day_ok leapyear (Z.to_nat n) = true.
Proof.
  intros Hn. destruct month_day_table as [H0 H1].
  destruct leapyear.
  - rewrite forallb_forall in H1. apply H1. apply in_seq. lia.
  - rewrite forallb_forall in H0. apply H0. apply in_seq. lia.
Qed.

Lemma month_length_bounds (n : nat) :
  nth n [0; 31; 28; 31; 30; 31; 30; 31; 31; 30; 31; 30; 31] 0 <= 31
  /\ 0 <= nth n days_before_month_table 0.
Proof.
  unfold days_before_month_table.
  do 13 (destruct n as [|n]; [simpl; lia|]). destruct n; simpl; lia.
Qed.

Lemma year_day_table :
  forallb (year_day_ok false) month_days = true
  /\ forallb (year_day_ok true) month_days = true.
Proof. split; vm_compute; reflexivity. Qed.

Lemma year_day_spec (y m d : Z) :
  1 <= m <= 12 -> 1 <= d <= days_in_month y m ->
  days_before_month y m + d <= 365 + (if is_leap y then 1 else 0)
  /\ month_day (is_leap y) (days_before_month y m + d - 1) = (m, d).
Proof.
  intros Hm Hd.
  assert (Hd31 : d <= 31).
  { unfold days_in_month in Hd.
    destruct ((m =? 2) && is_leap y); [lia|].
    pose proof (month_length_bounds (Z.to_nat m)). lia. }
  assert (Hin : In (Z.to_nat m, Z.to_nat d) month_days).
  { apply in_prod; apply in_seq; lia. }
  assert (Hok : year_day_ok (is_leap y) (Z.to_nat m, Z.to_nat d) = true).
  { destruct year_day_table as [H0 H1].
    destruct (is_leap y).
    - rewrite forallb_forall in H1. now apply H1.
    - rewrite forallb_forall in H0. now apply H0. }
  unfold year_day_ok in Hok. cbn [fst snd] in Hok.
  rewrite !Z2Nat.id in Hok by lia.
  unfold days_in_month in Hd. unfold days_before_month.
  apply orb_prop in Hok. destruct Hok as [Hok|Hok].
  - apply negb_true_iff, Z.leb_gt in Hok. lia.
  - apply andb_prop in Hok. destruct Hok as [H1 H2].
    apply Z.leb_le in H1. split; [exact H1|].
    destruct (month_day (is_leap y) _) as [m' d'].
    apply andb_prop in H2. destruct H2 as [H2 H3].
    apply Z.eqb_eq in H2, H3. congruence.
Qed.

Lemma year_parts (a b c e Y : Z) :
  0 <= a -> 0 <= b <= 3 -> 0 <= c <= 24 -> 0 <= e <= 3 ->
  Y - 1 = 400 * a + 100 * b + 4 * c + e ->
  is_leap Y = (e =? 3) && (negb (c =? 24) || (b =? 3))
  /\ days_before_year Y = 146097 * a + 36524 * b + 1461 * c + 365 * e.
Proof.
  intros Ha Hb Hc He HY. unfold is_leap, days_before_year. split.
  - destruct (Z.eqb_spec e 3), (Z.eqb_spec c 24), (Z.eqb_spec b 3);
      cbn [andb orb negb];
      repeat match goal with
             | |- context [?x mod ?y =? 0] =>
                 destruct (Z.eqb_spec (x mod y) 0)
             end; cbn [andb orb negb]; try reflexivity; exfalso;
      Z.to_euclidean_division_equations; lia.
  - Z.to_euclidean_division_equations; lia.
Qed.

Lemma last_day_of_leap_year (Y : Z) :
  is_leap Y = true ->
  days_in_month Y 12 = 31 /\ ymd2ord Y 12 31 = days_before_year Y + 366.
Proof.
  intros HL. unfold ymd2ord, days_before_month, days_in_month.
  rewrite HL. change (12 =? 2) with false. change (2 <? 12) with true.
  change (Z.to_nat 12) with 12%nat.
  cbn [andb nth days_before_month_table].
  split; [reflexivity|lia].
Qed.

(** [ord2ymd] gives a date, and the date whose ordinal was asked for. *)
Lemma ord2ymd_spec (n0 : Z) :
  1 <= n0 <= MAXORDINAL ->
  let '(y, m, d) := ord2ymd n0 in
  valid_date y m d /\ ymd2ord y m d = n0.
Proof.
  intros Hn0. unfold MAXORDINAL in Hn0. unfold ord2ymd.
  set (q := n0 - 1).
  set (n400 := q / 146097). set (r400 := q mod 146097).
  set (n100 := r400 / 36524). set (r100 := r400 mod 36524).
  set (n4 := r100 / 1461). set (r4 := r100 mod 1461).
  set (n1 := r4 / 365). set (n := r4 mod 365).
  assert (E1 : q = 146097 * n400 + r400 /\ 0 <= r400 < 146097)
    by (subst n400 r400; split;
        [apply Z.div_mod|apply Z.mod_pos_bound]; lia).
  assert (E2 : r400 = 36524 * n100 + r100 /\ 0 <= r100 < 36524)
    by (subst n100 r100; split;
        [apply Z.div_mod|apply Z.mod_pos_bound]; lia).
  assert (E3 : r100 = 1461 * n4 + r4 /\ 0 <= r4 < 1461)
    by (subst n4 r4; split;
        [apply Z.div_mod|apply Z.mod_pos_bound]; lia).
  assert (E4 : r4 = 365 * n1 + n /\ 0 <= n < 365)
    by (subst n1 n; split;
        [apply Z.div_mod|apply Z.mod_pos_bound]; lia).
  clearbody n400 r400 n100 r100 n4 r4 n1 n. subst q.
  assert (B : 0 <= n400 <= 24 /\ 0 <= n100 <= 4 /\ 0 <= n4 <= 24
              /\ 0 <= n1 <= 4) by lia.
  set (y := n400 * 400 + 1 + n100 * 100 + n4 * 4 + n1).
  destruct (Z.eqb_spec n1 4) as [H4|H4]; cbn [orb].
  - (* the last day of a leap year inside a century *)
    destruct (year_parts n400 n100 n4 3 (y - 1)) as [HL HD];
      try (subst y; lia).
    replace ((3 =? 3) && (negb (n4 =? 24) || (n100 =? 3))) with true in HL
      by (destruct (Z.eqb_spec n4 24); [lia|reflexivity]).
    destruct (last_day_of_leap_year _ HL) as [HM HO].
    unfold valid_date. rewrite HM, HO, HD. subst y. lia.
  - destruct (Z.eqb_spec n100 4) as [H100|H100].
    + (* the last day of a year that is a multiple of 400 *)
      destruct (year_parts n400 3 24 3 (y - 1)) as [HL HD];
        try (subst y; lia).
      cbn in HL.
      destruct (last_day_of_leap_year _ HL) as [HM HO].
      unfold valid_date. rewrite HM, HO, HD. subst y. lia.
    + destruct (year_parts n400 n100 n4 n1 y) as [HL HD];
        try (subst y; lia).
      set (leapyear := (n1 =? 3) && (negb (n4 =? 24) || (n100 =? 3))) in *.
      assert (Hn : 0 <= n < 365 + (if leapyear then 1 else 0)).
      { destruct leapyear; lia. }
      pose proof (month_day_spec leapyear n Hn) as Hok.
      unfold month_day_ok in Hok. rewrite Z2Nat.id in Hok by lia.
      unfold month_day in Hok. cbv zeta in Hok.
      set (m := Z.shiftr (n + 50) 5) in *.
      set (preceding := nth (Z.to_nat m) days_before_month_table 0
                        + (if (2 <? m) && leapyear then 1 else 0)) in *.
      assert (Hy : 1 <= y <= 9999) by (subst y; lia).
      destruct (n <? preceding);
        unfold valid_date, ymd2ord, days_before_month, days_in_month;
        rewrite HL, HD;
        repeat (apply andb_prop in Hok; destruct Hok as [Hok ?]);
        repeat split; lia.
Qed.

Lemma days_before_year_succ (y : Z) :
  days_before_year (y + 1)
  = days_before_year y + 365 + (if is_leap y then 1 else 0).
Proof.
  unfold days_before_year, is_leap.
  replace (y + 1 - 1) with y by lia.
  repeat match goal with
         | |- context [?x mod ?y =? 0] => destruct (Z.eqb_spec (x mod y) 0)
         end; cbn [andb orb negb];
    Z.to_euclidean_division_equations; lia.
Qed.

Lemma days_before_year_mono (y y' : Z) :
  y <= y' -> days_before_year y <= days_before_year y'.
Proof.
  intros H. unfold days_before_year.
  Z.to_euclidean_division_equations; lia.
Qed.

Lemma ymd2ord_bounds (y m d : Z) :
  1 <= m <= 12 -> 1 <= d <= days_in_month y m ->
  days_before_year y < ymd2ord y m d <= days_before_year (y + 1).
Proof.
  intros Hm Hd. destruct (year_day_spec y m d Hm Hd) as [Hyd _].
  rewrite days_before_year_succ. unfold ymd2ord.
  assert (0 <= days_before_month y m).
  { unfold days_before_month.
    pose proof (proj2 (month_length_bounds (Z.to_nat m))).
    destruct ((2 <? m) && is_leap y); lia. }
  lia.
Qed.

Lemma ymd2ord_range (y m d : Z) :
  valid_date y m d -> 1 <= ymd2ord y m d <= MAXORDINAL.
Proof.
  intros (Hy & Hm & Hd).
  pose proof (ymd2ord_bounds y m d Hm Hd) as Hb.
  pose proof (days_before_year_mono 1 y ltac:(lia)) as H1.
  pose proof (days_before_year_mono (y + 1) 10000 ltac:(lia)) as H2.
  change (days_before_year 1) with 0 in H1.
  change (days_before_year 10000) with MAXORDINAL in H2. lia.
Qed.

(** The two conversions are inverse to each other on the dates. *)
Lemma ord2ymd_ymd2ord (y m d : Z) :
  valid_date y m d -> ord2ymd (ymd2ord y m d) = (y, m, d).
Proof.
  intros Hv. pose proof (ymd2ord_range y m d Hv) as Hr.
  pose proof (ord2ymd_spec _ Hr) as Hs.
  destruct (ord2ymd (ymd2ord y m d)) as [[y' m'] d'].
  destruct Hs as [(Hy' & Hm' & Hd') He].
  destruct Hv as (Hy & Hm & Hd).
  pose proof (ymd2ord_bounds y m d Hm Hd) as Hb.
  pose proof (ymd2ord_bounds y' m' d' Hm' Hd') as Hb'.
  assert (y' = y).
  { destruct (Z.lt_trichotomy y y') as [Hlt|[Heq|Hgt]]; [|auto|].
    - pose proof (days_before_year_mono (y + 1) y' ltac:(lia)). lia.
    - pose proof (days_before_year_mono (y' + 1) y ltac:(lia)). lia. }
  subst y'.
  destruct (year_day_spec y m d Hm Hd) as [_ H1].
  destruct (year_day_spec y m' d' Hm' Hd') as [_ H2].
  unfold ymd2ord in He.
  replace (days_before_month y m' + d' - 1)
    with (days_before_month y m + d - 1) in H2 by lia.
  congruence.
Qed.
(** ** Dates as text *)

Lemma digit_char_facts (x : Z) :
  0 <= x <= 9 ->
  is_digit (digit_char x) = true /\ digit_val (digit_char x) = x
  /\ is_space (digit_char x) = false
  /\ Ascii.eqb (digit_char x) "-" = false.
Proof.
  intros H.
  assert (Hc : x = 0 \/ x = 1 \/ x = 2 \/ x = 3 \/ x = 4 \/ x = 5 \/ x = 6
               \/ x = 7 \/ x = 8 \/ x = 9) by lia.
  destruct Hc as [E|[E|[E|[E|[E|[E|[E|[E|[E|E]]]]]]]]]; subst x;
    repeat split.
Qed.

Lemma month_day_text_table :
  forallb month_day_text_ok month_days = true.
Proof. vm_compute. reflexivity. Qed.

Lemma month_day_text (y m d : Z) :
  1 <= m <= 12 -> 1 <= d <= days_in_month y m ->
  match_month_day (strftime_md m d) = Some (m, d, "")
  /\ len (strftime_md m d) = 5
  /\ count_char "-" (strftime_md m d) = 1
  /\ rstrip (strftime_md m d) = strftime_md m d
  /\ strftime_md m d <> "".
Proof.
  intros Hm Hd.
  assert (Hd31 : d <= 31).
  { unfold days_in_month in Hd.
    destruct ((m =? 2) && is_leap y); [lia|].
    pose proof (month_length_bounds (Z.to_nat m)). lia. }
  assert (Hin : In (Z.to_nat m, Z.to_nat d) month_days).
  { apply in_prod; apply in_seq; lia. }
  pose proof month_day_text_table as Hok.
  rewrite forallb_forall in Hok. specialize (Hok _ Hin).
  unfold month_day_text_ok in Hok. cbn [fst snd] in Hok.
  rewrite !Z2Nat.id in Hok by lia.
  repeat (apply andb_prop in Hok; destruct Hok as [Hok ?]).
  destruct (match_month_day (strftime_md m d)) as [[[m' d'] rest]|];
    [|discriminate].
  repeat (apply andb_prop in Hok; destruct Hok as [Hok ?]).
  repeat match goal with
         | H : (_ =? _) = true |- _ => apply Z.eqb_eq in H
         | H : String.eqb _ _ = true |- _ => apply String.eqb_eq in H
         end.
  subst. repeat split; auto.
  intros E. rewrite E in *. discriminate.
Qed.

Lemma rstrip_cons (c : ascii) (t : string) :
  rstrip t = t -> t <> "" -> rstrip (String c t) = String c t.
Proof.
  intros H Hne. cbn [rstrip]. rewrite H.
  destruct t; [contradiction|reflexivity].
Qed.

(** What [strftime] prints for a date from the year 1000 on is a bare
    calendar date, which [strptime] reads back as that date. *)
Lemma strptime_strftime (y m d : Z) :
  1000 <= y <= 9999 -> 1 <= m <= 12 -> 1 <= d <= days_in_month y m ->
  strip (strftime_ymd y m d) = strftime_ymd y m d
  /\ bare_date (strftime_ymd y m d) (mkDatetime y m d 0 0 0 0 None).
Proof.
  intros Hy Hm Hd.
  destruct (month_day_text y m d Hm Hd) as (Hmd & Hlen & Hcnt & Hrs & Hne).
  assert (D1 := digit_char_facts (y / 1000 mod 10)
                  ltac:(Z.to_euclidean_division_equations; lia)).
  assert (D2 := digit_char_facts (y / 100 mod 10)
                  ltac:(Z.to_euclidean_division_equations; lia)).
  assert (D3 := digit_char_facts (y / 10 mod 10)
                  ltac:(Z.to_euclidean_division_equations; lia)).
  assert (D4 := digit_char_facts (y mod 10)
                  ltac:(Z.to_euclidean_division_equations; lia)).
  destruct D1 as (A1 & B1 & C1 & E1), D2 as (A2 & B2 & C2 & E2),
           D3 as (A3 & B3 & C3 & E3), D4 as (A4 & B4 & C4 & E4).
  unfold strftime_ymd.
  set (T := strftime_md m d) in *. clearbody T.
  unfold pad4, pad2. cbn [append].
  assert (Hdash : rstrip (String "-" T) = String "-" T)
    by now apply rstrip_cons.
  split; [|split; [|split]].
  - unfold strip. cbn [lstrip]. rewrite C1.
    repeat (apply rstrip_cons; [|discriminate]). exact Hdash.
  - unfold len in *. cbn [String.length]. lia.
  - cbn [count_char]. rewrite E1, E2, E3, E4, Hcnt. reflexivity.
  - unfold strptime_ymd, match_ymd.
    rewrite A1, A2, A3, A4. cbn [andb Ascii.eqb Bool.eqb].
    rewrite Hmd. cbn [String.eqb negb].
    rewrite B1, B2, B3, B4.
    replace (((y / 1000 mod 10 * 10 + y / 100 mod 10) * 10 + y / 10 mod 10)
               * 10 + y mod 10) with y
      by (Z.to_euclidean_division_equations; lia).
    replace ((1 <=? y) && (1 <=? d) && (d <=? days_in_month y m)) with true
      by (symmetry; rewrite !andb_true_iff, !Z.leb_le; lia).
    reflexivity.
Qed.
(** ** Handles *)

Lemma rstrip_idempotent (s : string) : rstrip (rstrip s) = rstrip s.
Proof.
  induction s as [|c s IH]; [reflexivity|].
  cbn [rstrip]. destruct (rstrip s) as [|c' r] eqn:E.
  - destruct (is_space c) eqn:Ec; [reflexivity|].
    cbn [rstrip]. now rewrite Ec.
  - cbn [rstrip] in *. rewrite IH. reflexivity.
Qed.

Lemma lstrip_head (s : string) :
  lstrip s = "" \/ exists c r, lstrip s = String c r /\ is_space c = false.
Proof.
  induction s as [|c s IH]; [now left|].
  cbn [lstrip]. destruct (is_space c) eqn:E; [exact IH|].
  right. now exists c, s.
Qed.

Lemma rstrip_head (c : ascii) (s : string) :
  is_space c = false -> rstrip (String c s) = String c (rstrip s).
Proof.
  intros H. cbn [rstrip]. destruct (rstrip s); [now rewrite H|reflexivity].
Qed.

Lemma strip_idempotent (s : string) : strip (strip s) = strip s.
Proof.
  unfold strip.
  destruct (lstrip_head s) as [E|(c & r & E & Hc)]; rewrite E.
  - reflexivity.
  - rewrite (rstrip_head c r Hc). cbn [lstrip]. rewrite Hc.
    rewrite <- (rstrip_head c r Hc). apply rstrip_idempotent.
Qed.

Lemma rstrip_last (s : string) (c : ascii) :
  is_space c = false ->
  rstrip (s ++ String c "")%string = (s ++ String c "")%string.
Proof.
  intros H. induction s as [|c' s IH].
  - cbn [append rstrip]. now rewrite H.
  - cbn [append]. cbn [rstrip]. rewrite IH.
    destruct s; reflexivity.
Qed.

Lemma endswith_last (s : string) (c : ascii) :
  endswith c (s ++ String c "")%string = true.
Proof.
  induction s as [|c' s IH].
  - cbn. apply Ascii.eqb_refl.
  - cbn [append endswith]. rewrite IH. destruct s; reflexivity.
Qed.

Lemma drop_last_last (s : string) (c : ascii) :
  drop_last (s ++ String c "")%string = s.
Proof.
  induction s as [|c' s IH]; [reflexivity|].
  cbn [append drop_last]. rewrite IH. destruct s; reflexivity.
Qed.

Lemma normalize_handle_stripped (raw : option string) :
  strip (normalize_handle raw) = normalize_handle raw.
Proof.
  unfold normalize_handle.
  destruct (String.eqb _ ""); [reflexivity|].
  destruct (startswith _ _ && endswith _ _); apply strip_idempotent.
Qed.

Lemma endswith_split (s : string) (c : ascii) :
  endswith c s = true -> s = (drop_last s ++ String c "")%string.
Proof.
  induction s as [|c' s IH]; [discriminate|].
  destruct s as [|c'' s].
  - cbn. intros H. apply Ascii.eqb_eq in H. now subst.
  - intros H. change (endswith c (String c'' s) = true) in H.
    change (drop_last (String c' (String c'' s)))
      with (String c' (drop_last (String c'' s))).
    cbn [append]. f_equal. now apply IH.
Qed.

(** X14.  A normalised handle carries no surrounding white space:
    stripping it again changes nothing, whether or not angle brackets
    were removed.  It is empty exactly when the text is blank ([None]
    and the empty string included) or is a pair of angle brackets
    around blank text. *)
Theorem normalize_handle_is_stripped (raw : option string) :
  strip (normalize_handle raw) = normalize_handle raw
  /\ (normalize_handle raw = ""
      <-> strip (get_default raw "") = ""
          \/ exists inner, strip (get_default raw "")
                           = ("<" ++ inner ++ ">")%string
                           /\ strip inner = "").
Proof.
  split; [apply normalize_handle_stripped|].
  unfold normalize_handle. set (h := strip (get_default raw "")).
  destruct (String.eqb_spec h "") as [E|E]; [tauto|].
  destruct (startswith "<" h && endswith ">" h) eqn:B.
  - apply andb_prop in B. destruct B as [B1 B2].
    destruct h as [|c r]; [discriminate|].
    cbn [startswith] in B1. apply Ascii.eqb_eq in B1. subst c.
    assert (Hr : r = (drop_last r ++ ">")%string).
    { destruct r as [|c r]; [discriminate|].
      now apply endswith_split. }
    cbn [slice_inner]. split.
    + intros H. right. exists (drop_last r). split; [|exact H].
      cbn [append]. now rewrite <- Hr.
    + intros [H|(inner & H1 & H2)]; [discriminate|].
      cbn [append] in H1. injection H1 as H1.
      rewrite H1, drop_last_last. exact H2.
  - split; [intros H; now left|].
    intros [H|(inner & H1 & H2)]; [exact H|].
    exfalso. rewrite H1 in B. cbn [append startswith] in B.
    replace (endswith ">" (String "<" (inner ++ ">")))
      with (endswith ">" (inner ++ ">")%string) in B
      by (cbn [endswith]; destruct inner; reflexivity).
    rewrite endswith_last in B. discriminate.
Qed.

(** X15.  A handle pasted in angle brackets is unwrapped: when the
    text, white space around it apart, is [<h>], the handle is [h]
    without its surrounding white space. *)
Theorem normalize_handle_unwraps_brackets (raw h : string) :
  strip raw = ("<" ++ h ++ ">")%string ->
  normalize_handle (Some raw) = strip h.
Proof.
  intros E. unfold normalize_handle. cbn [get_default]. rewrite E.
  cbn [append String.eqb startswith Ascii.eqb Bool.eqb andb].
  replace (endswith ">" (String "<" (h ++ ">")))
    with (endswith ">" (h ++ ">")%string)
    by (cbn [endswith]; destruct h; reflexivity).
  rewrite endswith_last. cbn [slice_inner].
  now rewrite drop_last_last.
Qed.

Lemma normalize_handle_unwraps_brackets_witness :
  strip "  <tourist> " = ("<" ++ "tourist" ++ ">")%string
  /\ normalize_handle (Some "  <tourist> ") = "tourist".
Proof.
  split; [reflexivity|].
  exact (normalize_handle_unwraps_brackets "  <tourist> " "tourist" eq_refl).
Defined.
(** ** Date arithmetic *)

Lemma datetime_add_us_spec (dt r : datetime) (delta : Z) :
  datetime_add_us dt delta = Return r ->
  local_us r = local_us dt + delta
  /\ tzinfo r = tzinfo dt
  /\ utc_us r = utc_us dt + delta
  /\ well_formed r.
Proof.
  unfold datetime_add_us.
  set (total := local_us dt + delta).
  destruct ((0 <? total / 86400000000)
            && (total / 86400000000 <=? MAXORDINAL)) eqn:B; [|discriminate].
  apply andb_prop in B. destruct B as [B1 B2].
  apply Z.ltb_lt in B1. apply Z.leb_le in B2.
  pose proof (ord2ymd_spec (total / 86400000000) ltac:(lia)) as Hs.
  destruct (ord2ymd (total / 86400000000)) as [[y m] d].
  destruct Hs as [Hv Ho]. intros [= <-].
  assert (Hl : local_us
                 (mkDatetime y m d
                    (total mod 86400000000 / 1000000 / 3600)
                    ((total mod 86400000000 / 1000000) mod 3600 / 60)
                    ((total mod 86400000000 / 1000000) mod 60)
                    ((total mod 86400000000) mod 1000000) (tzinfo dt))
               = total).
  { unfold local_us. cbn [year month day hour minute second microsecond].
    rewrite Ho. Z.to_euclidean_division_equations. lia. }
  split; [exact Hl|]. split; [reflexivity|]. split.
  - unfold utc_us. rewrite Hl. cbn [tzinfo]. unfold total, utc_us. lia.
  - unfold well_formed.
    cbn [year month day hour minute second microsecond].
    split; [exact Hv|].
    Z.to_euclidean_division_equations. lia.
Qed.

Lemma datetime_add_us_returns (dt : datetime) (delta : Z) :
  86400000000 <= local_us dt + delta < (MAXORDINAL + 1) * 86400000000 ->
  exists r, datetime_add_us dt delta = Return r.
Proof.
  intros H. unfold datetime_add_us.
  replace ((0 <? (local_us dt + delta) / 86400000000)
           && ((local_us dt + delta) / 86400000000 <=? MAXORDINAL))
    with true.
  - destruct (ord2ymd _) as [[y m] d]. eauto.
  - symmetry. rewrite andb_true_iff, Z.ltb_lt, Z.leb_le.
    unfold MAXORDINAL in *. Z.to_euclidean_division_equations. lia.
Qed.

Lemma local_us_range (dt : datetime) :
  well_formed dt ->
  ymd2ord (year dt) (month dt) (day dt) * 86400000000
  <= local_us dt
  < (ymd2ord (year dt) (month dt) (day dt) + 1) * 86400000000.
Proof.
  intros (_ & Hh & Hm & Hs & Hu). unfold local_us. lia.
Qed.

Lemma default_from_none (now : datetime) :
  default_from None now = datetime_add_us now (- THIRTY_DAYS_US).
Proof. reflexivity. Qed.

Lemma astimezone_utc_eq (dt : datetime) :
  astimezone_utc dt
  = match datetime_add_us dt (- get_default (tzinfo dt) 0) with
    | Return r => Return (replace_tzinfo r utc)
    | Raise e => Raise e
    end.
Proof. reflexivity. Qed.

Section StartFetchFacts.

Variable fromisoformat : string -> result datetime.

Lemma parse_date_maybe_eq (s : string) :
  parse_date_maybe fromisoformat (Some s)
  = if String.eqb (strip s) "" then Return None
    else
      match
        (if (len (strip s) =? 10) && (count_char "-" (strip s) =? 2)
         then dt <- strptime_ymd (strip s) ;; Return (replace_tzinfo dt utc)
         else dt <- fromisoformat (strip s) ;;
              match tzinfo dt with
              | None => Return (replace_tzinfo dt utc)
              | Some _ => astimezone_utc dt
              end)
      with
      | Return dt => Return (Some dt)
      | Raise _ => Raise (ValueError DATE_ERROR)
      end.
Proof. reflexivity. Qed.

Lemma start_fetch_eq (handle_var from_var to_var : string)
    (now_to now_from : datetime) :
  start_fetch fromisoformat handle_var from_var to_var now_to now_from
  = if String.eqb (normalize_handle (Some handle_var)) "" then NoHandle
    else
      match parse_date_maybe fromisoformat (Some from_var) with
      | Raise e => DateParseError (exn_str e)
      | Return parsed_from =>
          match parse_date_maybe fromisoformat (Some to_var) with
          | Raise e => DateParseError (exn_str e)
          | Return parsed_to =>
              match default_from parsed_from now_from with
              | Raise e => Uncaught e
              | Return dt_from =>
                  Started (normalize_handle (Some handle_var)) dt_from
                          (widen_to (default_to parsed_to now_to) to_var)
              end
          end
      end.
Proof.
  unfold start_fetch.
  destruct (String.eqb _ ""); [reflexivity|].
  destruct (parse_date_maybe fromisoformat (Some from_var)); [|reflexivity].
  cbn [bind].
  destruct (parse_date_maybe fromisoformat (Some to_var)); reflexivity.
Qed.

Lemma start_fetch_window_eq (from_var to_var : string)
    (now_to now_from : datetime) :
  start_fetch_window fromisoformat from_var to_var now_to now_from
  = match parse_date_maybe fromisoformat (Some from_var) with
    | Raise e => Raise e
    | Return parsed_from =>
        match parse_date_maybe fromisoformat (Some to_var) with
        | Raise e => Raise e
        | Return parsed_to =>
            match default_from parsed_from now_from with
            | Raise e => Raise e
            | Return dt_from =>
                Return (dt_from,
                        widen_to (default_to parsed_to now_to) to_var)
            end
        end
    end.
Proof.
  unfold start_fetch_window.
  destruct (parse_date_maybe fromisoformat (Some from_var)); [|reflexivity].
  cbn [bind].
  destruct (parse_date_maybe fromisoformat (Some to_var)); [|reflexivity].
  cbn [bind]. destruct (default_from _ _); reflexivity.
Qed.

Lemma parse_date_maybe_error (s : option string) (e : exn) :
  parse_date_maybe fromisoformat s = Raise e -> e = ValueError DATE_ERROR.
Proof.
  destruct s as [s|]; [|discriminate]. rewrite parse_date_maybe_eq.
  destruct (String.eqb (strip s) ""); [discriminate|].
  match goal with
  | |- match ?b with _ => _ end = _ -> _ => destruct b
  end; [discriminate|].
  now intros [= <-].
Qed.

Lemma parse_date_maybe_tz (s : option string) (dt : datetime) :
  parse_date_maybe fromisoformat s = Return (Some dt) -> tzinfo dt = utc.
Proof.
  destruct s as [s|]; [|discriminate]. rewrite parse_date_maybe_eq.
  destruct (String.eqb (strip s) ""); [discriminate|].
  destruct ((len (strip s) =? 10) && (count_char "-" (strip s) =? 2)).
  - destruct (strptime_ymd (strip s)) as [d|e]; cbn [bind];
      [|discriminate].
    now intros [= <-].
  - destruct (fromisoformat (strip s)) as [d|e]; cbn [bind];
      [|discriminate].
    destruct (tzinfo d) as [off|].
    + rewrite astimezone_utc_eq.
      destruct (datetime_add_us d _) as [r|e]; [|discriminate].
      now intros [= <-].
    + now intros [= <-].
Qed.

(** X16.  Whatever [parse_date_maybe] returns for a text is a date-time
    in UTC.  For text left to [fromisoformat] it is the same instant as
    the value read: a value without an offset is taken as UTC with its
    fields unchanged, a value with an offset is moved to UTC without
    changing the instant.  Blank text gives [None], and every failure,
    whatever its cause, surfaces as the one [ValueError] with the text
    "Date must be YYYY-MM-DD or ISO datetime". *)
Theorem parse_date_maybe_normalises_to_utc (s : string) :
  match parse_date_maybe fromisoformat (Some s) with
  | Return None => strip s = ""
  | Return (Some dt) =>
      strip s <> "" /\ tzinfo dt = utc
      /\ (forall dt0,
             (len (strip s) =? 10) && (count_char "-" (strip s) =? 2)
             = false ->
             fromisoformat (strip s) = Return dt0 ->
             utc_us dt = utc_us dt0
             /\ (tzinfo dt0 = None -> dt = replace_tzinfo dt0 utc))
  | Raise e => strip s <> "" /\ e = ValueError DATE_ERROR
  end.
Proof.
  destruct (parse_date_maybe fromisoformat (Some s)) as [[dt|]|e] eqn:E.
  - split; [|split].
    + intros H. rewrite parse_date_maybe_eq, H in E.
      discriminate.
    + exact (parse_date_maybe_tz _ _ E).
    + intros dt0 Hb Hiso. rewrite parse_date_maybe_eq in E.
      destruct (String.eqb (strip s) ""); [discriminate|].
      rewrite Hb, Hiso in E. cbn [bind] in E.
      destruct (tzinfo dt0) as [off|] eqn:Htz.
      * rewrite astimezone_utc_eq in E.
        destruct (datetime_add_us dt0 _) as [r|e] eqn:Ha; [|discriminate].
        injection E as <-.
        destruct (datetime_add_us_spec _ _ _ Ha) as (Hl & _ & _ & _).
        split; [|discriminate].
        unfold utc_us, replace_tzinfo, local_us in *.
        cbn [year month day hour minute second microsecond tzinfo
             get_default utc] in *.
        rewrite Htz in *. cbn [get_default] in *. lia.
      * injection E as <-. split; [|reflexivity].
        unfold utc_us, replace_tzinfo, local_us.
        cbn [year month day hour minute second microsecond tzinfo
             get_default utc].
        rewrite Htz. reflexivity.
  - rewrite parse_date_maybe_eq in E.
    destruct (String.eqb_spec (strip s) "") as [H|H]; [exact H|].
    exfalso.
    match type of E with
    | match ?b with _ => _ end = _ => destruct b
    end; discriminate.
  - split; [|exact (parse_date_maybe_error _ _ E)].
    intros H. rewrite parse_date_maybe_eq, H in E.
    discriminate.
Qed.

(** X17.  What pressing Fetch leads to.  The thread is started only
    with a handle that is not empty and has no surrounding white space,
    and with the window [start_fetch_window] resolves, whose bounds are
    in UTC when the clock is; a handle that normalises to nothing gives
    the warning and nothing else, whatever the date fields hold; a date
    field that cannot be read gives the error box with the fixed text;
    and the only exception that leaves the method is the one of the
    subtraction of thirty days. *)
Theorem start_fetch_outcomes (handle_var from_var to_var : string)
    (now_to now_from : datetime) :
  match start_fetch fromisoformat handle_var from_var to_var
                    now_to now_from with
  | NoHandle => normalize_handle (Some handle_var) = ""
  | DateParseError msg =>
      normalize_handle (Some handle_var) <> "" /\ msg = DATE_ERROR
      /\ (parse_date_maybe fromisoformat (Some from_var) = Raise (ValueError DATE_ERROR)
          \/ parse_date_maybe fromisoformat (Some to_var) = Raise (ValueError DATE_ERROR))
  | Uncaught e =>
      normalize_handle (Some handle_var) <> ""
      /\ parse_date_maybe fromisoformat (Some from_var) = Return None
      /\ start_fetch_window fromisoformat from_var to_var now_to now_from
         = Raise e
      /\ datetime_add_us now_from (- THIRTY_DAYS_US) = Raise e
  | Started handle dt_from dt_to =>
      handle = normalize_handle (Some handle_var)
      /\ handle <> "" /\ strip handle = handle
      /\ start_fetch_window fromisoformat from_var to_var now_to now_from
         = Return (dt_from, dt_to)
      /\ (tzinfo now_to = utc -> tzinfo now_from = utc ->
          tzinfo dt_from = utc /\ tzinfo dt_to = utc)
  end.
Proof.
  rewrite start_fetch_eq, start_fetch_window_eq.
  destruct (String.eqb_spec (normalize_handle (Some handle_var)) "")
    as [Hh|Hh]; [exact Hh|].
  destruct (parse_date_maybe fromisoformat (Some from_var)) as [pf|e] eqn:Ef; cbn [bind].
  - destruct (parse_date_maybe fromisoformat (Some to_var)) as [pt|e] eqn:Et; cbn [bind].
    + destruct (default_from pf now_from) as [dt_from|e] eqn:Ed;
        cbn [bind].
      * split; [reflexivity|]. split; [exact Hh|].
        split; [apply normalize_handle_stripped|].
        split; [reflexivity|]. intros Hto Hfrom. split.
        -- destruct pf as [p|].
           ++ injection Ed as <-. exact (parse_date_maybe_tz _ _ Ef).
           ++ rewrite default_from_none in Ed.
              destruct (datetime_add_us_spec _ _ _ Ed) as (_ & Htz & _).
              congruence.
        -- assert (Ht : tzinfo (default_to pt now_to) = utc).
           { destruct pt as [p|]; cbn [default_to get_default].
             - exact (parse_date_maybe_tz _ _ Et).
             - exact Hto. }
           unfold widen_to.
           destruct (_ && _); [|exact Ht].
           unfold replace_hms. cbn [tzinfo]. exact Ht.
      * split; [exact Hh|]. destruct pf as [p|]; [discriminate|].
        rewrite default_from_none in Ed. auto.
    + pose proof (parse_date_maybe_error _ _ Et) as ->.
      split; [exact Hh|]. split; [reflexivity|]. right. reflexivity.
  - pose proof (parse_date_maybe_error _ _ Ef) as ->.
    split; [exact Hh|]. split; [reflexivity|]. left. reflexivity.
Qed.

(** X18.  With both date fields blank the window is the last thirty
    days up to now: the upper bound is the clock as read, never moved to
    the end of the day, and the lower bound is the instant exactly
    thirty days before the clock, in the clock's time zone. *)
Theorem blank_fields_give_last_30_days (from_var to_var : string)
    (now_to now_from : datetime) :
  strip from_var = "" -> strip to_var = "" ->
  well_formed now_from ->
  30 < ymd2ord (year now_from) (month now_from) (day now_from) ->
  exists dt_from,
    start_fetch_window fromisoformat from_var to_var now_to now_from
    = Return (dt_from, now_to)
    /\ utc_us dt_from = utc_us now_from - 30 * 86400 * 1000000
    /\ tzinfo dt_from = tzinfo now_from
    /\ well_formed dt_from.
Proof.
  intros Hf Ht Hw Hd.
  pose proof (local_us_range _ Hw) as Hl.
  destruct Hw as [Hv Hw]. pose proof (ymd2ord_range _ _ _ Hv) as Hr.
  destruct (datetime_add_us_returns now_from (- THIRTY_DAYS_US))
    as [r Hr'].
  { unfold THIRTY_DAYS_US. lia. }
  exists r. rewrite start_fetch_window_eq, !parse_date_maybe_eq.
  rewrite Hf, Ht. cbn [String.eqb default_to get_default].
  rewrite default_from_none, Hr'.
  destruct (datetime_add_us_spec _ _ _ Hr') as (_ & Htz & Hu & Hwf).
  split; [|split; [|split]].
  - rewrite widen_to_unadjusted; [reflexivity|].
    left. rewrite Ht. discriminate.
  - rewrite Hu. unfold THIRTY_DAYS_US. lia.
  - exact Htz.
  - exact Hwf.
Qed.

End StartFetchFacts.

Lemma blank_fields_give_last_30_days_witness :
  strip "" = "" /\ strip "  " = ""
  /\ well_formed sample_now
  /\ 30 < ymd2ord (year sample_now) (month sample_now) (day sample_now)
  /\ exists dt_from,
       start_fetch_window sample_fromisoformat "" "  " sample_now sample_now
       = Return (dt_from, sample_now)
       /\ utc_us dt_from = utc_us sample_now - 30 * 86400 * 1000000
       /\ tzinfo dt_from = tzinfo sample_now
       /\ well_formed dt_from.
Proof.
  assert (Hw : well_formed sample_now).
  { unfold well_formed, valid_date. vm_compute.
    repeat split; discriminate. }
  assert (Hd : 30 < ymd2ord (year sample_now) (month sample_now)
                            (day sample_now)) by reflexivity.
  split; [reflexivity|]. split; [reflexivity|].
  split; [exact Hw|]. split; [exact Hd|].
  exact (blank_fields_give_last_30_days sample_fromisoformat "" "  "
           sample_now sample_now eq_refl eq_refl Hw Hd).
Defined.
(** ** The default window and the day shown for a problem *)

(** What the binary64 quotient does to a timestamp: no whole second
    lies between the exact quotient and [int_timestamp], so a moment on
    a whole second is read exactly and any other moment as the second
    it lies in or the next one toward the quotient's rounding. *)
Lemma int_timestamp_bounds (dt : datetime) :
  Z.abs (utc_us dt) <= 2 ^ 52 * 1000000 ->
  forall c, (c * 1000000 <= utc_us dt -> c <= int_timestamp dt)
            /\ (utc_us dt <= c * 1000000 -> int_timestamp dt <= c).
Proof.
  intros Hu.
  assert (Hr : rounds_to (utc_us dt) 1000000
                 (float_of_ratio (utc_us dt) 1000000)).
  { apply float_of_ratio_rounds; [lia| |reflexivity].
    apply Z.le_lt_trans with (2 ^ 52 * 1000000); [exact Hu|reflexivity]. }
  destruct (rounds_to_trunc _ _ _ Hr ltac:(lia) Hu) as (z & Hz & Hb).
  unfold int_timestamp. rewrite Hz. exact Hb.
Qed.

Lemma int_timestamp_midnight_based (y m d h mi s : Z) :
  Z.abs ((ymd2ord y m d - EPOCH_ORDINAL) * 86400 + h * 3600 + mi * 60 + s)
  <= 2 ^ 52 ->
  int_timestamp (mkDatetime y m d h mi s 0 utc)
  = (ymd2ord y m d - EPOCH_ORDINAL) * 86400 + h * 3600 + mi * 60 + s.
Proof.
  intros Hb.
  set (c := (ymd2ord y m d - EPOCH_ORDINAL) * 86400 + h * 3600 + mi * 60 + s)
    in *.
  assert (Hu : utc_us (mkDatetime y m d h mi s 0 utc) = c * 1000000).
  { unfold utc_us, local_us, utc, c.
    cbn [year month day hour minute second microsecond tzinfo get_default].
    lia. }
  destruct (int_timestamp_bounds (mkDatetime y m d h mi s 0 utc)
              ltac:(rewrite Hu; lia) c) as [H1 H2].
  rewrite Hu in H1, H2. lia.
Qed.

Lemma date_sub_days_spec (y m d n : Z) :
  1 <= ymd2ord y m d - n <= MAXORDINAL ->
  date_sub_days y m d n = Return (ord2ymd (ymd2ord y m d - n)).
Proof.
  intros H. unfold date_sub_days.
  replace ((0 <? ymd2ord y m d - n) && (ymd2ord y m d - n <=? MAXORDINAL))
    with true; [reflexivity|].
  symmetry. rewrite andb_true_iff, Z.ltb_lt, Z.leb_le. lia.
Qed.

(** X19.  The dates [set_last_30] puts into the two fields resolve to a
    window of thirty-one calendar days: from 00:00:00 UTC of the day
    thirty days before today through 23:59:59 UTC of today, whatever the
    time of day at which the fields were filled and the button
    pressed. *)
Theorem default_fields_cover_31_days
    (fromisoformat : string -> result datetime)
    (now now_to now_from : datetime) :
  valid_date (year now) (month now) (day now) -> 1001 <= year now ->
  exists y30 m30 d30,
    valid_date y30 m30 d30
    /\ ymd2ord y30 m30 d30
       = ymd2ord (year now) (month now) (day now) - 30
    /\ set_last_30 now
       = Return (strftime_ymd y30 m30 d30,
                 strftime_ymd (year now) (month now) (day now))
    /\ start_fetch_window fromisoformat
         (strftime_ymd y30 m30 d30)
         (strftime_ymd (year now) (month now) (day now)) now_to now_from
       = Return (mkDatetime y30 m30 d30 0 0 0 0 utc,
                 mkDatetime (year now) (month now) (day now) 23 59 59 0 utc)
    /\ int_timestamp
         (mkDatetime (year now) (month now) (day now) 23 59 59 0 utc)
       - int_timestamp (mkDatetime y30 m30 d30 0 0 0 0 utc)
       = 31 * 86400 - 1.
Proof.
  intros Hv Hy.
  set (y := year now) in *. set (m := month now) in *.
  set (d := day now) in *.
  pose proof (ymd2ord_range y m d Hv) as Hr.
  destruct Hv as (Hy' & Hm & Hd).
  pose proof (ymd2ord_bounds y m d Hm Hd) as Hb.
  pose proof (days_before_year_mono 1001 y Hy) as Hmono.
  pose proof (days_before_year_succ 1000) as H1000.
  change (1000 + 1) with 1001 in H1000.
  pose proof (days_before_year_mono 1 1000 ltac:(lia)) as H1.
  change (days_before_year 1) with 0 in H1.
  assert (Ho : 1 <= ymd2ord y m d - 30 <= MAXORDINAL)
    by (destruct (is_leap 1000); lia).
  pose proof (ord2ymd_spec _ Ho) as Hs.
  pose proof (date_sub_days_spec y m d 30 Ho) as Hsub.
  destruct (ord2ymd (ymd2ord y m d - 30)) as [[y30 m30] d30].
  destruct Hs as [Hv30 Ho30].
  exists y30, m30, d30.
  assert (Hy30 : 1000 <= y30 <= 9999).
  { destruct Hv30 as (Hy30 & Hm30 & Hd30). split; [|lia].
    destruct (Z_lt_le_dec y30 1000) as [Hlt|Hge]; [|exact Hge].
    pose proof (ymd2ord_bounds y30 m30 d30 Hm30 Hd30) as Hb30.
    pose proof (days_before_year_mono (y30 + 1) 1000 ltac:(lia)).
    destruct (is_leap 1000); lia. }
  destruct (strptime_strftime y30 m30 d30 Hy30
              (proj1 (proj2 Hv30)) (proj2 (proj2 Hv30))) as [Hs30 Hb30].
  destruct (strptime_strftime y m d ltac:(lia) Hm Hd) as [Hst Hbt].
  split; [exact Hv30|]. split; [exact Ho30|]. split.
  - unfold set_last_30. fold y m d. rewrite Hsub. reflexivity.
  - split.
    + rewrite (start_fetch_window_to fromisoformat _ _ now_to now_from
                 (replace_tzinfo (mkDatetime y m d 0 0 0 0 None) utc)).
      * unfold window_from.
        rewrite (parse_date_maybe_bare fromisoformat _
                   (mkDatetime y30 m30 d30 0 0 0 0 None))
          by (rewrite Hs30; exact Hb30).
        rewrite (widen_to_bare _ (mkDatetime y m d 0 0 0 0 None))
          by (rewrite Hst; exact Hbt).
        reflexivity.
      * apply parse_date_maybe_bare. rewrite Hst. exact Hbt.
    + pose proof (ymd2ord_range _ _ _ Hv30) as Hr30.
      assert (He : EPOCH_ORDINAL = 719163) by reflexivity.
      unfold MAXORDINAL in Hr, Hr30.
      rewrite !int_timestamp_midnight_based by (rewrite He; lia). lia.
Qed.

Lemma default_fields_cover_31_days_witness :
  valid_date (year sample_now) (month sample_now) (day sample_now)
  /\ 1001 <= year sample_now
  /\ exists y30 m30 d30,
       valid_date y30 m30 d30
       /\ ymd2ord y30 m30 d30
          = ymd2ord (year sample_now) (month sample_now) (day sample_now)
            - 30
       /\ set_last_30 sample_now
          = Return (strftime_ymd y30 m30 d30,
                    strftime_ymd (year sample_now) (month sample_now)
                                 (day sample_now))
       /\ start_fetch_window sample_fromisoformat
            (strftime_ymd y30 m30 d30)
            (strftime_ymd (year sample_now) (month sample_now)
                          (day sample_now)) sample_now sample_now
          = Return (mkDatetime y30 m30 d30 0 0 0 0 utc,
                    mkDatetime (year sample_now) (month sample_now)
                               (day sample_now) 23 59 59 0 utc)
       /\ int_timestamp
            (mkDatetime (year sample_now) (month sample_now)
                        (day sample_now) 23 59 59 0 utc)
          - int_timestamp (mkDatetime y30 m30 d30 0 0 0 0 utc)
          = 31 * 86400 - 1.
Proof.
  assert (Hv : valid_date (year sample_now) (month sample_now)
                          (day sample_now)).
  { unfold valid_date. vm_compute. repeat split; discriminate. }
  assert (Hy : 1001 <= year sample_now) by (vm_compute; discriminate).
  split; [exact Hv|]. split; [exact Hy|].
  exact (default_fields_cover_31_days sample_fromisoformat
           sample_now sample_now sample_now Hv Hy).
Defined.

(** X20.  The day shown for a solved problem is the UTC calendar day of
    its submission: for any moment of a day of the years 1 to 9999,
    given as seconds since the epoch, [friendly_md] prints the month and
    the day of that date, two digits each. *)
Theorem friendly_md_shows_utc_day (y m d secs : Z) :
  valid_date y m d -> 0 <= secs < 86400 ->
  friendly_md (timestamp_of y m d secs) = Return (strftime_md m d)
  /\ len (strftime_md m d) = 5.
Proof.
  intros Hv Hsecs. pose proof (ymd2ord_range y m d Hv) as Hr.
  split.
  - unfold friendly_md, fromtimestamp_utc, timestamp_of.
    replace (((ymd2ord y m d - EPOCH_ORDINAL) * 86400 + secs) / 86400)
      with (ymd2ord y m d - EPOCH_ORDINAL)
      by (Z.to_euclidean_division_equations; lia).
    replace (EPOCH_ORDINAL + (ymd2ord y m d - EPOCH_ORDINAL))
      with (ymd2ord y m d) by lia.
    replace ((1 <=? ymd2ord y m d) && (ymd2ord y m d <=? MAXORDINAL))
      with true
      by (symmetry; rewrite andb_true_iff, !Z.leb_le; lia).
    rewrite (ord2ymd_ymd2ord y m d Hv). reflexivity.
  - destruct Hv as (_ & Hm & Hd).
    apply (month_day_text y m d Hm Hd).
Qed.

Lemma friendly_md_shows_utc_day_witness :
  valid_date 2024 2 29 /\ 0 <= 86399 < 86400
  /\ timestamp_of 2024 2 29 86399 = 1709251199
  /\ friendly_md 1709251199 = Return "02-29".
Proof.
  assert (Hv : valid_date 2024 2 29).
  { unfold valid_date. vm_compute. repeat split; discriminate. }
  split; [exact Hv|]. split; [lia|]. split; [reflexivity|].
  exact (proj1 (friendly_md_shows_utc_day 2024 2 29 86399 Hv
                  ltac:(lia))).
Defined.

Lemma friendly_md_range (ts : Z) :
  match friendly_md ts with
  | Return _ => in_timestamp_range ts = true
  | Raise _ => in_timestamp_range ts = false
  end.
Proof.
  assert (E : MIN_TIMESTAMP = -62135596800 /\ MAX_TIMESTAMP = 253402300799
              /\ EPOCH_ORDINAL = 719163) by (repeat split).
  destruct E as (Emin & Emax & Ee).
  unfold in_timestamp_range. rewrite Emin, Emax.
  unfold friendly_md, fromtimestamp_utc. rewrite Ee.
  destruct ((1 <=? 719163 + ts / 86400)
            && (719163 + ts / 86400 <=? MAXORDINAL)) eqn:B.
  - apply andb_prop in B. destruct B as [B1 B2].
    apply Z.leb_le in B1, B2. unfold MAXORDINAL in B2.
    destruct (ord2ymd _) as [[y m] d]. cbn [bind].
    rewrite andb_true_iff, !Z.leb_le.
    Z.to_euclidean_division_equations. lia.
  - apply andb_false_iff in B. rewrite !Z.leb_gt in B.
    unfold MAXORDINAL in B. cbn [bind].
    rewrite andb_false_iff, !Z.leb_gt.
    Z.to_euclidean_division_equations. lia.
Qed.

(** X21.  [friendly_md] has a result exactly for the timestamps of the
    years 1 to 9999, that is from -62135596800 to 253402300799; for any
    other timestamp it raises, and with it the listing or the export
    that asked for the day. *)
Theorem friendly_md_defined_on_years_1_to_9999 (ts : Z) :
  MIN_TIMESTAMP = -62135596800 /\ MAX_TIMESTAMP = 253402300799
  /\ ((exists s, friendly_md ts = Return s)
      <-> MIN_TIMESTAMP <= ts <= MAX_TIMESTAMP)
  /\ ((exists e, friendly_md ts = Raise e)
      <-> ts < MIN_TIMESTAMP \/ MAX_TIMESTAMP < ts).
Proof.
  split; [reflexivity|]. split; [reflexivity|].
  pose proof (friendly_md_range ts) as H. unfold in_timestamp_range in H.
  destruct (friendly_md ts) as [s|e].
  - apply andb_prop in H. destruct H as [H1 H2].
    apply Z.leb_le in H1, H2. split; split.
    + intros _. lia.
    + intros _. now exists s.
    + intros [e H]. discriminate.
    + intros H. lia.
  - apply andb_false_iff in H. rewrite !Z.leb_gt in H. split; split.
    + intros [s H']. discriminate.
    + intros H'. lia.
    + intros _. lia.
    + intros _. now exists e.
Qed.
(** ** The export order *)

Lemma newest_first_ltb_le (x y : string * SolvedRecord) :
  newest_first_ltb x y = true -> newest_first_ltb y x = false.
Proof. unfold newest_first_ltb. rewrite Z.ltb_lt, Z.ltb_ge. lia. Qed.

Lemma newest_first_le_trans (x y z : string * SolvedRecord) :
  newest_first_ltb y x = false -> newest_first_ltb z y = false ->
  newest_first_ltb z x = false.
Proof. unfold newest_first_ltb. rewrite !Z.ltb_ge. lia. Qed.

Lemma newest_first_sorted (l : list (string * SolvedRecord)) :
  StronglySorted (fun x y => newest_first_ltb y x = false)
                 (sorted newest_first_ltb l)
  /\ Permutation l (sorted newest_first_ltb l).
Proof.
  apply sorted_spec.
  - exact newest_first_ltb_le.
  - exact newest_first_le_trans.
Qed.

Lemma sorted_snoc {A : Type} (ltb : A -> A -> bool) (l : list A) (x : A) :
  sorted ltb (l ++ [x]) = insert_sorted ltb x (sorted ltb l).
Proof. unfold sorted. now rewrite fold_left_app. Qed.

Lemma filter_none {A : Type} (f : A -> bool) (l : list A) :
  (forall z, In z l -> f z = false) -> filter f l = [].
Proof.
  induction l as [|a l IH]; intros H; [reflexivity|].
  cbn [filter]. rewrite (H a (or_introl eq_refl)).
  apply IH. intros z Hz. apply H. now right.
Qed.

Lemma Forall2_In_left {A B : Type} (R : A -> B -> Prop) (l : list A)
    (l' : list B) (a : A) :
  Forall2 R l l' -> In a l -> exists b, In b l' /\ R a b.
Proof.
  induction 1 as [|a0 b0 l l' Hab HF IH]; intros Hin; [contradiction|].
  destruct Hin as [<-|Hin].
  - exists b0. split; [now left|exact Hab].
  - destruct (IH Hin) as (b & Hb & Rab). exists b. split; [now right|auto].
Qed.

Lemma insert_newest_filter (t : Z) (x : string * SolvedRecord)
    (l : list (string * SolvedRecord)) :
  StronglySorted (fun x y => newest_first_ltb y x = false) l ->
  filter (at_ts t) (insert_sorted newest_first_ltb x l)
  = filter (at_ts t) l ++ (if at_ts t x then [x] else []).
Proof.
  induction l as [|y l IH]; intros Hs.
  - cbn [insert_sorted filter]. destruct (at_ts t x); reflexivity.
  - inversion Hs as [|? ? Hs' Hall]; subst. cbn [insert_sorted].
    destruct (newest_first_ltb x y) eqn:E.
    + cbn [filter]. destruct (at_ts t x) eqn:Ex.
      * assert (Hnil : filter (at_ts t) (y :: l) = []).
        { apply filter_none. intros z Hz.
          unfold newest_first_ltb, at_ts in *.
          apply Z.ltb_lt in E. apply Z.eqb_eq in Ex.
          apply Z.eqb_neq.
          destruct Hz as [<-|Hz]; [lia|].
          rewrite Forall_forall in Hall. specialize (Hall z Hz).
          apply Z.ltb_ge in Hall. lia. }
        change (filter (at_ts t) (y :: l))
          with (if at_ts t y then y :: filter (at_ts t) l
                else filter (at_ts t) l) in Hnil |- *.
        rewrite Hnil. reflexivity.
      * now rewrite app_nil_r.
    + cbn [filter]. rewrite (IH Hs').
      destruct (at_ts t y); reflexivity.
Qed.

Lemma sorted_newest_stable (t : Z) (l : list (string * SolvedRecord)) :
  filter (at_ts t) (sorted newest_first_ltb l) = filter (at_ts t) l.
Proof.
  induction l as [|x l IH] using rev_ind; [reflexivity|].
  rewrite sorted_snoc, insert_newest_filter, IH, filter_app.
  - reflexivity.
  - apply newest_first_sorted.
Qed.

(** X22.  The problem list and the CSV present the solved problems
    newest first: the order is a rearrangement of the entries of the
    solved map in which no entry stands before a newer one, and entries
    first accepted in the same second keep the order they have in the
    map. *)
Theorem newest_first_is_stable_descending
    (solved_map : PyDict.t SolvedRecord) :
  Permutation (PyDict.items solved_map) (newest_first solved_map)
  /\ StronglySorted newer_or_same (newest_first solved_map)
  /\ (forall t, filter (at_ts t) (newest_first solved_map)
                = filter (at_ts t) (PyDict.items solved_map)).
Proof.
  unfold newest_first.
  destruct (newest_first_sorted (PyDict.items solved_map)) as [Hs Hp].
  split; [exact Hp|]. split.
  - eapply StronglySorted_ind with
      (P := fun l => StronglySorted newer_or_same l); [| |exact Hs].
    + constructor.
    + intros a l _ IH Hall. constructor; [exact IH|].
      eapply Forall_impl; [|exact Hall].
      intros b Hb. unfold newer_or_same, newest_first_ltb in *.
      apply Z.ltb_ge in Hb. lia.
  - intros t. apply sorted_newest_stable.
Qed.

(** ** The CSV and the problem list *)

Lemma csv_row_spec (item : string * SolvedRecord) :
  match csv_row item with
  | Return row => row_of item row
  | Raise _ => in_timestamp_range (rec_ts (snd item)) = false
  end.
Proof.
  destruct item as [key [[[ts tags] name] rating]].
  unfold csv_row, row_of. cbn [fst snd rec_ts rec_name rec_rating rec_tags].
  pose proof (friendly_md_range ts) as H.
  destruct (friendly_md ts) as [md|e]; cbn [bind]; [|exact H].
  exists md. split; reflexivity.
Qed.

Lemma row_of_in_range (item : string * SolvedRecord) (row : list string) :
  row_of item row -> in_timestamp_range (rec_ts (snd item)) = true.
Proof.
  intros (md & H & _). pose proof (friendly_md_range (rec_ts (snd item))) as R.
  now rewrite H in R.
Qed.

Lemma write_rows_spec (items : list (string * SolvedRecord)) :
  match write_rows items with
  | (rows, None) => Forall2 row_of items rows
  | (rows, Some e) =>
      exists good bad rest,
        items = good ++ bad :: rest
        /\ Forall2 row_of good rows
        /\ csv_row bad = Raise e
        /\ in_timestamp_range (rec_ts (snd bad)) = false
  end.
Proof.
  induction items as [|item items IH]; cbn [write_rows].
  - constructor.
  - pose proof (csv_row_spec item) as Hrow.
    destruct (csv_row item) as [row|e] eqn:E.
    + destruct (write_rows items) as [rows [e|]].
      * destruct IH as (good & bad & rest & -> & HF & Hbad & Hr).
        exists (item :: good), bad, rest.
        split; [reflexivity|]. split; [now constructor|]. now split.
      * now constructor.
    + exists [], item, items.
      split; [reflexivity|]. split; [constructor|]. now split.
Qed.

(** X23.  What [save_csv] writes.  Without solved problems nothing is
    written, and nothing when the file dialog is cancelled.  Otherwise
    the header row comes first, then one row per solved problem, newest
    first, holding the key, the day of the first acceptance, the name,
    the rating (empty when the problem has none) and the tags joined by
    semicolons.  The export is complete exactly when every timestamp is
    within the years 1 to 9999; at the first one that is not, writing
    stops with an error and the file keeps the rows written so far. *)
Theorem save_csv_rows (solved_map : PyDict.t SolvedRecord) (fname : string) :
  match save_csv solved_map fname with
  | NothingToSave => solved_map = []
  | SaveCancelled => solved_map <> [] /\ fname = ""
  | Saved f rows =>
      f = fname /\ fname <> "" /\ solved_map <> []
      /\ exists data,
           rows = csv_header :: data
           /\ Forall2 row_of (newest_first solved_map) data
           /\ List.length data = List.length solved_map
           /\ (forall item, In item (PyDict.items solved_map) ->
                            in_timestamp_range (rec_ts (snd item)) = true)
  | SaveError f rows e =>
      f = fname /\ fname <> "" /\
      exists good bad rest data,
        newest_first solved_map = good ++ bad :: rest
        /\ rows = csv_header :: data
        /\ Forall2 row_of good data
        /\ In bad (PyDict.items solved_map)
        /\ in_timestamp_range (rec_ts (snd bad)) = false
  end.
Proof.
  unfold save_csv. destruct solved_map as [|entry solved_map'] eqn:Em;
    [reflexivity|].
  rewrite <- Em. assert (Hne : solved_map <> []) by (rewrite Em; discriminate).
  clear Em.
  destruct (String.eqb_spec fname "") as [Ef|Ef]; [now split|].
  pose proof (write_rows_spec (newest_first solved_map)) as Hw.
  destruct (newest_first_sorted (PyDict.items solved_map)) as [_ Hp].
  fold (newest_first solved_map) in Hp.
  destruct (write_rows (newest_first solved_map)) as [rows [e|]].
  - destruct Hw as (good & bad & rest & Hsplit & HF & _ & Hr).
    split; [reflexivity|]. split; [exact Ef|].
    exists good, bad, rest, rows.
    split; [exact Hsplit|]. split; [reflexivity|]. split; [exact HF|].
    split; [|exact Hr].
    apply Permutation_in with (l := newest_first solved_map);
      [now apply Permutation_sym|].
    rewrite Hsplit. apply in_elt.
  - split; [reflexivity|]. split; [exact Ef|]. split; [exact Hne|].
    exists rows. split; [reflexivity|]. split; [exact Hw|]. split.
    + rewrite <- (Forall2_length Hw).
      symmetry. apply Permutation_length. exact Hp.
    + intros item Hin.
      apply Permutation_in with (l' := newest_first solved_map) in Hin;
        [|exact Hp].
      destruct (Forall2_In_left _ _ _ _ Hw Hin) as (row & _ & Hrow).
      exact (row_of_in_range _ _ Hrow).
Qed.

Lemma listing_lines_spec (item : string * SolvedRecord) :
  match listing_lines item with
  | Return lines =>
      exists md,
        friendly_md (rec_ts (snd item)) = Return md
        /\ fst lines
           = (fst item ++ " | " ++ md ++ " | " ++ rec_name (snd item)
                ++ " | tags: " ++ join "," (rec_tags (snd item)))%string
        /\ snd lines
           = (fst item ++ TAB ++ md ++ TAB
                ++ rating_text (rec_rating (snd item)) ++ TAB
                ++ join "," (rec_tags (snd item)))%string
  | Raise _ => in_timestamp_range (rec_ts (snd item)) = false
  end.
Proof.
  destruct item as [key [[[ts tags] name] rating]].
  unfold listing_lines. cbn [fst snd rec_ts rec_name rec_rating rec_tags].
  pose proof (friendly_md_range ts) as H.
  destruct (friendly_md ts) as [md|e]; cbn [bind]; [|exact H].
  exists md. repeat split.
Qed.

Lemma map_result_spec {A B : Type} (f : A -> result B) (l : list A) :
  match map_result f l with
  | Return bs => Forall2 (fun a b => f a = Return b) l bs
  | Raise e => exists a, In a l /\ f a = Raise e
  end.
Proof.
  induction l as [|a l IH]; cbn [map_result]; [constructor|].
  destruct (f a) as [b|e] eqn:E; cbn [bind].
  - destruct (map_result f l) as [bs|e]; cbn [bind].
    + now constructor.
    + destruct IH as (a' & Hin & Ha'). exists a'. split; [now right|auto].
  - exists a. split; [now left|exact E].
Qed.

(** X24.  The problem list of a fetch has one line per solved problem,
    newest first, each showing the key, the day of the first
    acceptance, the name and the tags; it exists exactly when every
    timestamp of the solved map is within the years 1 to 9999, and
    otherwise the thread ends in its error branch although the solved
    map and the tag counts were computed. *)
Theorem problem_listing_one_line_each (solved_map : PyDict.t SolvedRecord) :
  match problem_listing solved_map with
  | Return lines =>
      List.length lines = List.length solved_map
      /\ Forall2 (fun item line =>
                    exists md,
                      friendly_md (rec_ts (snd item)) = Return md
                      /\ fst line
                         = (fst item ++ " | " ++ md ++ " | "
                              ++ rec_name (snd item) ++ " | tags: "
                              ++ join "," (rec_tags (snd item)))%string)
                 (newest_first solved_map) lines
      /\ (forall item, In item (PyDict.items solved_map) ->
                       in_timestamp_range (rec_ts (snd item)) = true)
  | Raise e =>
      exists item, In item (PyDict.items solved_map)
                   /\ in_timestamp_range (rec_ts (snd item)) = false
  end.
Proof.
  unfold problem_listing.
  pose proof (map_result_spec listing_lines (newest_first solved_map)) as H.
  destruct (newest_first_sorted (PyDict.items solved_map)) as [_ Hp].
  fold (newest_first solved_map) in Hp.
  destruct (map_result listing_lines (newest_first solved_map)) as [lines|e].
  - assert (HF : Forall2 (fun item line =>
                    exists md,
                      friendly_md (rec_ts (snd item)) = Return md
                      /\ fst line
                         = (fst item ++ " | " ++ md ++ " | "
                              ++ rec_name (snd item) ++ " | tags: "
                              ++ join "," (rec_tags (snd item)))%string)
                 (newest_first solved_map) lines).
    { eapply Forall2_impl; [|exact H].
      intros item line Hl. pose proof (listing_lines_spec item) as Hs.
      rewrite Hl in Hs. destruct Hs as (md & H1 & H2 & _). now exists md. }
    split; [|split; [exact HF|]].
    + rewrite <- (Forall2_length H).
      symmetry. apply Permutation_length. exact Hp.
    + intros item Hin.
      apply Permutation_in with (l' := newest_first solved_map) in Hin;
        [|exact Hp].
      destruct (Forall2_In_left _ _ _ _ HF Hin) as (line & _ & md & Hmd & _).
      pose proof (friendly_md_range (rec_ts (snd item))) as R.
      now rewrite Hmd in R.
  - destruct H as (item & Hin & Hr). exists item. split.
    + apply Permutation_in with (l := newest_first solved_map);
        [now apply Permutation_sym|exact Hin].
    + pose proof (listing_lines_spec item) as Hs. now rewrite Hr in Hs.
Qed.

(** ** Worked examples *)

Example parse_date_maybe_offset_example :
  parse_date_maybe offset_fromisoformat (Some " 2024-03-10T01:30:00+02:00 ")
  = Return (Some (mkDatetime 2024 3 9 23 30 0 0 utc)).
Proof. vm_compute. reflexivity. Qed.

Example start_fetch_examples :
  start_fetch sample_fromisoformat " < > " "2024-01-01" "" sample_now sample_now
  = NoHandle
  /\ start_fetch sample_fromisoformat "tourist" "2024-13-01" "" sample_now
       sample_now
     = DateParseError DATE_ERROR
  /\ start_fetch sample_fromisoformat " <tourist>" "2024-02-01" "2024-02-29"
       sample_now sample_now
     = Started "tourist" (mkDatetime 2024 2 1 0 0 0 0 utc)
               (mkDatetime 2024 2 29 23 59 59 0 utc).
Proof. repeat split; vm_compute; reflexivity. Qed.

Example save_csv_examples :
  save_csv export_map "solved.csv"
  = Saved "solved.csv"
      [ csv_header;
        ["2-B"; "03-01"; "Second"; ""; ""];
        ["1-A"; "02-29"; "First"; "1200"; "dp;math"];
        ["3-C"; "02-29"; "Third"; "800"; "greedy"] ]
  /\ save_csv far_future_map "solved.csv"
     = SaveError "solved.csv" [csv_header] (ValueError "year is out of range")
  /\ save_csv export_map "" = SaveCancelled
  /\ save_csv [] "solved.csv" = NothingToSave.
Proof. repeat split; vm_compute; reflexivity. Qed.


(** ** The fetch thread never fails on a day *)

Lemma in_set {V : Type} (k k0 : string) (v v0 : V) (d : PyDict.t V) :
  In (k0, v0) (PyDict.set k v d) -> (k0, v0) = (k, v) \/ In (k0, v0) d.
Proof.
  induction d as [|[k' v'] d IH]; cbn [PyDict.set].
  - intros [H|[]]. now left.
  - destruct (String.eqb_spec k' k) as [->|Hk].
    + intros [H|H]; [left; now symmetry|right; now right].
    + intros [H|H]; [right; now left|].
      destruct (IH H) as [E|E]; [now left|right; now right].
Qed.

Lemma collect_values_from_stream (l : list Submission) (k : string)
    (r : SolvedRecord) :
  In (k, r) (collect_first_ac_per_problem l) ->
  exists s, In s l /\ submission_record s = r.
Proof.
  induction l as [|s l IH] using rev_ind; [contradiction|].
  rewrite collect_snoc. unfold collect_step.
  assert (Hold : In (k, r) (collect_first_ac_per_problem l) ->
                 exists s0, In s0 (l ++ [s]) /\ submission_record s0 = r).
  { intros H. destruct (IH H) as (s0 & Hin & Hr). exists s0.
    split; [apply in_or_app; now left|exact Hr]. }
  assert (Hnew : In (k, r) (PyDict.set (submission_key s)
                              (submission_record s)
                              (collect_first_ac_per_problem l)) ->
                 exists s0, In s0 (l ++ [s]) /\ submission_record s0 = r).
  { intros H. apply in_set in H. destruct H as [E|H]; [|auto].
    injection E as _ ->. exists s.
    split; [apply in_or_app; right; now left|reflexivity]. }
  destruct (negb (verdict_ok s)); [exact Hold|].
  destruct (PyDict.get _ _) as [r0|]; [|exact Hnew].
  destruct (_ <? _); [exact Hnew|exact Hold].
Qed.

(** The timestamp of a UTC date-time of the years 1 to 9999 is one
    [friendly_md] can show, unless the date-time lies within the last
    second of the year 9999, which the binary64 quotient may round up
    to the first second of the year 10000. *)
Lemma int_timestamp_in_range (dt : datetime) :
  well_formed dt -> tzinfo dt = utc ->
  MIN_TIMESTAMP <= int_timestamp dt <= MAX_TIMESTAMP + 1
  /\ (utc_us dt <= MAX_TIMESTAMP * 1000000 ->
      int_timestamp dt <= MAX_TIMESTAMP).
Proof.
  intros Hw Htz. pose proof (local_us_range dt Hw) as Hl.
  destruct Hw as (Hv & _). pose proof (ymd2ord_range _ _ _ Hv) as Hr.
  assert (E : MIN_TIMESTAMP = -62135596800 /\ MAX_TIMESTAMP = 253402300799
              /\ EPOCH_ORDINAL = 719163) by (repeat split).
  destruct E as (Emin & Emax & Ee). rewrite Emin, Emax.
  assert (Hu : -62135596800 * 1000000 <= utc_us dt
               <= (253402300799 + 1) * 1000000).
  { unfold utc_us. rewrite Htz, Ee. cbn [utc get_default].
    unfold MAXORDINAL in Hr. lia. }
  pose proof (int_timestamp_bounds dt ltac:(lia)) as Hb.
  split; [split|].
  - apply (Hb (-62135596800)). lia.
  - apply (Hb (253402300799 + 1)). lia.
  - intros Hle. apply (Hb 253402300799). exact Hle.
Qed.

(** The problem list of what was solved in a window of timestamps that
    have a calendar day. *)
Lemma listing_of_window (l : list Submission) (lo hi : Z) :
  MIN_TIMESTAMP <= lo -> hi <= MAX_TIMESTAMP ->
  Forall (fun s => in_window (Some lo) (Some hi) s = true) l ->
  exists lines,
    problem_listing (collect_first_ac_per_problem l) = Return lines
    /\ List.length lines = List.length (collect_first_ac_per_problem l).
Proof.
  intros Hlo Hhi Hall.
  destruct (newest_first_sorted
              (PyDict.items (collect_first_ac_per_problem l))) as [_ Hp].
  fold (newest_first (collect_first_ac_per_problem l)) in Hp.
  unfold problem_listing.
  pose proof (map_result_spec listing_lines
                (newest_first (collect_first_ac_per_problem l))) as Hm.
  destruct (map_result listing_lines _) as [lines|e].
  - exists lines. split; [reflexivity|].
    rewrite <- (Forall2_length Hm). symmetry.
    apply Permutation_length. exact Hp.
  - exfalso. destruct Hm as ([k r] & Hin & Hr).
    pose proof (listing_lines_spec (k, r)) as Hs. rewrite Hr in Hs.
    apply (Permutation_in _ (Permutation_sym Hp)) in Hin.
    destruct (collect_values_from_stream _ _ _ Hin) as (s & Hs' & <-).
    cbn [snd] in Hs. rewrite rec_ts_submission_record in Hs.
    rewrite Forall_forall in Hall. specialize (Hall s Hs').
    unfold in_window, below_bound, above_bound in Hall.
    apply andb_prop in Hall. destruct Hall as [H1 H2].
    apply negb_true_iff, Z.ltb_ge in H1.
    apply negb_true_iff, Z.ltb_ge in H2.
    unfold in_timestamp_range in Hs.
    apply andb_false_iff in Hs. rewrite !Z.leb_gt in Hs. lia.
Qed.

Section FetchThreadReportFacts.

Variable http_user_status : nat -> string -> Z -> Z -> result envelope.
Variable repr_envelope : envelope -> string.

Lemma fetch_yields_in_window (handle : string) (dt_from dt_to : datetime)
    (page_size max_requests : Z) (progress : bool) :
  Forall (fun s => in_window (Some (int_timestamp dt_from))
                             (Some (int_timestamp dt_to)) s = true)
         (yielded (fetch_submissions_in_period http_user_status
                     repr_envelope handle (Some dt_from) (Some dt_to)
                     page_size max_requests progress)).
Proof.
  unfold fetch_submissions_in_period.
  destruct (datetime_gtb dt_from dt_to); [constructor|].
  apply fetch_loop_yields_in_window.
Qed.

(** X25.  When both bounds of the window are UTC date-times, as
    [start_fetch] builds them, and the upper one is not later than
    9999-12-31T23:59:59Z, the fetch thread fails only when the fetch
    itself fails: a fetch that ends normally always leads to the
    report, with the solved map of the yielded submissions and one line
    of the problem list per solved problem, because every timestamp in
    the window is one whose day can be shown. *)
Theorem fetch_thread_fails_only_with_the_fetch (handle : string)
    (dt_from dt_to : datetime) :
  well_formed dt_from -> well_formed dt_to ->
  tzinfo dt_from = utc -> tzinfo dt_to = utc ->
  utc_us dt_to <= MAX_TIMESTAMP * 1000000 ->
  let '(run, res) :=
    fetch_thread_report http_user_status repr_envelope handle dt_from dt_to
  in
  run = fetch_submissions_in_period http_user_status repr_envelope handle
          (Some dt_from) (Some dt_to) 1000 200 true
  /\ match outcome run with
     | Raised e => res = Raise e
     | Exhausted | OutOfFuel =>
         exists r lines,
           res = Return (r, lines)
           /\ res_solved_map r = collect_first_ac_per_problem (yielded run)
           /\ List.length lines = List.length (res_solved_map r)
     end.
Proof.
  intros Hwf Hwt Htf Htt Hlast.
  unfold fetch_thread_report, _fetch_thread.
  pose proof (fetch_yields_in_window handle dt_from dt_to 1000 200 true)
    as Hall.
  generalize dependent (fetch_submissions_in_period http_user_status
                          repr_envelope handle (Some dt_from) (Some dt_to)
                          1000 200 true).
  intros run Hall. split; [reflexivity|].
  destruct (listing_of_window (yielded run) _ _
              (proj1 (proj1 (int_timestamp_in_range dt_from Hwf Htf)))
              (proj2 (int_timestamp_in_range dt_to Hwt Htt) Hlast) Hall)
    as (lines & Hl & Hlen).
  destruct (summarize_returns handle
              (collect_first_ac_per_problem (yielded run)))
    as (tl & _ & Hsum).
  destruct (outcome run); [|reflexivity|];
    rewrite Hsum; cbn [bind res_solved_map]; rewrite Hl; cbn [bind];
    eexists _, lines; (split; [reflexivity|]); split;
    [reflexivity|exact Hlen|reflexivity|exact Hlen].
Qed.

End FetchThreadReportFacts.

Lemma fetch_thread_fails_only_with_the_fetch_witness :
  well_formed (at_second 60) /\ well_formed (at_second 300)
  /\ tzinfo (at_second 60) = utc /\ tzinfo (at_second 300) = utc
  /\ utc_us (at_second 300) <= MAX_TIMESTAMP * 1000000
  /\ let '(run, res) :=
       fetch_thread_report two_page_http sample_repr "alice"
         (at_second 60) (at_second 300)
     in
     run = fetch_submissions_in_period two_page_http sample_repr "alice"
             (Some (at_second 60)) (Some (at_second 300)) 1000 200 true
     /\ match outcome run with
        | Raised e => res = Raise e
        | Exhausted | OutOfFuel =>
            exists r lines,
              res = Return (r, lines)
              /\ res_solved_map r
                 = collect_first_ac_per_problem (yielded run)
              /\ List.length lines = List.length (res_solved_map r)
        end.
Proof.
  assert (H1 : well_formed (at_second 60)).
  { unfold well_formed, valid_date. vm_compute. repeat split; discriminate. }
  assert (H2 : well_formed (at_second 300)).
  { unfold well_formed, valid_date. vm_compute. repeat split; discriminate. }
  assert (H3 : utc_us (at_second 300) <= MAX_TIMESTAMP * 1000000)
    by (vm_compute; discriminate).
  split; [exact H1|]. split; [exact H2|].
  split; [reflexivity|]. split; [reflexivity|]. split; [exact H3|].
  exact (fetch_thread_fails_only_with_the_fetch two_page_http sample_repr
           "alice" (at_second 60) (at_second 300) H1 H2 eq_refl eq_refl H3).
Defined.


(** The bound on the upper date-time is needed: the last microsecond of
    the year 9999 is read as the first second of the year 10000, a
    submission of that second is then inside the window, and the
    thread fails after a fetch that ended normally. *)
Example last_second_of_9999_rounds_up :
  well_formed last_moment /\ tzinfo last_moment = utc
  /\ Z.quot (utc_us last_moment) 1000000 = 253402300799
  /\ int_timestamp last_moment = 253402300800
  /\ friendly_md 253402300800 = Raise (ValueError "year is out of range")
  /\ (let '(run, res) :=
        fetch_thread_report year_10000_http sample_repr "alice"
          (mkDatetime 9999 12 31 0 0 0 0 utc) last_moment in
      outcome run = Exhausted
      /\ res = Raise (ValueError "year is out of range")).
Proof.
  split.
  { unfold well_formed, valid_date. vm_compute. repeat split; discriminate. }
  repeat split; vm_compute; reflexivity.
Qed.
